(** * linearlight: current calibration of a four-channel LED fixture

    A shallow embedding of [current_calibration/run.mjs] and the proofs of
    its calibration, level and colour-scaling properties.

    Conventions of the embedding:
    - JavaScript integers are [Z]; [Math.floor((lo+hi)/2)] is [(lo + hi) / 2]
      ([Z.div] rounds towards minus infinity, as [Math.floor] does).  The
      numbers of the code are binary64: the two agree for bounds of
      [0 .. 2^52] ([midpoint_exact]) and differ beyond [2^53], where the
      search on numbers, [findLimit_binary64], is the reference.
    - An [async] function is a function from the world to an outcome and a
      new world; [await] is the bind of that monad.  A rejected promise is
      the outcome [Rejected], which every later step propagates.
    - The fixture behind [fetch] is a parameter: any function from a request
      and a device state to a response (or none) and a new device state.
    - Every [fetch] and every [delay] is recorded in [wire], newest first.
    - [findLimit] takes a budget of recursive calls, since it need not
      terminate when [lo > hi]; a promise that runs out of budget stays
      [Pending].  For [0 <= lo <= hi <= 2^52] the budget is shown not to
      matter.
    - The fractions of the [colour] command are binary64 numbers
      ([spec_float] of the Standard Library). *)

From Stdlib Require Import ZArith List String Ascii Bool Lia DecimalString.
From Stdlib Require Import SpecFloat.
Import ListNotations.
Local Open Scope string_scope.
Local Open Scope list_scope.
Local Open Scope Z_scope.
Set Warnings "-register-all".

(** ** JavaScript values the program handles *)

(** A parsed JSON document, as [resp.json()] yields it.  Numbers are
    integers, as the pin levels of the limit status are. *)
Inductive json : Type :=
| JNull
| JBool (b : bool)
| JNum (n : Z)
| JStr (s : string)
| JArr (items : list json)
| JObj (members : list (string * json)).

(** [Number.prototype.toString] on an integer below [2^53] in magnitude,
    which is printed digit by digit (the codes, levels and limits of the
    program are of 0..255; from [1e21] on JavaScript prints an exponent). *)
Definition toString (z : Z) : string := NilZero.string_of_int (Z.to_int z).

(** An array cell: [None] is a hole (reads as [undefined]). *)
Definition cell := option Z.

(** How [Array.prototype.join] and template literals print a cell. *)
Definition cellToString (c : cell) : string :=
  match c with
  | Some z => toString z
  | None => ""
  end.

(** [arr.join(',')]. *)
Fixpoint join (arr : list cell) : string :=
  match arr with
  | [] => ""
  | [c] => cellToString c
  | c :: rest => (cellToString c ++ "," ++ join rest)%string
  end.

(** The cells after [arr[idx] = value] when [idx] is an array index: inside
    the array the cell is replaced, beyond its end JavaScript extends the
    array, leaving holes. *)
Fixpoint array_put (arr : list cell) (idx : nat) (value : Z) : list cell :=
  match arr, idx with
  | [], O => [Some value]
  | [], S i => None :: array_put [] i value
  | _ :: rest, O => Some value :: rest
  | c :: rest, S i => c :: array_put rest i value
  end.

(** [arr[idx] = value] on an array.  An integer below [2^32 - 1] is an array
    index.  A larger one names an ordinary property: the assignment leaves
    the cells and the length of the array as they are, and [join] does not
    see the value. *)
Definition array_set (arr : list cell) (idx : nat) (value : Z) : list cell :=
  if Z.of_nat idx <? 4294967295 then array_put arr idx value else arr.

(** The result of the property access [j[key]]. *)
Inductive property : Type :=
| Throws
| Undefined
| Found (v : json).

(** The member [JSON.parse] keeps for a key: the last one in the text. *)
Fixpoint member (key : string) (ms : list (string * json)) : option json :=
  match ms with
  | [] => None
  | (k, v) :: rest =>
      match member key rest with
      | Some v' => Some v'
      | None => if String.eqb k key then Some v else None
      end
  end.

(** [j[key]] for the keys the program uses (pin names): [null] throws a
    TypeError, an object yields its member, every other value has no such
    property. *)
Definition js_get (j : json) (key : string) : property :=
  match j with
  | JNull => Throws
  | JObj ms =>
      match member key ms with
      | Some v => Found v
      | None => Undefined
      end
  | _ => Undefined
  end.

(** [v !== 0]. *)
Definition strict_ne_zero (v : property) : bool :=
  match v with
  | Found (JNum n) => negb (n =? 0)
  | _ => true
  end.

(** ** Aggregation of the samples *)

(** The order [Array.prototype.sort] uses when it is given no comparison
    function: the elements are compared as strings, by code unit. *)
Definition sort_leb (x y : Z) : bool :=
  match String.compare (toString x) (toString y) with
  | Gt => false
  | _ => true
  end.

Fixpoint sort_insert (x : Z) (l : list Z) : list Z :=
  match l with
  | [] => [x]
  | y :: l' => if sort_leb x y then x :: y :: l' else y :: sort_insert x l'
  end.

(** [a.sort()]: the stable sort for [sort_leb] (a sort is determined by
    its order and stability, so insertion stands for the engine's). *)
Fixpoint sort (a : list Z) : list Z :=
  match a with
  | [] => []
  | x :: a' => sort_insert x (sort a')
  end.

(** [median(a)]; [None] is [undefined], for the empty array. *)
Definition median (a : list Z) : cell :=
  let mid := Nat.div (List.length a) 2 in
  nth_error (sort a) mid.

(** The four arrays [rs], [gs], [bs], [ws] of [calib]. *)
Record samples : Type := mkSamples {
  rs : list Z;
  gs : list Z;
  bs : list Z;
  ws : list Z
}.

Definition push (s : samples) (l : Z * Z * Z * Z) : samples :=
  let '(r, g, b, w) := l in
  mkSamples (rs s ++ [r]) (gs s ++ [g]) (bs s ++ [b]) (ws s ++ [w]).

(** [level || 255] on the stored item: absent and 0 are falsy. *)
Definition level_or_255 (level : option Z) : Z :=
  match level with
  | Some z => if z =? 0 then 255 else z
  | None => 255
  end.

Definition truthy (level : option Z) : bool :=
  match level with
  | Some z => negb (z =? 0)
  | None => false
  end.

(** ** The device interface *)

Definition api : string := "http://192.168.68.112".

(** The three requests the program sends.  [request_url] and
    [request_body] give their text on the wire. *)
Inductive request : Type :=
| PutLevel (level : Z)
| PutCtrl (arr : list cell)
| GetLimit.

Definition request_url (r : request) : string :=
  match r with
  | PutLevel _ => (api ++ "/level")%string
  | PutCtrl _ => (api ++ "/ctrl")%string
  | GetLimit => (api ++ "/limit")%string
  end.

Definition request_body (r : request) : option string :=
  match r with
  | PutLevel level => Some ("L" ++ toString level)%string
  | PutCtrl arr => Some ("W" ++ join arr)%string
  | GetLimit => None
  end.

(** What the program reads of a [fetch] response.  [body] is [None] when
    the text is not JSON. *)
Record response : Type := mkResponse {
  ok : bool;
  statusText : string;
  url : string;
  body : option json
}.

(** Something that happened on the wire: a request with its response
    ([None]: the request could not be sent or got no answer), or a pause. *)
Inductive event : Type :=
| Exchange (req : request) (resp : option response)
| Sleep (ms : Z).

(** ** The persistent store and the console *)

(** The two items of node-persist the program uses, each absent or set:
    the LimitSet, an array, and the level, an integer. *)
Record store : Type := mkStore {
  LIMITS : option (list cell);
  LEVEL : option Z
}.

Inductive line : Type :=
| Text (s : string)
| Dump (v : list cell).

(** ** Promises *)

Inductive reason : Type :=
| FetchError
| Reason (msg : string)
| SyntaxError
| TypeError.

(** A promise settles ([Resolved], [Rejected]) or, when the recursion
    budget of the model runs out, stays [Pending]. *)
Inductive outcome (A : Type) : Type :=
| Resolved (a : A)
| Rejected (r : reason)
| Pending.

Arguments Resolved {A} a.
Arguments Rejected {A} r.
Arguments Pending {A}.

Section Program.

Context {D : Type}.

(** The fixture: how it answers a request in a given state. *)
Variable device : request -> D -> option response * D.

Record world : Type := mkWorld {
  dev : D;
  disk : store;
  wire : list event;
  console : list line
}.

Definition M (A : Type) : Type := world -> outcome A * world.

Definition ret {A} (a : A) : M A := fun w => (Resolved a, w).

Definition reject {A} (r : reason) : M A := fun w => (Rejected r, w).

Definition pending {A} : M A := fun w => (Pending, w).

Definition bind {A B} (m : M A) (k : A -> M B) : M B :=
  fun w =>
    match m w with
    | (Resolved a, w') => k a w'
    | (Rejected r, w') => (Rejected r, w')
    | (Pending, w') => (Pending, w')
    end.

Notation "x <- m ;; k" := (bind m (fun x => k))
  (at level 61, m at next level, right associativity).
Notation "m ;; k" := (bind m (fun _ => k))
  (at level 61, right associativity).

(** *** Primitive effects *)

Definition record (e : event) (d : D) (w : world) : world :=
  mkWorld d (disk w) (e :: wire w) (console w).

(** [fetch(url, {method, body})]. *)
Definition fetch (r : request) : M response :=
  fun w =>
    let '(resp, d) := device r (dev w) in
    let w' := record (Exchange r resp) d w in
    match resp with
    | Some x => (Resolved x, w')
    | None => (Rejected FetchError, w')
    end.

(** [delay(ms)]. *)
Definition delay (ms : Z) : M unit :=
  fun w => (Resolved tt, record (Sleep ms) (dev w) w).

(** [resp.json()]. *)
Definition resp_json (r : response) : M json :=
  match body r with
  | Some j => ret j
  | None => reject SyntaxError
  end.

Definition console_log (l : line) : M unit :=
  fun w => (Resolved tt, mkWorld (dev w) (disk w) (wire w) (console w ++ [l])).

Definition storage_getItem_limits : M (option (list cell)) :=
  fun w => (Resolved (LIMITS (disk w)), w).

Definition storage_getItem_level : M (option Z) :=
  fun w => (Resolved (LEVEL (disk w)), w).

(** [storage.setItem(limitsKey, limits)].  The store keeps the value as JSON
    text, which gives an array of numbers back as it is: the arrays that
    calibrations of at least one run store.  JSON has no [undefined]: a cell
    that is [undefined], which only a calibration of no run yields, would be
    read back as [null].  It is kept as it is here, so the store is that of
    the code for arrays of numbers only. *)
Definition storage_setItem_limits (limits : list cell) : M unit :=
  fun w =>
    (Resolved tt,
     mkWorld (dev w) (mkStore (Some limits) (LEVEL (disk w))) (wire w)
       (console w)).

(** *** DeviceClient *)

Definition errorHandler (r : response) : M response :=
  if ok r then ret r else reject (Reason (statusText r ++ ": " ++ url r)%string).

Definition setLevel (level : Z) : M unit :=
  r <- fetch (PutLevel level) ;;
  _ <- errorHandler r ;;
  delay 5.

Definition setChannels (arr : list cell) : M unit :=
  r <- fetch (PutCtrl arr) ;;
  _ <- errorHandler r ;;
  delay 5.

(** [channelKey[idx]]; beyond the array it is [undefined], which as a
    property name is the string "undefined". *)
Definition channelKey (idx : nat) : string :=
  nth idx ["pin17"; "pin16"; "pin5"; "pin19"] "undefined".

Definition getLimitSignal (idx : nat) : M bool :=
  r <- fetch GetLimit ;;
  resp <- errorHandler r ;;
  j <- resp_json resp ;;
  match js_get j (channelKey idx) with
  | Throws => reject TypeError
  | v => ret (strict_ne_zero v)
  end.

(** *** CalibrationEngine *)

Definition channelValues (idx : nat) (value : Z) : list cell :=
  array_set [Some 0; Some 0; Some 0; Some 0] idx value.

(** [fuel] bounds the number of recursive calls, that is of write/read
    round trips; the base case needs none.  The bounds and the midpoint are
    integers here, which is what the binary64 arithmetic of the code
    computes while [0 <= lo] and [hi <= 2^52]; [findLimit_binary64] below is
    the search on numbers. *)
Fixpoint findLimit (fuel : nat) (idx : nat) (lo hi : Z) : M Z :=
  let mid := (lo + hi) / 2 in
  if mid =? lo then ret lo
  else
    match fuel with
    | O => pending
    | S fuel' =>
        setChannels (channelValues idx mid) ;;
        limit <- getLimitSignal idx ;;
        if (limit : bool) then findLimit fuel' idx lo mid
        else findLimit fuel' idx mid hi
    end.

Definition getLimits (fuel : nat) : M (Z * Z * Z * Z) :=
  r <- findLimit fuel 0 0 255 ;;
  g <- findLimit fuel 1 0 255 ;;
  b <- findLimit fuel 2 0 255 ;;
  w <- findLimit fuel 3 0 255 ;;
  ret (r, g, b, w).

(** The body of the [for] loop of [calib], [n] times. *)
Fixpoint calib_runs (fuel : nat) (log : bool) (n : nat) (s : samples)
  : M samples :=
  match n with
  | O => ret s
  | S n' =>
      l <- getLimits fuel ;;
      (let '(r, g, b, w) := l in
       if log
       then console_log (Text (toString r ++ "," ++ toString g ++ ","
                                 ++ toString b ++ "," ++ toString w)%string)
       else ret tt) ;;
      calib_runs fuel log n' (push s l)
  end.

Definition calib (fuel : nat) (n : nat) (log : bool) : M (list cell) :=
  setLevel 255 ;;
  s <- calib_runs fuel log n (mkSamples [] [] [] []) ;;
  setLevel 0 ;;
  let limits := [median (rs s); median (gs s); median (bs s); median (ws s)] in
  storage_setItem_limits limits ;;
  ret limits.

(** *** Level initialization and the commands *)

Definition initLevels : M unit :=
  level <- storage_getItem_level ;;
  (if truthy level
   then console_log (Text ("From storage: level " ++ cellToString level)%string)
   else ret tt) ;;
  setLevel (level_or_255 level).

(** [case 'long']. *)
Definition long (fuel : nat) : M unit :=
  calib fuel 100 true ;;
  ret tt.

(** [case 'calib']. *)
Definition calib_command (fuel : nat) : M unit :=
  limits <- calib fuel 5 true ;;
  console_log (Dump limits).

(** [case 'colour'] up to the choice between one and four fractions: the
    LimitSet in use, after level initialization. *)
Definition colour_limits (fuel : nat) : M (list cell) :=
  stored <- storage_getItem_limits ;;
  lim <- match stored with
         | None => calib fuel 5 true
         | Some lim =>
             console_log (Text ("From storage: limits " ++ join lim)%string) ;;
             ret lim
         end ;;
  initLevels ;;
  ret lim.

(** [case 'white']. *)
Definition white : M unit :=
  initLevels ;;
  setChannels [Some 255; Some 255; Some 255; Some 255].

(** [case 'off']. *)
Definition off : M unit :=
  setChannels [Some 0; Some 0; Some 0; Some 0].

End Program.

Arguments world D : clear implicits.
Arguments M D A : clear implicits.

Notation "x <- m ;; k" := (bind m (fun x => k))
  (at level 61, m at next level, right associativity).
Notation "m ;; k" := (bind m (fun _ => k))
  (at level 61, right associativity).

(** ** A simulated fixture

    The device state is the last level and channel codes written and the
    number of requests seen.  [trip clock c v] tells whether channel [c]
    driven at code [v] trips at request number [clock]; [fault clock] makes
    that request fail. *)

Inductive failure : Type :=
| Healthy
| Unreachable
| Status (text : string).

Record sim : Type := mkSim {
  sim_level : Z;
  sim_channels : list cell;
  sim_clock : nat
}.

Definition pin (trip : nat -> nat -> Z -> bool) (s : sim) (c : nat) : json :=
  match nth c (sim_channels s) None with
  | Some v => JNum (if trip (sim_clock s) c v then 1 else 0)
  | None => JNum 0
  end.

Definition sim_answer (trip : nat -> nat -> Z -> bool) (r : request) (s : sim)
  : json * sim :=
  let clock := S (sim_clock s) in
  match r with
  | PutLevel level => (JNull, mkSim level (sim_channels s) clock)
  | PutCtrl arr => (JNull, mkSim (sim_level s) arr clock)
  | GetLimit =>
      (JObj [("pin17", pin trip s 0%nat); ("pin16", pin trip s 1%nat);
             ("pin5", pin trip s 2%nat); ("pin19", pin trip s 3%nat)],
       mkSim (sim_level s) (sim_channels s) clock)
  end.

Definition sim_device (trip : nat -> nat -> Z -> bool)
    (fault : nat -> failure) (r : request) (s : sim)
  : option response * sim :=
  match fault (sim_clock s) with
  | Healthy =>
      let '(j, s') := sim_answer trip r s in
      (Some (mkResponse true "OK" (request_url r) (Some j)), s')
  | Unreachable =>
      (None, mkSim (sim_level s) (sim_channels s) (S (sim_clock s)))
  | Status text =>
      (Some (mkResponse false text (request_url r) None),
       mkSim (sim_level s) (sim_channels s) (S (sim_clock s)))
  end.

(** A channel with threshold [T c] trips exactly above it. *)
Definition threshold (T : nat -> Z) : nat -> nat -> Z -> bool :=
  fun _ c v => T c <? v.

Definition no_fault : nat -> failure := fun _ => Healthy.

Definition table (l : list Z) (c : nat) : Z := nth c l 0.

(** A fresh session: device off, nothing stored, nothing sent. *)
Definition start : world sim :=
  mkWorld (mkSim 0 [Some 0; Some 0; Some 0; Some 0] 0)
    (mkStore None None) [] [].

(** The fixture with thresholds [T] and no failure. *)
Definition fixture (T : nat -> Z) : request -> sim -> option response * sim :=
  sim_device (threshold T) no_fault.

(** Request number [k] (from 0) fails with [f]. *)
Definition fault_at (k : nat) (f : failure) : nat -> failure :=
  fun clock => if Nat.eqb clock k then f else Healthy.

(** Channel thresholds that change from one run of [calib] to the next.
    [runs] lists the thresholds of channel 0, one per 64 requests after the
    level command (a run in which every search takes 8 round trips); the
    other channels stay at 150, 200 and 50. *)
Definition drifting (runs : list Z) : nat -> nat -> Z -> bool :=
  fun clock c v =>
    match c with
    | O => nth (Nat.div (clock - 1) 64) runs 0 <? v
    | _ => table [0; 150; 200; 50] c <? v
    end.

(** A fixture whose limit status is an empty JSON object. *)
Definition silent (r : request) (d : unit) : option response * unit :=
  (Some (mkResponse true "OK" (request_url r) (Some (JObj []))), d).

(** A one-run calibration whose eleventh request gets no answer. *)
Definition broken_run : outcome (list cell) * world sim :=
  calib (sim_device (threshold (table [100; 150; 200; 50]))
           (fault_at 10 Unreachable)) 8 1 false start.

(** A one-run calibration whose last request, the final level command, is
    answered with an error status. *)
Definition late_failure : outcome (list cell) * world sim :=
  calib (sim_device (threshold (table [100; 150; 200; 50]))
           (fault_at 65 (Status "Internal Server Error"))) 8 1 false start.

(** The [long] command on the fixture with thresholds 100, 150, 200, 50. *)
Definition long_session : outcome unit * world sim :=
  long (fixture (table [100; 150; 200; 50])) 8 start.

(** A session that starts with level 0 persisted. *)
Definition level_zero : world sim :=
  mkWorld (mkSim 0 [Some 0; Some 0; Some 0; Some 0] 0)
    (mkStore None (Some 0)) [] [].

(** The codes 100..255, those with three digits. *)
Definition three_digits : list Z := map Z.of_nat (seq 100 156).

(** ** The aggregation rule in the words of the specification *)

Fixpoint insert_ascending (x : Z) (l : list Z) : list Z :=
  match l with
  | [] => [x]
  | y :: l' => if x <=? y then x :: y :: l' else y :: insert_ascending x l'
  end.

(** The samples in ascending numeric order. *)
Fixpoint sort_ascending (a : list Z) : list Z :=
  match a with
  | [] => []
  | x :: a' => insert_ascending x (sort_ascending a')
  end.

(** The element at index [floor(numRuns/2)] of the samples sorted in
    ascending numeric order. *)
Definition median_spec (a : list Z) : cell :=
  nth_error (sort_ascending a) (Nat.div (List.length a) 2).

(** ** Vocabulary of the statements *)

(** An exchange that failed: no response, or a response that is not [ok]. *)
Definition failed (e : event) : bool :=
  match e with
  | Exchange _ None => true
  | Exchange _ (Some r) => negb (ok r)
  | Sleep _ => false
  end.

(** No exchange of the events failed. *)
Definition clean (evs : list event) : Prop :=
  forallb (fun e => negb (failed e)) evs = true.

(** Nothing failed before the newest event. *)
Definition stopped (evs : list event) : Prop :=
  match evs with
  | [] => True
  | _ :: earlier => clean earlier
  end.

(** A promise is rejected at the newest event at the latest; otherwise no
    exchange failed. *)
Definition halts {A} (o : outcome A) (evs : list event) : Prop :=
  match o with
  | Rejected _ => stopped evs
  | _ => clean evs
  end.

(** The events [findLimit idx] may put on the wire: writes that drive
    channel [idx] alone, reads of the limit signal and 5 ms pauses. *)
Definition probe (idx : nat) (e : event) : Prop :=
  match e with
  | Exchange (PutCtrl arr) _ => exists v, arr = channelValues idx v
  | Exchange GetLimit _ => True
  | Exchange (PutLevel _) _ => False
  | Sleep ms => ms = 5
  end.

(** The events of a whole run: probes of some channel. *)
Definition search (e : event) : Prop := exists idx, probe idx e.

(** Every channel but [idx] is driven at 0. *)
Definition isolated (idx : nat) (arr : list cell) : Prop :=
  List.length arr = 4%nat /\
  forall j, (j < 4)%nat -> j <> idx -> nth_error arr j = Some (Some 0).

Definition is_write (e : event) : bool :=
  match e with
  | Exchange (PutCtrl _) _ => true
  | _ => false
  end.

Definition is_read (e : event) : bool :=
  match e with
  | Exchange GetLimit _ => true
  | _ => false
  end.

Definition writes (evs : list event) : nat := List.length (filter is_write evs).

Definition reads (evs : list event) : nat := List.length (filter is_read evs).

(** The level commands among the events, newest first. *)
Fixpoint levels (evs : list event) : list Z :=
  match evs with
  | [] => []
  | Exchange (PutLevel l) _ :: rest => l :: levels rest
  | _ :: rest => levels rest
  end.

Section Specification.

Context {D : Type}.

(** [m] leaves the store alone, puts only events satisfying [P] on the
    wire and stops at the first failure. *)
Definition run_ok (P : event -> Prop) {A} (m : M D A) : Prop :=
  forall w, exists evs,
    wire (snd (m w)) = evs ++ wire w /\
    disk (snd (m w)) = disk w /\
    Forall P evs /\
    halts (fst (m w)) evs.

(** What a calibration leaves behind, by the way it ends. *)
Inductive calib_end (w : world D) (evs : list event) (w' : world D)
  : outcome (list cell) -> Prop :=
| calib_done (limits : list cell) :
    clean evs ->
    levels evs = [0; 255] ->
    disk w' = mkStore (Some limits) (LEVEL (disk w)) ->
    calib_end w evs w' (Resolved limits)
| calib_failed_at_start (r : reason) (resp : option response) :
    evs = [Exchange (PutLevel 255) resp] ->
    disk w' = disk w ->
    calib_end w evs w' (Rejected r)
| calib_failed_in_run (r : reason) (x : response) (run : list event) :
    evs = run ++ [Sleep 5; Exchange (PutLevel 255) (Some x)] ->
    ok x = true -> Forall search run -> stopped run ->
    disk w' = disk w ->
    calib_end w evs w' (Rejected r)
| calib_failed_at_end (r : reason) (resp : option response)
    (earlier : list event) :
    evs = Exchange (PutLevel 0) resp :: earlier ->
    clean earlier ->
    disk w' = disk w ->
    calib_end w evs w' (Rejected r)
| calib_pending :
    clean evs ->
    levels evs = [255] ->
    disk w' = disk w ->
    calib_end w evs w' Pending.

(** The promise [m] settles: the recursion budget was enough. *)
Definition settles {A} (m : M D A) : Prop :=
  forall w, fst (m w) <> Pending.


(** A fixture that always answers with success and a JSON object. *)
Definition responsive (device : request -> D -> option response * D) : Prop :=
  forall r d, exists resp ms,
    fst (device r d) = Some resp /\ ok resp = true /\
    body resp = Some (JObj ms).

End Specification.

(** ** Colour scaling

    The fractions of the [colour] command come from [parseFloat]: they are
    binary64 numbers, and [k*x] is the binary64 product.  Numbers are the
    Standard Library's [spec_float] with 53 bits of precision; the limits,
    which are integers, are converted exactly. *)

Definition number : Type := spec_float.

(** [k * x]. *)
Definition number_mul : number -> number -> number := SFmul 53 1024.

(** The number an integer denotes. *)
Definition of_int (z : Z) : number := binary_normalize 53 1024 z 0 false.

(** [Math.floor]. *)
Definition Math_floor (x : number) : number :=
  match x with
  | S754_finite s m e =>
      if 0 <=? e then x
      else
        match cond_Zopp s (Zpos m) / 2 ^ (- e) with
        | Z0 => S754_zero s
        | q => of_int q
        end
  | _ => x
  end.

(** A cell as an operand of [*]: a hole is [undefined], which is NaN. *)
Definition to_number (c : cell) : number :=
  match c with
  | Some z => of_int z
  | None => S754_nan
  end.

(** [lim.map(x => Math.floor(k*x))], the array of [colour X]. *)
Definition scale (k : number) (lim : list cell) : list number :=
  map (fun x => Math_floor (number_mul k (to_number x))) lim.

(** [[r*rl, g*gl, b*bl, w*wl].map(Math.floor)], the array of
    [colour R G B W], with [[rl, gl, bl, wl] = lim]. *)
Definition scale_each (r g b w : number) (lim : list cell) : list number :=
  map Math_floor
    [number_mul r (to_number (nth 0 lim None));
     number_mul g (to_number (nth 1 lim None));
     number_mul b (to_number (nth 2 lim None));
     number_mul w (to_number (nth 3 lim None))].

(** A fraction: a finite number, in its binary64 representation. *)
Definition fraction (k : number) : bool :=
  match k with
  | S754_zero _ | S754_finite _ _ _ => valid_binary 53 1024 k
  | _ => false
  end.

(** A channel limit: an integer of 0..255. *)
Definition channel_limit (c : cell) : Prop :=
  exists z, c = Some z /\ 0 <= z <= 255.

(** One half and one, as numbers. *)
Definition half : number := S754_finite false 4503599627370496 (-53).

Definition one : number := S754_finite false 4503599627370496 (-52).

(** *** The order of values and rounding, for the proofs *)

(** [a <= b] by value: neither is NaN and the real number [a] denotes is
    at most the one [b] denotes. *)
Definition number_leb (a b : number) : bool :=
  match a, b with
  | S754_nan, _ | _, S754_nan => false
  | S754_infinity true, _ => true
  | _, S754_infinity false => true
  | S754_infinity false, _ => false
  | _, S754_infinity true => false
  | S754_zero _, S754_zero _ => true
  | S754_zero _, S754_finite s _ _ => negb s
  | S754_finite s _ _, S754_zero _ => s
  | S754_finite s1 m1 e1, S754_finite s2 m2 e2 =>
      let e := Z.min e1 e2 in
      cond_Zopp s1 (Zpos m1) * 2 ^ (e1 - e)
      <=? cond_Zopp s2 (Zpos m2) * 2 ^ (e2 - e)
  end.

(** [X / 2 ^ n] rounded to the nearest integer, ties to even. *)
Definition rne (X n : Z) : Z :=
  let q := X / 2 ^ n in
  let t := 2 * (X mod 2 ^ n) in
  if t <? 2 ^ n then q
  else if 2 ^ n <? t then q + 1
  else if Z.even q then q else q + 1.

(** [rec] is [X] shifted right by [j] bits, with its round and sticky
    bits. *)
Definition shifted (j X : Z) (rec : shr_record) : Prop :=
  shr_m rec = X / 2 ^ j /\
  shr_r rec = (2 ^ j <=? 2 * (X mod 2 ^ j)) /\
  shr_s rec = negb (2 * (X mod 2 ^ j) - (if shr_r rec then 2 ^ j else 0) =? 0).

(** Values are measured in units of [2 ^ base], below every product of a
    fraction and a channel limit. *)
Definition base : Z := -1126.

(** The first value that is too large for a finite number. *)
Definition overflow : Z := 2 ^ (1024 - base).

(** The bits a value [U] (in units of [2 ^ base]) loses when rounded to 53
    bits, or to the smallest exponent of the format. *)
Definition round_shift (U : Z) : Z := Z.max (Z.log2 U + 1 - 53) 52.

(** The value [U] rounded to a number, in units of [2 ^ base]. *)
Definition rounded (U : Z) : Z := rne U (round_shift U) * 2 ^ round_shift U.

(** The value of a non-negative fraction in units of [2 ^ -1074]. *)
Definition scaled (k : number) : Z :=
  match k with
  | S754_finite false m e => Zpos m * 2 ^ (e + 1074)
  | _ => 0
  end.

(** [r] is the non-negative number that the value [U] rounds to. *)
Inductive rounds_to (U : Z) : number -> Prop :=
| rounds_zero (s : bool) : rounded U = 0 -> rounds_to U (S754_zero s)
| rounds_finite (m : positive) (e : Z) :
    bounded 53 1024 m e = true ->
    Zpos m * 2 ^ (e - base) = rounded U -> rounded U < overflow ->
    rounds_to U (S754_finite false m e)
| rounds_infinity : overflow <= rounded U -> rounds_to U (S754_infinity false).

(** [r] is the non-negative integer [F], or plus infinity for [None]. *)
Inductive integer_of : option Z -> number -> Prop :=
| integer_zero (s : bool) : integer_of (Some 0) (S754_zero s)
| integer_finite (m : positive) (e F : Z) :
    bounded 53 1024 m e = true -> -53 <= e ->
    Zpos m * 2 ^ (e + 53) = F * 2 ^ 53 ->
    integer_of (Some F) (S754_finite false m e)
| integer_infinity : integer_of None (S754_infinity false).

Definition opt_le (a b : option Z) : Prop :=
  match a, b with
  | _, None => True
  | Some x, Some y => 0 <= x <= y
  | None, Some _ => False
  end.

(** ** The arithmetic of the search

    The bounds and the midpoint of [findLimit] are binary64 numbers like
    every JavaScript number. *)

(** [a + b] and [a / b]. *)
Definition number_add : number -> number -> number := SFadd 53 1024.

Definition number_div : number -> number -> number := SFdiv 53 1024.

Definition two : number := S754_finite false 4503599627370496 (-51).

(** [Math.floor((lo+hi)/2)]. *)
Definition midpoint (lo hi : number) : number :=
  Math_floor (number_div (number_add lo hi) two).

(** [a === b] on numbers. *)
Definition strict_eq (a b : number) : bool := SFeqb a b.

(** [findLimit] on numbers, the device left out: every request succeeds and
    [limit k] is what the [k]-th read of the limit signal reports.  [None]
    is a search that has not returned within [fuel] recursive calls. *)
Fixpoint findLimit_binary64 (fuel : nat) (limit : nat -> bool)
    (lo hi : number) : option number :=
  let mid := midpoint lo hi in
  if strict_eq mid lo then Some lo
  else
    match fuel with
    | O => None
    | S fuel' =>
        if limit O
        then findLimit_binary64 fuel' (fun k => limit (S k)) lo mid
        else findLimit_binary64 fuel' (fun k => limit (S k)) mid hi
    end.

(** ** Vocabulary of the further statements *)

(** A probe of channel [idx] at a code strictly inside [lo .. hi]. *)
Definition probe_within (idx : nat) (lo hi : Z) (e : event) : Prop :=
  match e with
  | Exchange (PutCtrl arr) _ =>
      exists v, arr = channelValues idx v /\ lo < v < hi
  | Exchange GetLimit _ => True
  | Exchange (PutLevel _) _ => False
  | Sleep ms => ms = 5
  end.

(** Whole rounds of a search, newest first: a write of channel [idx] that
    succeeded, the pause of 5 ms, the read of the limit signal. *)
Inductive paced (idx : nat) : list event -> Prop :=
| paced_nil : paced idx []
| paced_round (v : Z) (x : response) (r : option response)
    (earlier : list event) :
    ok x = true -> paced idx earlier ->
    paced idx (Exchange GetLimit r :: Sleep 5
               :: Exchange (PutCtrl (channelValues idx v)) (Some x)
               :: earlier).

(** The requests among the events, newest first. *)
Fixpoint requests (evs : list event) : list request :=
  match evs with
  | [] => []
  | Exchange r _ :: rest => r :: requests rest
  | Sleep _ :: rest => requests rest
  end.

(** The threshold [t] as a search of [lo .. hi] can report it. *)
Definition clamp (lo hi t : Z) : Z := Z.max lo (Z.min t (hi - 1)).

(** The codes [first .. first + len - 1]. *)
Definition codes (first len : nat) : list Z := map Z.of_nat (seq first len).

(** On the values of [l] the order of [sort] is the numeric order. *)
Definition agree_on (l : list Z) : bool :=
  forallb (fun a => forallb (fun b => Bool.eqb (sort_leb a b) (a <=? b)) l) l.

(** [s'] is [s] with [n] more samples per channel, each of 0..254. *)
Definition samples_within (n : nat) (s s' : samples) : Prop :=
  exists ar ag ab aw,
    rs s' = rs s ++ ar /\ gs s' = gs s ++ ag /\
    bs s' = bs s ++ ab /\ ws s' = ws s ++ aw /\
    (List.length ar = n /\ List.length ag = n /\
     List.length ab = n /\ List.length aw = n) /\
    (Forall (fun v => 0 <= v <= 254) ar /\
     Forall (fun v => 0 <= v <= 254) ag /\
     Forall (fun v => 0 <= v <= 254) ab /\
     Forall (fun v => 0 <= v <= 254) aw).

(** Equality of numbers as data. *)
Definition number_eqb (a b : number) : bool :=
  match a, b with
  | S754_zero s, S754_zero s' => Bool.eqb s s'
  | S754_infinity s, S754_infinity s' => Bool.eqb s s'
  | S754_nan, S754_nan => true
  | S754_finite s m e, S754_finite s' m' e' =>
      Bool.eqb s s' && Pos.eqb m m' && Z.eqb e e'
  | _, _ => false
  end.

(** Sessions on the fixture with thresholds 100, 150, 200, 50: a search of
    channel 0, calibrations of one run and of no run, and a session that
    starts with a LimitSet in the store. *)
Definition one_search : outcome Z * world sim :=
  findLimit (fixture (table [100; 150; 200; 50])) 8 0 0 255 start.

Definition one_run : outcome (list cell) * world sim :=
  calib (fixture (table [100; 150; 200; 50])) 8 1 false start.

Definition no_run : outcome (list cell) * world sim :=
  calib (fixture (table [100; 150; 200; 50])) 8 0 false start.

Definition calibrated : world sim :=
  mkWorld (mkSim 0 [Some 0; Some 0; Some 0; Some 0] 0)
    (mkStore (Some [Some 228; Some 214; Some 185; Some 184]) None) [] [].

(** * Proofs *)

(** ** Events and failures *)

Lemma clean_app (a b : list event) : clean a -> clean b -> clean (a ++ b).
Proof.
  unfold clean. intros Ha Hb. rewrite forallb_app, Ha, Hb. reflexivity.
Qed.

Lemma clean_stopped (evs : list event) : clean evs -> stopped evs.
Proof.
  destruct evs as [|e evs]; simpl; [trivial|].
  unfold clean. simpl. intros H. apply andb_prop in H. apply H.
Qed.

Lemma stopped_app (a b : list event) : stopped a -> clean b -> stopped (a ++ b).
Proof.
  destruct a as [|e a]; simpl.
  - intros _. apply clean_stopped.
  - apply clean_app.
Qed.

Lemma clean_not_failed (evs : list event) :
  clean evs -> existsb failed evs = false.
Proof.
  unfold clean. induction evs as [|e evs IH]; simpl; [reflexivity|].
  intros H. apply andb_prop in H. destruct H as [He Hevs].
  rewrite (IH Hevs). destruct (failed e); [discriminate|reflexivity].
Qed.

Lemma halts_stopped {A} (o : outcome A) (evs : list event) :
  halts o evs -> stopped evs.
Proof. destruct o; simpl; auto using clean_stopped. Qed.

Section Runs.

Context {D : Type}.
Variable device : request -> D -> option response * D.

Local Abbreviation M := (M D).

(** ** The promise monad preserves [run_ok] *)

Lemma run_ok_ret (P : event -> Prop) {A} (a : A) : run_ok P (ret a : M A).
Proof.
  intros w. exists []. simpl. repeat split; auto. 
Qed.

Lemma run_ok_reject (P : event -> Prop) {A} (r : reason) :
  run_ok P (reject r : M A).
Proof.
  intros w. exists []. simpl. repeat split; auto.
Qed.

Lemma run_ok_pending (P : event -> Prop) {A} : run_ok P (pending : M A).
Proof.
  intros w. exists []. simpl. repeat split; auto.
Qed.

Lemma run_ok_bind (P : event -> Prop) {A B} (m : M A) (k : A -> M B) :
  run_ok P m -> (forall a, run_ok P (k a)) -> run_ok P (bind m k).
Proof.
  intros Hm Hk w. unfold bind.
  destruct (Hm w) as (e1 & Hw1 & Hd1 & HP1 & Hh1).
  destruct (m w) as [[a|r|] w1] eqn:E; simpl in *.
  - destruct (Hk a w1) as (e2 & Hw2 & Hd2 & HP2 & Hh2).
    exists (e2 ++ e1). rewrite Hw2, Hd2, Hw1, Hd1, app_assoc.
    repeat split; auto.
    + apply Forall_app; auto.
    + destruct (fst (k a w1)); simpl in *;
        auto using clean_app, stopped_app.
  - exists e1. auto.
  - exists e1. auto.
Qed.

Lemma run_ok_weaken (P Q : event -> Prop) {A} (m : M A) :
  (forall e, P e -> Q e) -> run_ok P m -> run_ok Q m.
Proof.
  intros HPQ Hm w. destruct (Hm w) as (evs & Hw & Hd & HP & Hh).
  exists evs. repeat split; auto. eapply Forall_impl; eauto.
Qed.

Lemma run_ok_console_log (P : event -> Prop) (l : line) :
  run_ok P (console_log l : M unit).
Proof.
  intros w. exists []. simpl. repeat split; auto.
Qed.

(** ** DeviceClient *)

(** A write and its pause: one exchange, then the pause if it succeeded. *)
Lemma run_ok_put (P : event -> Prop) (r : request) :
  P (Sleep 5) -> (forall resp, P (Exchange r resp)) ->
  run_ok P (x <- fetch device r ;; _ <- errorHandler x ;; delay 5).
Proof.
  intros Hs He w. unfold bind, fetch, errorHandler, delay, record.
  destruct (device r (dev w)) as [[x|] d] eqn:E; simpl.
  - destruct (ok x) eqn:Hok; simpl.
    + exists [Sleep 5; Exchange r (Some x)]. simpl.
      repeat split; auto; unfold clean; simpl; rewrite Hok; reflexivity.
    + exists [Exchange r (Some x)]. simpl. repeat split; auto.
  - exists [Exchange r None]. simpl. repeat split; auto.
Qed.

Lemma run_ok_setLevel (P : event -> Prop) (level : Z) :
  P (Sleep 5) -> (forall resp, P (Exchange (PutLevel level) resp)) ->
  run_ok P (setLevel device level).
Proof. apply run_ok_put. Qed.

Lemma run_ok_setChannels (P : event -> Prop) (arr : list cell) :
  P (Sleep 5) -> (forall resp, P (Exchange (PutCtrl arr) resp)) ->
  run_ok P (setChannels device arr).
Proof. apply run_ok_put. Qed.

Lemma run_ok_getLimitSignal (P : event -> Prop) (idx : nat) :
  (forall resp, P (Exchange GetLimit resp)) ->
  run_ok P (getLimitSignal device idx).
Proof.
  intros He w. unfold getLimitSignal, bind, fetch, errorHandler, record.
  destruct (device GetLimit (dev w)) as [[x|] d] eqn:E; simpl.
  - destruct (ok x) eqn:Hok; simpl.
    + exists [Exchange GetLimit (Some x)].
      assert (Hc : clean [Exchange GetLimit (Some x)])
        by (unfold clean; simpl; rewrite Hok; reflexivity).
      unfold resp_json. destruct (body x) as [j|]; simpl.
      * destruct (js_get j (channelKey idx)); simpl;
          repeat split; auto.
      * repeat split; auto.
    + exists [Exchange GetLimit (Some x)]. simpl. repeat split; auto.
  - exists [Exchange GetLimit None]. simpl. repeat split; auto.
Qed.

(** ** The search *)

Lemma run_ok_findLimit (fuel idx : nat) (lo hi : Z) :
  run_ok (probe idx) (findLimit device fuel idx lo hi).
Proof.
  revert lo hi. induction fuel as [|fuel IH]; intros lo hi; simpl;
    destruct ((lo + hi) / 2 =? lo);
    try apply run_ok_ret; try apply run_ok_pending.
  apply run_ok_bind.
  - apply run_ok_setChannels; simpl; eauto.
  - intros _. apply run_ok_bind.
    + apply run_ok_getLimitSignal. simpl. trivial.
    + intros [|]; apply IH.
Qed.

Lemma run_ok_getLimits (fuel : nat) : run_ok search (getLimits device fuel).
Proof.
  unfold getLimits.
  repeat (apply run_ok_bind;
          [eapply run_ok_weaken; [|apply run_ok_findLimit];
           intros e He; eexists; exact He
          |intros ?]).
  apply run_ok_ret.
Qed.

Lemma run_ok_calib_runs (fuel : nat) (log : bool) (n : nat) (s : samples) :
  run_ok search (calib_runs device fuel log n s).
Proof.
  revert s. induction n as [|n IH]; intros s; simpl.
  - apply run_ok_ret.
  - apply run_ok_bind; [apply run_ok_getLimits|].
    intros [[[r g] b] w]. apply run_ok_bind.
    + destruct log; [apply run_ok_console_log|apply run_ok_ret].
    + intros _. apply IH.
Qed.

(** ** Channel isolation *)

Lemma channelValues_isolated (idx : nat) (v : Z) :
  (idx < 4)%nat -> isolated idx (channelValues idx v).
Proof.
  intros Hidx.
  destruct idx as [|[|[|[|idx]]]]; try lia; split; try reflexivity;
    intros j Hj Hne;
    destruct j as [|[|[|[|j]]]]; try lia; try reflexivity.
Qed.

(** C6.  Every [setChannels] write that [findLimit(idx, lo, hi)] issues,
    for a channel [idx] in 0..3 and any [lo], [hi], carries an array of four
    codes in which every channel other than [idx] is 0. *)
Theorem findLimit_channel_isolation (fuel idx : nat) (lo hi : Z)
    (w : world D) :
  (idx < 4)%nat ->
  exists evs,
    wire (snd (findLimit device fuel idx lo hi w)) = evs ++ wire w /\
    forall arr resp, In (Exchange (PutCtrl arr) resp) evs -> isolated idx arr.
Proof.
  intros Hidx.
  destruct (run_ok_findLimit fuel idx lo hi w) as (evs & Hw & _ & HP & _).
  exists evs. split; [exact Hw|].
  intros arr resp Hin.
  rewrite Forall_forall in HP. destruct (HP _ Hin) as [v ->].
  apply channelValues_isolated, Hidx.
Qed.

(** ** Termination of the search *)

Lemma bind_ext {A B} (m : M A) (k1 k2 : A -> M B) (w : world D) :
  (forall a w', k1 a w' = k2 a w') -> bind m k1 w = bind m k2 w.
Proof.
  intros H. unfold bind. destruct (m w) as [[a|r|] w']; auto.
Qed.

Lemma midpoint_shrinks (lo hi : Z) :
  lo <= hi -> (lo + hi) / 2 <> lo -> lo < (lo + hi) / 2 < hi.
Proof.
  intros Hle Hne.
  pose proof (Z.div_mod (lo + hi) 2 ltac:(lia)).
  pose proof (Z.mod_pos_bound (lo + hi) 2 ltac:(lia)). lia.
Qed.

Lemma midpoint_halves (k : nat) (lo hi : Z) :
  hi - lo <= 2 ^ Z.of_nat (S k) ->
  (lo + hi) / 2 - lo <= 2 ^ Z.of_nat k /\ hi - (lo + hi) / 2 <= 2 ^ Z.of_nat k.
Proof.
  rewrite Nat2Z.inj_succ, Z.pow_succ_r by lia. intros H.
  pose proof (Z.div_mod (lo + hi) 2 ltac:(lia)).
  pose proof (Z.mod_pos_bound (lo + hi) 2 ltac:(lia)). lia.
Qed.

Lemma midpoint_base (lo hi : Z) :
  lo <= hi -> hi - lo <= 1 -> (lo + hi) / 2 = lo.
Proof.
  intros Hle H.
  pose proof (Z.div_mod (lo + hi) 2 ltac:(lia)).
  pose proof (Z.mod_pos_bound (lo + hi) 2 ltac:(lia)). lia.
Qed.

(** A write settles, and on a responsive fixture it resolves. *)
Lemma setChannels_settles (arr : list cell) (w : world D) :
  fst (setChannels device arr w) <> Pending /\
  (responsive device -> fst (setChannels device arr w) = Resolved tt).
Proof.
  unfold setChannels, bind, fetch, errorHandler, delay, responsive.
  split.
  - destruct (device (PutCtrl arr) (dev w)) as [[x|] d]; simpl;
      [destruct (ok x)|]; simpl; discriminate.
  - intros Hr. destruct (Hr (PutCtrl arr) (dev w)) as (x & ms & Hx & Hok & _).
    destruct (device (PutCtrl arr) (dev w)) as [o d]. simpl in Hx. subst o.
    simpl. rewrite Hok. reflexivity.
Qed.

Lemma getLimitSignal_settles (idx : nat) (w : world D) :
  fst (getLimitSignal device idx w) <> Pending /\
  (responsive device ->
   exists b, fst (getLimitSignal device idx w) = Resolved b).
Proof.
  unfold getLimitSignal, bind, fetch, errorHandler, resp_json, responsive.
  split.
  - destruct (device GetLimit (dev w)) as [[x|] d]; simpl; [|discriminate].
    destruct (ok x); simpl; [|discriminate].
    destruct (body x) as [j|]; simpl; [|discriminate].
    destruct (js_get j (channelKey idx)); simpl; discriminate.
  - intros Hr. destruct (Hr GetLimit (dev w)) as (x & ms & Hx & Hok & Hb).
    destruct (device GetLimit (dev w)) as [o d]. simpl in Hx. subst o.
    simpl. rewrite Hok. simpl. rewrite Hb. simpl.
    destruct (member (channelKey idx) ms); simpl; eauto.
Qed.

(** With [hi - lo <= 2 ^ k], [k] recursive calls are enough: more fuel
    changes nothing, the promise settles, and on a responsive fixture it
    resolves to a value of the range. *)
Lemma findLimit_enough (idx k : nat) :
  forall (lo hi : Z) (w : world D),
    lo <= hi -> hi - lo <= 2 ^ Z.of_nat k ->
    (forall fuel, (k <= fuel)%nat ->
       findLimit device fuel idx lo hi w = findLimit device k idx lo hi w) /\
    fst (findLimit device k idx lo hi w) <> Pending /\
    (responsive device ->
     exists v, fst (findLimit device k idx lo hi w) = Resolved v /\
               lo <= v <= hi).
Proof.
  induction k as [|k IH]; intros lo hi w Hle Hk.
  - assert (Hmid : ((lo + hi) / 2 =? lo) = true)
      by (apply Z.eqb_eq, midpoint_base; simpl in Hk; lia).
    repeat split.
    + intros fuel _. destruct fuel; simpl; rewrite Hmid; reflexivity.
    + simpl. rewrite Hmid. discriminate.
    + intros _. exists lo. simpl. rewrite Hmid. split; [reflexivity|lia].
  - destruct ((lo + hi) / 2 =? lo) eqn:Hmid.
    + repeat split.
      * intros fuel _. destruct fuel; simpl; rewrite Hmid; reflexivity.
      * simpl. rewrite Hmid. discriminate.
      * intros _. exists lo. simpl. rewrite Hmid. split; [reflexivity|lia].
    + apply Z.eqb_neq in Hmid.
      destruct (midpoint_shrinks lo hi Hle Hmid) as [Hlo Hhi].
      destruct (midpoint_halves k lo hi Hk) as [Hl Hh].
      apply Z.eqb_neq in Hmid.
      repeat split.
      * intros [|fuel] Hfuel; [lia|]. simpl. rewrite Hmid.
        apply bind_ext. intros _ w1. apply bind_ext. intros [|] w2.
        -- destruct (IH lo ((lo + hi) / 2) w2) as (Heq & _); try lia.
           apply Heq. lia.
        -- destruct (IH ((lo + hi) / 2) hi w2) as (Heq & _); try lia.
           apply Heq. lia.
      * simpl. rewrite Hmid. unfold bind at 1.
        pose proof (setChannels_settles
                      (channelValues idx ((lo + hi) / 2)) w) as [Hs _].
        destruct (setChannels device _ w) as [[[]|r|] w1]; simpl in *;
          try discriminate; try congruence.
        unfold bind.
        pose proof (getLimitSignal_settles idx w1) as [Hg _].
        destruct (getLimitSignal device idx w1) as [[[|]|r|] w2]; simpl in *;
          try discriminate; try congruence.
        -- apply (IH lo ((lo + hi) / 2) w2); lia.
        -- apply (IH ((lo + hi) / 2) hi w2); lia.
      * intros Hr. simpl. rewrite Hmid. unfold bind at 1.
        pose proof (setChannels_settles
                      (channelValues idx ((lo + hi) / 2)) w) as [_ Hs].
        specialize (Hs Hr).
        destruct (setChannels device _ w) as [o1 w1]. simpl in Hs. subst o1.
        unfold bind.
        pose proof (getLimitSignal_settles idx w1) as [_ Hg].
        destruct (Hg Hr) as [b Hb].
        destruct (getLimitSignal device idx w1) as [o2 w2]. simpl in Hb.
        subst o2. destruct b.
        -- destruct (IH lo ((lo + hi) / 2) w2) as (_ & _ & Hv); try lia.
           destruct (Hv Hr) as (v & Hv1 & Hv2). exists v. split; [auto|lia].
        -- destruct (IH ((lo + hi) / 2) hi w2) as (_ & _ & Hv); try lia.
           destruct (Hv Hr) as (v & Hv1 & Hv2). exists v. split; [auto|lia].
Qed.

Lemma width_log2_up (lo hi : Z) :
  hi - lo <= 2 ^ Z.of_nat (Z.to_nat (Z.log2_up (hi - lo))).
Proof.
  rewrite Z2Nat.id by apply Z.log2_up_nonneg.
  destruct (Z_le_gt_dec (hi - lo) 1) as [H|H].
  - pose proof (Z.pow_pos_nonneg 2 (Z.log2_up (hi - lo)) (ltac:(lia))
                  (Z.log2_up_nonneg _)). lia.
  - apply Z.log2_up_spec. lia.
Qed.

(** ** Calibration *)

(** [setLevel] either resolves after one successful exchange and the pause,
    or is rejected at its exchange. *)
Lemma setLevel_cases (level : Z) (w : world D) :
  disk (snd (setLevel device level w)) = disk w /\
  ((exists x, ok x = true /\
      fst (setLevel device level w) = Resolved tt /\
      wire (snd (setLevel device level w))
      = [Sleep 5; Exchange (PutLevel level) (Some x)] ++ wire w) \/
   (exists r resp,
      fst (setLevel device level w) = Rejected r /\
      wire (snd (setLevel device level w))
      = [Exchange (PutLevel level) resp] ++ wire w)).
Proof.
  unfold setLevel, bind, fetch, errorHandler, delay, record.
  destruct (device (PutLevel level) (dev w)) as [[x|] d]; simpl.
  - destruct (ok x) eqn:Hok; simpl; split; auto.
    + left. exists x. auto.
    + right. eauto.
  - split; auto. right. eauto.
Qed.

Lemma search_levels (evs : list event) : Forall search evs -> levels evs = [].
Proof.
  induction 1 as [|e evs [idx He] _ IH]; simpl; [reflexivity|].
  destruct e as [[l|arr|] resp|ms]; simpl in *; auto. contradiction.
Qed.

Lemma levels_app (a b : list event) : levels (a ++ b) = levels a ++ levels b.
Proof.
  induction a as [|e a IH]; simpl; [reflexivity|].
  destruct e as [[l|arr|] resp|ms]; simpl; rewrite IH; reflexivity.
Qed.

Lemma search_not_level (evs : list event) (l : Z) (resp : option response) :
  Forall search evs -> ~ In (Exchange (PutLevel l) resp) evs.
Proof.
  intros H Hin. rewrite Forall_forall in H.
  destruct (H _ Hin) as [idx Hp]. exact Hp.
Qed.

Lemma calib_cases (fuel n : nat) (log : bool) (w : world D)
    (o : outcome (list cell)) (w' : world D) :
  calib device fuel n log w = (o, w') ->
  exists evs, wire w' = evs ++ wire w /\ calib_end w evs w' o.
Proof.
  unfold calib. unfold bind at 1.
  destruct (setLevel_cases 255 w)
    as [Hd1 [(x & Hok & Ho1 & Hw1)|(r & resp & Ho1 & Hw1)]];
    destruct (setLevel device 255 w) as [o1 w1]; simpl in *; subst o1.
  2:{ intros [= <- <-]. exists [Exchange (PutLevel 255) resp].
      split; [exact Hw1|]. eapply calib_failed_at_start; eauto. }
  unfold bind at 1.
  destruct (run_ok_calib_runs fuel log n (mkSamples [] [] [] []) w1)
    as (run & Hw2 & Hd2 & HP2 & Hh2).
  assert (Hc1 : clean [Sleep 5; Exchange (PutLevel 255) (Some x)])
    by (unfold clean; simpl; rewrite Hok; reflexivity).
  destruct (calib_runs device fuel log n _ w1) as [[s|r|] w2]; simpl in *.
  - unfold bind at 1.
    destruct (setLevel_cases 0 w2)
      as [Hd3 [(y & Hoky & Ho3 & Hw3)|(r & resp & Ho3 & Hw3)]];
      destruct (setLevel device 0 w2) as [o3 w3]; simpl in *; subst o3.
    + unfold bind, storage_setItem_limits, ret. simpl. intros [= <- <-].
      exists ([Sleep 5; Exchange (PutLevel 0) (Some y)] ++ run ++
              [Sleep 5; Exchange (PutLevel 255) (Some x)]).
      split.
      * simpl. rewrite Hw3, Hw2, Hw1. simpl. rewrite <- app_assoc.
        reflexivity.
      * apply calib_done.
        -- apply clean_app; [unfold clean; simpl; rewrite Hoky; reflexivity|].
           apply clean_app; assumption.
        -- simpl. rewrite levels_app, (search_levels run HP2). reflexivity.
        -- simpl. rewrite Hd3, Hd2, Hd1. reflexivity.
    + intros [= <- <-].
      exists (Exchange (PutLevel 0) resp ::
              run ++ [Sleep 5; Exchange (PutLevel 255) (Some x)]).
      split.
      * rewrite Hw3, Hw2, Hw1. simpl. rewrite <- app_assoc. reflexivity.
      * eapply calib_failed_at_end; eauto.
        -- apply clean_app; assumption.
        -- congruence.
  - intros [= <- <-].
    exists (run ++ [Sleep 5; Exchange (PutLevel 255) (Some x)]).
    split.
    + rewrite Hw2, Hw1. rewrite <- app_assoc. reflexivity.
    + eapply calib_failed_in_run; eauto; congruence.
  - intros [= <- <-].
    exists (run ++ [Sleep 5; Exchange (PutLevel 255) (Some x)]).
    split.
    + rewrite Hw2, Hw1. rewrite <- app_assoc. reflexivity.
    + apply calib_pending.
      * apply clean_app; assumption.
      * rewrite levels_app, (search_levels run HP2). reflexivity.
      * congruence.
Qed.

(** C7.  If an exchange with the device fails during a calibration (no
    response, or a response that is not a success), the calibration is
    rejected, so no LimitSet is returned; the store is left as it was, so
    no LimitSet is persisted; and the failed exchange is the newest event
    and the only failure, so nothing was sent again after it. *)
Theorem calib_aborts_on_error (fuel n : nat) (log : bool) (w w' : world D)
    (o : outcome (list cell)) (evs : list event) :
  calib device fuel n log w = (o, w') ->
  wire w' = evs ++ wire w ->
  existsb failed evs = true ->
  (exists r, o = Rejected r) /\
  disk w' = disk w /\
  exists e earlier,
    evs = e :: earlier /\ failed e = true /\ existsb failed earlier = false.
Proof.
  intros Hrun Hwire Hfail.
  destruct (calib_cases _ _ _ _ _ _ Hrun) as (evs' & Hw & Hend).
  assert (evs' = evs) by (eapply app_inv_tail; rewrite <- Hw; exact Hwire).
  subst evs'. clear Hw.
  assert (Hhead : forall e earlier,
             evs = e :: earlier -> clean earlier ->
             exists e0 earlier0,
               evs = e0 :: earlier0 /\ failed e0 = true /\
               existsb failed earlier0 = false).
  { intros e earlier -> Hc. exists e, earlier.
    pose proof (clean_not_failed _ Hc) as Hn.
    simpl in Hfail. rewrite Hn, orb_false_r in Hfail. auto. }
  inversion Hend as [limits Hc _ _ Ho|r resp He Hd Ho|r x run He Hok HP Hs Hd Ho
                    |r resp earlier He Hc Hd Ho|Hc _ _ Ho]; subst o.
  - rewrite (clean_not_failed _ Hc) in Hfail. discriminate.
  - repeat split; eauto. eapply Hhead; [exact He|reflexivity].
  - repeat split; eauto.
    destruct run as [|e run].
    + subst evs. simpl in Hfail. rewrite Hok in Hfail. discriminate.
    + eapply Hhead; [exact He|]. simpl in Hs.
      apply clean_app; [exact Hs|].
      unfold clean. simpl. rewrite Hok. reflexivity.
  - repeat split; eauto.
  - rewrite (clean_not_failed _ Hc) in Hfail. discriminate.
Qed.

(** C9, as amended.  When a calibration is rejected and the newest event
    is not a level command (the failure happened in a run, in a
    [setChannels] or a [getLimitSignal]), the only level command the device
    was sent is the initial [setLevel(255)]: [setLevel(0)] is not issued. *)
Theorem calib_abort_leaves_level (fuel n : nat) (log : bool) (w w' : world D)
    (r : reason) (e : event) (earlier : list event) :
  calib device fuel n log w = (Rejected r, w') ->
  wire w' = (e :: earlier) ++ wire w ->
  (forall level resp, e <> Exchange (PutLevel level) resp) ->
  levels (e :: earlier) = [255] /\
  forall resp, ~ In (Exchange (PutLevel 0) resp) (e :: earlier).
Proof.
  intros Hrun Hwire Hne.
  destruct (calib_cases _ _ _ _ _ _ Hrun) as (evs & Hw & Hend).
  assert (evs = e :: earlier)
    by (eapply app_inv_tail; rewrite <- Hw; exact Hwire).
  subst evs. clear Hw.
  inversion Hend as [| r0 resp He Hd Ho | r0 x run He Hok HP Hs Hd Ho
                    | r0 resp earlier0 He Hc Hd Ho |].
  - injection He as -> _. destruct (Hne _ _ eq_refl).
  - rewrite He. split.
    + rewrite levels_app, (search_levels run HP). reflexivity.
    + intros resp Hin. apply in_app_or in Hin. destruct Hin as [Hin|Hin].
      * exact (search_not_level _ _ _ HP Hin).
      * simpl in Hin. destruct Hin as [Hin|[Hin|[]]]; discriminate.
  - injection He as -> _. destruct (Hne _ _ eq_refl).
Qed.

(** C3, as amended.  A calibration that resolves has written its LimitSet
    to the store under [LIMITS] (leaving [LEVEL] alone) before it returns;
    the [long] command is such a calibration, with 100 runs, so it persists
    its result as well. *)
Theorem calib_persists (fuel n : nat) (log : bool) (w w' : world D)
    (limits : list cell) :
  calib device fuel n log w = (Resolved limits, w') ->
  disk w' = mkStore (Some limits) (LEVEL (disk w)) /\
  (n = 100%nat -> log = true -> long device fuel w = (Resolved tt, w')).
Proof.
  intros Hrun. split.
  - destruct (calib_cases _ _ _ _ _ _ Hrun) as (evs & _ & Hend).
    inversion Hend. assumption.
  - intros -> ->. unfold long, bind. rewrite Hrun. reflexivity.
Qed.

(** ** Level initialization *)

Lemma setLevel_levels (level : Z) (w : world D) :
  levels (wire (snd (setLevel device level w))) = level :: levels (wire w).
Proof.
  destruct (setLevel_cases level w)
    as [_ [(x & _ & _ & ->)|(r & resp & _ & ->)]]; reflexivity.
Qed.

(** C4, as amended.  Level initialization sends exactly one level command:
    the persisted level when there is one and it is not 0, and 255 when no
    level is persisted or the persisted level is 0. *)
Theorem initLevels_sets_level (w : world D) :
  levels (wire (snd (initLevels device w)))
  = match LEVEL (disk w) with
    | Some level => if level =? 0 then 255 else level
    | None => 255
    end :: levels (wire w).
Proof.
  unfold initLevels, bind, storage_getItem_level.
  destruct (truthy (LEVEL (disk w))); unfold console_log, ret;
    rewrite setLevel_levels; reflexivity.
Qed.

(** ** Reading the limit signal *)

(** C10.  For a channel index in 0..3, when the device answers the limit
    request with success and a JSON object that has no field for that
    channel's pin, [getLimitSignal] resolves to [true]: the channel is
    reported as tripped. *)
Theorem getLimitSignal_missing_field (idx : nat) (w : world D)
    (resp : response) (d : D) (ms : list (string * json)) :
  (idx < 4)%nat ->
  device GetLimit (dev w) = (Some resp, d) ->
  ok resp = true ->
  body resp = Some (JObj ms) ->
  member (channelKey idx) ms = None ->
  fst (getLimitSignal device idx w) = Resolved true.
Proof.
  intros _ Hdev Hok Hbody Hmem.
  unfold getLimitSignal, bind, fetch, errorHandler, resp_json.
  rewrite Hdev. simpl. rewrite Hok. simpl. rewrite Hbody. simpl.
  rewrite Hmem. reflexivity.
Qed.

(** ** Round trips of the search *)

Lemma writes_app (a b : list event) :
  writes (a ++ b) = (writes a + writes b)%nat.
Proof. unfold writes. rewrite filter_app, length_app. reflexivity. Qed.

Lemma reads_app (a b : list event) :
  reads (a ++ b) = (reads a + reads b)%nat.
Proof. unfold reads. rewrite filter_app, length_app. reflexivity. Qed.

Lemma setChannels_wire (arr : list cell) (w : world D) :
  exists evs,
    wire (snd (setChannels device arr w)) = evs ++ wire w /\
    writes evs = 1%nat /\ reads evs = 0%nat.
Proof.
  unfold setChannels, bind, fetch, errorHandler, delay, record.
  destruct (device (PutCtrl arr) (dev w)) as [[x|] d]; simpl.
  - destruct (ok x); simpl.
    + exists [Sleep 5; Exchange (PutCtrl arr) (Some x)]. auto.
    + exists [Exchange (PutCtrl arr) (Some x)]. auto.
  - exists [Exchange (PutCtrl arr) None]. auto.
Qed.

Lemma getLimitSignal_wire (idx : nat) (w : world D) :
  exists evs,
    wire (snd (getLimitSignal device idx w)) = evs ++ wire w /\
    writes evs = 0%nat /\ reads evs = 1%nat.
Proof.
  unfold getLimitSignal, bind, fetch, errorHandler, resp_json, record.
  destruct (device GetLimit (dev w)) as [[x|] d]; simpl.
  - exists [Exchange GetLimit (Some x)].
    destruct (ok x); simpl; auto.
    destruct (body x) as [j|]; simpl; auto.
    destruct (js_get j (channelKey idx)); simpl; auto.
  - exists [Exchange GetLimit None]. auto.
Qed.

(** A range of width at most [2 ^ k] costs at most [k] writes and [k]
    reads, on any fixture and with any budget. *)
Lemma findLimit_round_trips (idx k : nat) :
  forall (fuel : nat) (lo hi : Z) (w : world D),
    lo <= hi -> hi - lo <= 2 ^ Z.of_nat k ->
    exists evs,
      wire (snd (findLimit device fuel idx lo hi w)) = evs ++ wire w /\
      (writes evs <= k)%nat /\ (reads evs <= k)%nat.
Proof.
  induction k as [|k IH]; intros fuel lo hi w Hle Hk.
  - assert (Hmid : ((lo + hi) / 2 =? lo) = true)
      by (apply Z.eqb_eq, midpoint_base; simpl in Hk; lia).
    exists []. destruct fuel; simpl; rewrite Hmid; simpl; auto.
  - destruct ((lo + hi) / 2 =? lo) eqn:Hmid.
    + exists []. destruct fuel; simpl; rewrite Hmid; simpl;
        repeat split; auto; unfold writes, reads; simpl; lia.
    + apply Z.eqb_neq in Hmid.
      destruct (midpoint_shrinks lo hi Hle Hmid) as [Hlo Hhi].
      destruct (midpoint_halves k lo hi Hk) as [Hl Hh].
      apply Z.eqb_neq in Hmid.
      destruct fuel as [|fuel]; simpl; rewrite Hmid.
      * exists []. simpl. repeat split; auto; unfold writes, reads; simpl; lia.
      * unfold bind at 1.
        destruct (setChannels_wire (channelValues idx ((lo + hi) / 2)) w)
          as (e1 & Hw1 & Hwr1 & Hrd1).
        destruct (setChannels device _ w) as [[[]|r|] w1]; simpl in *;
          try (exists e1; repeat split; auto; lia).
        unfold bind.
        destruct (getLimitSignal_wire idx w1) as (e2 & Hw2 & Hwr2 & Hrd2).
        destruct (getLimitSignal device idx w1) as [[b|r|] w2]; simpl in *;
          try (exists (e2 ++ e1); rewrite Hw2, Hw1, app_assoc,
                 writes_app, reads_app; repeat split; auto; lia).
        destruct b;
          [destruct (IH fuel lo ((lo + hi) / 2) w2) as (e3 & Hw3 & Hwr3 & Hrd3)
          |destruct (IH fuel ((lo + hi) / 2) hi w2) as (e3 & Hw3 & Hwr3 & Hrd3)];
          try lia;
          exists (e3 ++ e2 ++ e1);
          rewrite Hw3, Hw2, Hw1, !app_assoc, !writes_app, !reads_app;
        repeat split; auto; lia.
Qed.

(** ** The recursion budget of a calibration

    [getLimits] searches 0..255, where 8 recursive calls are enough: with a
    budget of 8 or more the model of [calib] settles, and the budget
    does not change its result. *)

Lemma settles_bind {A B} (m : M A) (k : A -> M B) :
  settles m -> (forall a, settles (k a)) -> settles (bind m k).
Proof.
  intros Hm Hk w. unfold bind. specialize (Hm w).
  destruct (m w) as [[a|r|] w']; simpl in *;
    [apply Hk|discriminate|congruence].
Qed.

Lemma settles_setLevel (level : Z) : settles (setLevel device level).
Proof.
  intros w.
  destruct (setLevel_cases level w) as [_ [(x & _ & -> & _)|(r & resp & -> & _)]];
    discriminate.
Qed.

Lemma settles_findLimit (fuel idx : nat) :
  (8 <= fuel)%nat -> settles (findLimit device fuel idx 0 255).
Proof.
  intros Hfuel w.
  destruct (findLimit_enough idx 8 0 255 w) as (Heq & Hs & _);
    [lia|simpl; lia|].
  rewrite (Heq fuel Hfuel). exact Hs.
Qed.

Lemma settles_getLimits (fuel : nat) :
  (8 <= fuel)%nat -> settles (getLimits device fuel).
Proof.
  intros Hfuel. unfold getLimits.
  repeat (apply settles_bind; [apply settles_findLimit, Hfuel|intros ?]).
  intros w. discriminate.
Qed.

Lemma settles_calib_runs (fuel : nat) (log : bool) (n : nat) (s : samples) :
  (8 <= fuel)%nat -> settles (calib_runs device fuel log n s).
Proof.
  intros Hfuel. revert s. induction n as [|n IH]; intros s; simpl.
  - intros w. discriminate.
  - apply settles_bind; [apply settles_getLimits, Hfuel|].
    intros [[[r g] b] w]. apply settles_bind.
    + destruct log; intros w'; discriminate.
    + intros _. apply IH.
Qed.

Lemma settles_calib (fuel n : nat) (log : bool) :
  (8 <= fuel)%nat -> settles (calib device fuel n log).
Proof.
  intros Hfuel. unfold calib.
  apply settles_bind; [apply settles_setLevel|intros _].
  apply settles_bind; [apply settles_calib_runs, Hfuel|intros s].
  apply settles_bind; [apply settles_setLevel|intros _].
  intros w. discriminate.
Qed.

Lemma getLimits_budget (fuel : nat) (w : world D) :
  (8 <= fuel)%nat -> getLimits device fuel w = getLimits device 8 w.
Proof.
  intros Hfuel. unfold getLimits.
  assert (H : forall idx w',
             findLimit device fuel idx 0 255 w'
             = findLimit device 8 idx 0 255 w').
  { intros idx w'.
    destruct (findLimit_enough idx 8 0 255 w') as (Heq & _);
      [lia|simpl; lia|].
    apply Heq, Hfuel. }
  unfold bind. rewrite H.
  destruct (findLimit device 8 0 0 255 w) as [[r|e|] w1]; auto.
  rewrite H.
  destruct (findLimit device 8 1 0 255 w1) as [[g|e|] w2]; auto.
  rewrite H.
  destruct (findLimit device 8 2 0 255 w2) as [[b|e|] w3]; auto.
  rewrite H. reflexivity.
Qed.

Lemma calib_runs_budget (fuel : nat) (log : bool) (n : nat) :
  (8 <= fuel)%nat ->
  forall (s : samples) (w : world D),
    calib_runs device fuel log n s w = calib_runs device 8 log n s w.
Proof.
  intros Hfuel. induction n as [|n IH]; intros s w; simpl; [reflexivity|].
  unfold bind at 1 3. rewrite (getLimits_budget fuel w Hfuel).
  destruct (getLimits device 8 w) as [[l|e|] w1]; auto.
  apply bind_ext. intros _ w2. apply IH.
Qed.

Lemma calib_budget (fuel n : nat) (log : bool) (w : world D) :
  (8 <= fuel)%nat -> calib device fuel n log w = calib device 8 n log w.
Proof.
  intros Hfuel. unfold calib. apply bind_ext. intros _ w1.
  unfold bind at 1 4. rewrite (calib_runs_budget fuel log n Hfuel).
  reflexivity.
Qed.

End Runs.

(** ** The simulated fixture with thresholds *)

Section Thresholds.

Variable T : nat -> Z.

Lemma setChannels_fixture (arr : list cell) (w : world sim) :
  exists w1,
    setChannels (fixture T) arr w = (Resolved tt, w1) /\
    sim_channels (dev w1) = arr.
Proof.
  unfold setChannels, bind, fetch, errorHandler, delay, record, fixture,
    sim_device, no_fault. simpl. eauto.
Qed.

Lemma getLimitSignal_fixture (c : nat) (v : Z) (w : world sim) :
  (c < 4)%nat ->
  nth_error (sim_channels (dev w)) c = Some (Some v) ->
  exists w1,
    getLimitSignal (fixture T) c w = (Resolved (T c <? v), w1).
Proof.
  intros Hc Hv.
  assert (Hn : nth c (sim_channels (dev w)) None = Some v)
    by (apply nth_error_nth; exact Hv).
  unfold getLimitSignal, bind, fetch, errorHandler, resp_json, record,
    fixture, sim_device, no_fault, sim_answer.
  destruct c as [|[|[|[|c]]]]; try lia; simpl;
    unfold pin, threshold; rewrite Hn; destruct (_ <? v); simpl;
    unfold ret; eauto.
Qed.

Lemma channelValues_own (c : nat) (v : Z) :
  (c < 4)%nat -> nth_error (channelValues c v) c = Some (Some v).
Proof.
  intros Hc. destruct c as [|[|[|[|c]]]]; try lia; reflexivity.
Qed.

(** On the fixture with thresholds [T] the search returns the threshold
    clamped to the values it can return, [lo .. hi - 1]. *)
Lemma findLimit_fixture (c : nat) :
  (c < 4)%nat ->
  forall (fuel : nat) (lo hi : Z) (w : world sim),
    lo < hi -> hi - lo <= 2 ^ Z.of_nat fuel ->
    fst (findLimit (fixture T) fuel c lo hi w)
    = Resolved (Z.max lo (Z.min (T c) (hi - 1))).
Proof.
  intros Hc. induction fuel as [|fuel IH]; intros lo hi w Hlt Hk.
  - assert (Hmid : ((lo + hi) / 2 =? lo) = true)
      by (apply Z.eqb_eq, midpoint_base; simpl in Hk; lia).
    simpl. rewrite Hmid. simpl. f_equal. simpl in Hk. lia.
  - simpl. destruct ((lo + hi) / 2 =? lo) eqn:Hmid.
    + apply Z.eqb_eq in Hmid. simpl. f_equal.
      pose proof (Z.div_mod (lo + hi) 2 ltac:(lia)).
      pose proof (Z.mod_pos_bound (lo + hi) 2 ltac:(lia)). lia.
    + apply Z.eqb_neq in Hmid.
      destruct (midpoint_shrinks lo hi (Z.lt_le_incl _ _ Hlt) Hmid)
        as [Hlo Hhi].
      destruct (midpoint_halves fuel lo hi Hk) as [Hl Hh].
      unfold bind at 1.
      destruct (setChannels_fixture (channelValues c ((lo + hi) / 2)) w)
        as (w1 & -> & Hch).
      unfold bind.
      destruct (getLimitSignal_fixture c ((lo + hi) / 2) w1 Hc) as (w2 & ->).
      { rewrite Hch. apply channelValues_own, Hc. }
      destruct (T c <? (lo + hi) / 2) eqn:Htrip.
      * apply Z.ltb_lt in Htrip. rewrite IH by lia. f_equal. lia.
      * apply Z.ltb_ge in Htrip. rewrite IH by lia. f_equal. lia.
Qed.

(** C1, as amended.  For every channel in 0..3 and every trip signal with a
    threshold [T c] in 0..254 (false at every value up to [T c], true above
    it), [findLimit(c, 0, 255)] resolves to [T c], the value at which the
    signal is false while it is true at the next one, after at most 8
    writes and 8 reads. *)
Theorem findLimit_exact (c fuel : nat) (w : world sim) :
  (c < 4)%nat -> 0 <= T c <= 254 -> (8 <= fuel)%nat ->
  exists evs,
    fst (findLimit (fixture T) fuel c 0 255 w) = Resolved (T c) /\
    wire (snd (findLimit (fixture T) fuel c 0 255 w)) = evs ++ wire w /\
    (writes evs <= 8)%nat /\ (reads evs <= 8)%nat /\
    forall clock,
      threshold T clock c (T c) = false /\
      threshold T clock c (T c + 1) = true.
Proof.
  intros Hc HT Hfuel.
  destruct (findLimit_round_trips (fixture T) c 8 fuel 0 255 w)
    as (evs & Hw & Hwr & Hrd); [lia|simpl; lia|].
  exists evs. repeat split; auto.
  - destruct (findLimit_enough (fixture T) c 8 0 255 w) as (Heq & _);
      [lia|simpl; lia|].
    rewrite (Heq fuel Hfuel), (findLimit_fixture c Hc 8 0 255 w)
      by (simpl; lia).
    f_equal. lia.
  - unfold threshold. apply Z.ltb_irrefl.
  - unfold threshold. apply Z.ltb_lt. lia.
Qed.

End Thresholds.

(** C1, as stated, fails at the top of the range: with a threshold of 255
    the signal is false at every code 0..255, the search returns 254, and
    the signal is not true at 255. *)
Lemma findLimit_threshold_255 :
  fst (findLimit (fixture (table [255; 255; 255; 255])) 8 0 0 255 start)
  = Resolved 254 /\
  threshold (table [255; 255; 255; 255]) 0 0 (254 + 1) = false /\
  ~ (exists v,
       fst (findLimit (fixture (table [255; 255; 255; 255])) 8 0 0 255 start)
       = Resolved v /\
       threshold (table [255; 255; 255; 255]) 0 0 v = false /\
       threshold (table [255; 255; 255; 255]) 0 0 (v + 1) = true).
Proof.
  assert (H : fst (findLimit (fixture (table [255; 255; 255; 255])) 8 0 0 255
                     start) = Resolved 254) by (vm_compute; reflexivity).
  split; [exact H|]. split; [reflexivity|].
  intros (v & Hv & _ & Htrue). rewrite H in Hv. injection Hv as <-.
  vm_compute in Htrue. discriminate.
Qed.

Lemma findLimit_exact_witness :
  (0 < 4)%nat /\ 0 <= table [100; 150; 200; 50] 0 <= 254 /\ (8 <= 8)%nat /\
  exists evs,
    fst (findLimit (fixture (table [100; 150; 200; 50])) 8 0 0 255 start)
    = Resolved (table [100; 150; 200; 50] 0) /\
    wire (snd (findLimit (fixture (table [100; 150; 200; 50])) 8 0 0 255
                 start)) = evs ++ wire start /\
    (writes evs <= 8)%nat /\ (reads evs <= 8)%nat /\
    forall clock,
      threshold (table [100; 150; 200; 50]) clock 0
        (table [100; 150; 200; 50] 0) = false /\
      threshold (table [100; 150; 200; 50]) clock 0
        (table [100; 150; 200; 50] 0 + 1) = true.
Proof.
  assert (H1 : (0 < 4)%nat) by lia.
  assert (H2 : 0 <= table [100; 150; 200; 50] 0 <= 254)
    by (unfold table; simpl; lia).
  assert (H3 : (8 <= 8)%nat) by lia.
  split; [exact H1|]. split; [exact H2|]. split; [exact H3|].
  exact (findLimit_exact (table [100; 150; 200; 50]) 0 8 start H1 H2 H3).
Defined.

(** ** The median *)

Lemma three_digits_in (x : Z) : 100 <= x <= 255 -> In x three_digits.
Proof.
  intros H. unfold three_digits. rewrite <- (Z2Nat.id x) by lia.
  apply in_map, in_seq. lia.
Qed.

Lemma sort_leb_three_digits (x y : Z) :
  100 <= x <= 255 -> 100 <= y <= 255 -> sort_leb x y = (x <=? y).
Proof.
  intros Hx Hy.
  assert (H : forallb (fun a =>
                forallb (fun b => Bool.eqb (sort_leb a b) (a <=? b))
                  three_digits) three_digits = true)
    by (vm_compute; reflexivity).
  rewrite forallb_forall in H.
  specialize (H x (three_digits_in x Hx)).
  rewrite forallb_forall in H.
  apply eqb_prop, H, three_digits_in, Hy.
Qed.

Lemma insert_ascending_range (x : Z) (l : list Z) :
  100 <= x <= 255 -> Forall (fun y => 100 <= y <= 255) l ->
  Forall (fun y => 100 <= y <= 255) (insert_ascending x l).
Proof.
  intros Hx Hl. induction Hl as [|y l Hy Hl IH]; simpl.
  - constructor; [exact Hx|constructor].
  - destruct (x <=? y).
    + constructor; [exact Hx|]. constructor; assumption.
    + constructor; assumption.
Qed.

Lemma sort_insert_three_digits (x : Z) (l : list Z) :
  100 <= x <= 255 -> Forall (fun y => 100 <= y <= 255) l ->
  sort_insert x l = insert_ascending x l.
Proof.
  intros Hx Hl. induction Hl as [|y l Hy Hl IH]; simpl; [reflexivity|].
  rewrite (sort_leb_three_digits x y Hx Hy), IH. reflexivity.
Qed.

(** When every sample has three digits the string order is the numeric
    order, and [median] is the median of the specification. *)
Lemma median_three_digits (a : list Z) :
  Forall (fun y => 100 <= y <= 255) a -> median a = median_spec a.
Proof.
  intros Ha. unfold median, median_spec. f_equal.
  induction Ha as [|x a Hx Ha IH]; simpl; [reflexivity|].
  assert (Hs : Forall (fun y => 100 <= y <= 255) (sort_ascending a)).
  { clear IH. induction Ha as [|y a Hy Ha IH]; simpl; [constructor|].
    apply insert_ascending_range; assumption. }
  rewrite IH. apply sort_insert_three_digits; assumption.
Qed.

(** C2.  The code departs from the claim: the samples 98, 99, 100, 101 and
    102 are sorted as the strings "100", "101", "102", "98", "99", so
    [median] returns 102 where the element at index 2 of the samples in
    ascending numeric order is 100; a five-run calibration whose first
    channel reads these five values returns 102 for it. *)
Theorem median_sorts_as_strings :
  sort [98; 99; 100; 101; 102] = [100; 101; 102; 98; 99] /\
  median [98; 99; 100; 101; 102] = Some 102 /\
  median_spec [98; 99; 100; 101; 102] = Some 100 /\
  fst (calib (sim_device (drifting [98; 99; 100; 101; 102]) no_fault)
         8 5 true start)
  = Resolved [Some 102; Some 150; Some 200; Some 50].
Proof. repeat split; vm_compute; reflexivity. Qed.

(** ** Concrete sessions *)

Lemma findLimit_channel_isolation_witness :
  (2 < 4)%nat /\
  exists evs,
    wire (snd (findLimit (fixture (table [100; 150; 200; 50])) 8 2 0 255
                 start)) = evs ++ wire start /\
    forall arr resp, In (Exchange (PutCtrl arr) resp) evs -> isolated 2 arr.
Proof.
  assert (H : (2 < 4)%nat) by lia.
  split; [exact H|].
  exact (findLimit_channel_isolation (fixture (table [100; 150; 200; 50]))
           8 2 0 255 start H).
Defined.

Lemma calib_aborts_on_error_witness :
  existsb failed (wire (snd broken_run)) = true /\
  (exists r, fst broken_run = Rejected r) /\
  disk (snd broken_run) = disk start /\
  exists e earlier,
    wire (snd broken_run) = e :: earlier /\ failed e = true /\
    existsb failed earlier = false.
Proof.
  assert (H1 : calib (sim_device (threshold (table [100; 150; 200; 50]))
                        (fault_at 10 Unreachable)) 8 1 false start
               = (fst broken_run, snd broken_run))
    by (vm_compute; reflexivity).
  assert (H2 : wire (snd broken_run) = wire (snd broken_run) ++ wire start)
    by (vm_compute; reflexivity).
  assert (H3 : existsb failed (wire (snd broken_run)) = true)
    by (vm_compute; reflexivity).
  split; [exact H3|].
  exact (calib_aborts_on_error _ 8 1 false start (snd broken_run)
           (fst broken_run) (wire (snd broken_run)) H1 H2 H3).
Defined.

(** C9, as stated, fails when the failure is that of the final level
    command: the calibration is rejected after [setLevel(255)] succeeded and
    all runs completed, and [setLevel(0)] has been issued. *)
Lemma calib_abort_in_final_setLevel :
  fst late_failure
  = Rejected (Reason "Internal Server Error: http://192.168.68.112/level") /\
  levels (wire (snd late_failure)) = [0; 255] /\
  (exists resp, In (Exchange (PutLevel 0) resp) (wire (snd late_failure))) /\
  exists x, last (wire (snd late_failure)) (Sleep 0)
            = Exchange (PutLevel 255) (Some x) /\ ok x = true.
Proof.
  split; [vm_compute; reflexivity|].
  split; [vm_compute; reflexivity|].
  split.
  - eexists. vm_compute. left. reflexivity.
  - eexists. vm_compute. split; reflexivity.
Qed.

Lemma calib_abort_leaves_level_witness :
  (exists r e earlier,
     fst broken_run = Rejected r /\
     wire (snd broken_run) = (e :: earlier) ++ wire start /\
     (forall level resp, e <> Exchange (PutLevel level) resp)) /\
  levels (wire (snd broken_run)) = [255] /\
  forall resp, ~ In (Exchange (PutLevel 0) resp) (wire (snd broken_run)).
Proof.
  pose (e := Exchange GetLimit None).
  pose (earlier := tl (wire (snd broken_run))).
  assert (H1 : calib (sim_device (threshold (table [100; 150; 200; 50]))
                        (fault_at 10 Unreachable)) 8 1 false start
               = (Rejected FetchError, snd broken_run))
    by (vm_compute; reflexivity).
  assert (H2 : wire (snd broken_run) = (e :: earlier) ++ wire start)
    by (vm_compute; reflexivity).
  assert (H3 : forall level resp, e <> Exchange (PutLevel level) resp)
    by (intros level resp; discriminate).
  assert (H4 : wire (snd broken_run) = e :: earlier)
    by (vm_compute; reflexivity).
  split.
  - exists FetchError, e, earlier. repeat split; auto.
  - rewrite H4.
    exact (calib_abort_leaves_level _ 8 1 false start (snd broken_run)
             FetchError e earlier H1 H2 H3).
Defined.

(** C3, as stated, fails: after the [long] command on a fresh store the
    LimitSet it computed is persisted under [LIMITS]. *)
Lemma long_persists_limits :
  LIMITS (disk start) = None /\
  fst long_session = Resolved tt /\
  LIMITS (disk (snd long_session))
  = Some [Some 100; Some 150; Some 200; Some 50].
Proof. repeat split; vm_compute; reflexivity. Qed.

Lemma calib_persists_witness :
  calib (fixture (table [100; 150; 200; 50])) 8 100 true start
  = (Resolved [Some 100; Some 150; Some 200; Some 50], snd long_session) /\
  disk (snd long_session)
  = mkStore (Some [Some 100; Some 150; Some 200; Some 50])
      (LEVEL (disk start)) /\
  (100%nat = 100%nat -> true = true ->
   long (fixture (table [100; 150; 200; 50])) 8 start
   = (Resolved tt, snd long_session)).
Proof.
  assert (H : calib (fixture (table [100; 150; 200; 50])) 8 100 true start
              = (Resolved [Some 100; Some 150; Some 200; Some 50],
                 snd long_session))
    by (vm_compute; reflexivity).
  split; [exact H|].
  exact (calib_persists _ 8 100 true start (snd long_session)
           [Some 100; Some 150; Some 200; Some 50] H).
Defined.

(** C4, as stated, fails for a persisted level of 0: level initialization
    sends the level command 255, not 0. *)
Lemma initLevels_level_zero :
  LEVEL (disk level_zero) = Some 0 /\
  levels (wire (snd (initLevels (fixture (table [100; 150; 200; 50]))
                       level_zero))) = [255] /\
  sim_level (dev (snd (initLevels (fixture (table [100; 150; 200; 50]))
                         level_zero))) = 255.
Proof. repeat split; vm_compute; reflexivity. Qed.

Lemma getLimitSignal_missing_field_witness :
  (0 < 4)%nat /\
  silent GetLimit tt
  = (Some (mkResponse true "OK" (request_url GetLimit) (Some (JObj []))), tt) /\
  member (channelKey 0) [] = None /\
  fst (getLimitSignal silent 0 (mkWorld tt (mkStore None None) [] []))
  = Resolved true.
Proof.
  assert (H1 : (0 < 4)%nat) by lia.
  split; [exact H1|]. split; [reflexivity|]. split; [reflexivity|].
  exact (getLimitSignal_missing_field silent 0
           (mkWorld tt (mkStore None None) [] [])
           (mkResponse true "OK" (request_url GetLimit) (Some (JObj []))) tt []
           H1 eq_refl eq_refl eq_refl eq_refl).
Defined.

(** ** Colour scaling *)

(** *** Powers of two and numbers of digits *)

Lemma pow2_pos (j : Z) : 0 <= j -> 0 < 2 ^ j.
Proof. intros. apply Z.pow_pos_nonneg; lia. Qed.

Lemma pow2_le (a b : Z) : 0 <= a <= b -> 2 ^ a <= 2 ^ b.
Proof. intros. apply Z.pow_le_mono_r; lia. Qed.

Lemma digits2_pos_size (p : positive) : digits2_pos p = Pos.size p.
Proof. induction p; simpl; congruence. Qed.

Lemma digits2_bounds (p : positive) :
  2 ^ (Zpos (digits2_pos p) - 1) <= Zpos p < 2 ^ Zpos (digits2_pos p).
Proof.
  rewrite digits2_pos_size. split.
  - pose proof (Pos.size_le p) as H.
    assert (H' : 2 ^ Zpos (Pos.size p) <= 2 * Zpos p).
    { rewrite <- Pos2Z.inj_pow. change (2 * Zpos p) with (Zpos (p~0)).
      apply Pos2Z.pos_le_pos. exact H. }
    replace (Zpos (Pos.size p)) with (Z.succ (Zpos (Pos.size p) - 1)) in H'
      by lia.
    rewrite Z.pow_succ_r in H' by lia. lia.
  - pose proof (Pos.size_gt p) as H.
    rewrite <- Pos2Z.inj_pow. apply Pos2Z.pos_lt_pos. exact H.
Qed.

Lemma digits_log2 (p : positive) :
  Zpos (digits2_pos p) = Z.log2 (Zpos p) + 1.
Proof.
  pose proof (digits2_bounds p) as [H1 H2].
  rewrite (Z.log2_unique (Zpos p) (Zpos (digits2_pos p) - 1)); [lia|lia|].
  split; [exact H1|].
  replace (Z.succ (Zpos (digits2_pos p) - 1)) with (Zpos (digits2_pos p))
    by lia.
  exact H2.
Qed.

Lemma digits_le_53 (m : positive) :
  Zpos m < 2 ^ 53 -> Zpos (digits2_pos m) <= 53.
Proof.
  intros Hm. pose proof (digits2_bounds m) as [H1 _].
  destruct (Z_le_gt_dec (Zpos (digits2_pos m)) 53) as [|Hgt]; [assumption|].
  assert (2 ^ 53 <= 2 ^ (Zpos (digits2_pos m) - 1)) by (apply pow2_le; lia).
  lia.
Qed.

Lemma digits_ge_53 (m : positive) :
  2 ^ 52 <= Zpos m -> 53 <= Zpos (digits2_pos m).
Proof.
  intros Hm. pose proof (digits2_bounds m) as [_ H2].
  destruct (Z_le_gt_dec 53 (Zpos (digits2_pos m))) as [|Hgt]; [assumption|].
  assert (2 ^ Zpos (digits2_pos m) <= 2 ^ 52) by (apply pow2_le; lia).
  lia.
Qed.

Lemma fexp_eq (e : Z) : fexp 53 1024 e = Z.max (e - 53) (-1074).
Proof. reflexivity. Qed.

Lemma bounded_intro (m : positive) (e : Z) :
  -1074 <= e <= 971 -> Zpos m < 2 ^ 53 -> (-1074 < e -> 2 ^ 52 <= Zpos m) ->
  bounded 53 1024 m e = true.
Proof.
  intros He Hm Hn. unfold bounded, canonical_mantissa. rewrite fexp_eq.
  change (1024 - 53) with 971.
  pose proof (digits_le_53 m Hm).
  apply andb_true_intro. split; [apply Z.eqb_eq|apply Z.leb_le; lia].
  destruct (Z.eq_dec e (-1074)) as [->|Hne]; [lia|].
  assert (He' : -1074 < e) by lia.
  pose proof (digits_ge_53 m (Hn He')). lia.
Qed.

Lemma bounded_elim (m : positive) (e : Z) :
  bounded 53 1024 m e = true ->
  -1074 <= e <= 971 /\ Zpos m < 2 ^ 53 /\ (-1074 < e -> 2 ^ 52 <= Zpos m).
Proof.
  unfold bounded, canonical_mantissa. rewrite fexp_eq.
  change (1024 - 53) with 971. intros H.
  apply andb_prop in H. destruct H as [H1 H2].
  apply Z.eqb_eq in H1. apply Z.leb_le in H2.
  pose proof (digits2_bounds m) as [Hd1 Hd2].
  assert (Hd : Zpos (digits2_pos m) <= 53) by lia.
  repeat split; try lia.
  - assert (2 ^ Zpos (digits2_pos m) <= 2 ^ 53) by (apply pow2_le; lia). lia.
  - intros He. replace 52 with (Zpos (digits2_pos m) - 1) by lia. exact Hd1.
Qed.

(** *** Shifting right with round and sticky bits *)

Lemma shifted_start (X : Z) : shifted 0 X (Build_shr_record X false false).
Proof.
  unfold shifted. simpl. rewrite Z.div_1_r, Z.mod_1_r. auto.
Qed.

Lemma shifted_step (j X : Z) (rec : shr_record) :
  0 <= j -> 0 <= X -> shifted j X rec -> shifted (j + 1) X (shr_1 rec).
Proof.
  intros Hj HX (Hm & Hr & Hs).
  pose proof (pow2_pos j Hj) as Hp.
  assert (Hpow : 2 ^ (j + 1) = 2 * 2 ^ j) by (rewrite Z.pow_add_r by lia; lia).
  assert (Ht : 0 <= X mod 2 ^ j < 2 ^ j) by (apply Z.mod_pos_bound; lia).
  assert (Hq : 0 <= X / 2 ^ j) by (apply Z.div_pos; lia).
  assert (Hdiv : X / 2 ^ (j + 1) = X / 2 ^ j / 2).
  { rewrite Hpow. rewrite Z.mul_comm, Z.div_div by lia. reflexivity. }
  assert (Hmod : X mod 2 ^ (j + 1)
                 = 2 ^ j * ((X / 2 ^ j) mod 2) + X mod 2 ^ j).
  { rewrite Hpow. rewrite Z.mul_comm. rewrite Z.rem_mul_r by lia. lia. }
  revert Hm Hr Hs Hdiv Hmod Hq Ht.
  generalize (X / 2 ^ j) (X mod 2 ^ j). intros q t.
  unfold shifted. intros Hm Hr Hs -> -> Hq Ht. rewrite Hpow.
  destruct rec as [m r s]. cbn [shr_m shr_r shr_s] in *. subst m.
  assert (Hrs : orb r s = negb (t =? 0)).
  { subst r s. destruct (Z.leb_spec (2 ^ j) (2 * t)); cbn [orb].
    - destruct (Z.eqb_spec t 0); [lia|reflexivity].
    - rewrite Z.sub_0_r.
      destruct (Z.eqb_spec (2 * t) 0), (Z.eqb_spec t 0); try lia;
        reflexivity. }
  assert (Hcase : forall b : bool, q mod 2 = (if b then 1 else 0) ->
            (2 * 2 ^ j <=? 2 * (2 ^ j * (q mod 2) + t)) = b /\
            negb (2 * (2 ^ j * (q mod 2) + t)
                  - (if b then 2 * 2 ^ j else 0) =? 0)
            = negb (t =? 0)).
  { intros b Hb. rewrite Hb. destruct b; split.
    - apply Z.leb_le. lia.
    - f_equal.
      destruct (Z.eqb_spec t 0),
        (Z.eqb_spec (2 * (2 ^ j * 1 + t) - 2 * 2 ^ j) 0);
        try lia; reflexivity.
    - apply Z.leb_gt. lia.
    - f_equal.
      destruct (Z.eqb_spec t 0), (Z.eqb_spec (2 * (2 ^ j * 0 + t) - 0) 0);
        try lia; reflexivity. }
  destruct q as [|[p|p|]|p]; try lia; cbn [shr_1 orb].
  - destruct (Hcase false eq_refl) as [H1 H2].
    cbn [shr_m shr_r shr_s]. rewrite H1, Hrs. auto.
  - destruct (Hcase true) as [H1 H2].
    { rewrite Pos2Z.inj_xI, Z.add_comm, Z.mul_comm, Z.mod_add by lia.
      reflexivity. }
    cbn [shr_m shr_r shr_s]. rewrite H1, Hrs. repeat split; auto.
    rewrite Pos2Z.inj_xI, Z.add_comm, Z.mul_comm, Z.div_add by lia.
    reflexivity.
  - destruct (Hcase false) as [H1 H2].
    { rewrite Pos2Z.inj_xO, Z.mul_comm, Z.mod_mul by lia. reflexivity. }
    cbn [shr_m shr_r shr_s]. rewrite H1, Hrs. repeat split; auto.
    rewrite Pos2Z.inj_xO, Z.mul_comm, Z.div_mul by lia. reflexivity.
  - destruct (Hcase true eq_refl) as [H1 H2].
    cbn [shr_m shr_r shr_s]. rewrite H1, Hrs. auto.
Qed.

Lemma shifted_iter (p : positive) :
  forall (j X : Z) (rec : shr_record),
    0 <= j -> 0 <= X -> shifted j X rec ->
    shifted (j + Zpos p) X (iter_pos shr_1 p rec).
Proof.
  induction p as [p IH|p IH|]; intros j X rec Hj HX H; simpl.
  - replace (j + Zpos p~1) with (j + 1 + Zpos p + Zpos p) by lia.
    apply IH; try lia. apply IH; try lia. apply shifted_step; auto.
  - replace (j + Zpos p~0) with (j + Zpos p + Zpos p) by lia.
    apply IH; try lia. apply IH; auto.
  - apply shifted_step; auto.
Qed.

Lemma shifted_round (j X : Z) (rec : shr_record) :
  0 <= j -> shifted j X rec ->
  round_nearest_even (shr_m rec) (loc_of_shr_record rec) = rne X j.
Proof.
  intros Hj (Hm & Hr & Hs). pose proof (pow2_pos j Hj) as Hp.
  assert (Ht : 0 <= X mod 2 ^ j < 2 ^ j) by (apply Z.mod_pos_bound; lia).
  destruct rec as [m r s]. cbn [shr_m shr_r shr_s] in *. subst m. unfold rne.
  cbn [loc_of_shr_record shr_m].
  set (q := X / 2 ^ j) in *. set (t := X mod 2 ^ j) in *.
  destruct r; symmetry in Hr.
  - apply Z.leb_le in Hr.
    assert (E1 : (2 * t <? 2 ^ j) = false) by (apply Z.ltb_ge; lia).
    rewrite E1. destruct s; symmetry in Hs.
    + apply negb_true_iff, Z.eqb_neq in Hs.
      assert (E2 : (2 ^ j <? 2 * t) = true) by (apply Z.ltb_lt; lia).
      rewrite E2. reflexivity.
    + apply negb_false_iff, Z.eqb_eq in Hs.
      assert (E2 : (2 ^ j <? 2 * t) = false) by (apply Z.ltb_ge; lia).
      rewrite E2. reflexivity.
  - apply Z.leb_gt in Hr.
    assert (E1 : (2 * t <? 2 ^ j) = true) by (apply Z.ltb_lt; lia).
    rewrite E1. destruct s; reflexivity.
Qed.

(** *** Rounding to nearest is monotone *)

Lemma rne_cases (X n : Z) :
  0 <= n ->
  exists q t,
    X = 2 ^ n * q + t /\ 0 <= t < 2 ^ n /\
    (rne X n = q \/ rne X n = q + 1) /\
    (2 * t < 2 ^ n -> rne X n = q) /\
    (2 ^ n < 2 * t -> rne X n = q + 1) /\
    (2 * t = 2 ^ n -> rne X n = if Z.even q then q else q + 1).
Proof.
  intros Hn. pose proof (pow2_pos n Hn) as Hp.
  exists (X / 2 ^ n), (X mod 2 ^ n).
  split; [apply Z.div_mod; lia|].
  split; [apply Z.mod_pos_bound; lia|].
  unfold rne.
  destruct (Z.ltb_spec (2 * (X mod 2 ^ n)) (2 ^ n));
    destruct (Z.ltb_spec (2 ^ n) (2 * (X mod 2 ^ n)));
    destruct (Z.even (X / 2 ^ n)); repeat split; auto; intros; lia.
Qed.

Lemma rne_mono (X1 X2 n : Z) :
  0 <= n -> X1 <= X2 -> rne X1 n <= rne X2 n.
Proof.
  intros Hn HX. pose proof (pow2_pos n Hn) as Hp.
  destruct (rne_cases X1 n Hn) as (q1 & t1 & E1 & B1 & C1 & L1 & G1 & T1).
  destruct (rne_cases X2 n Hn) as (q2 & t2 & E2 & B2 & C2 & L2 & G2 & T2).
  assert (Hq : q1 <= q2) by nia.
  destruct (Z.eq_dec q1 q2) as [->|Hne]; [|lia].
  assert (Ht : t1 <= t2) by lia.
  destruct (Z.lt_trichotomy (2 * t1) (2 ^ n)) as [H1|[H1|H1]];
    destruct (Z.lt_trichotomy (2 * t2) (2 ^ n)) as [H2|[H2|H2]];
    try lia;
    try rewrite (L1 H1); try rewrite (L2 H2);
    try rewrite (G1 H1); try rewrite (G2 H2);
    try rewrite (T1 H1); try rewrite (T2 H2);
    destruct (Z.even q2); lia.
Qed.

Lemma rne_lower (X n c : Z) : 0 <= n -> c * 2 ^ n <= X -> c <= rne X n.
Proof.
  intros Hn HX. pose proof (pow2_pos n Hn) as Hp.
  destruct (rne_cases X n Hn) as (q & t & E & B & C & _).
  assert (c <= q) by nia. lia.
Qed.

Lemma rne_upper (X n c : Z) : 0 <= n -> X <= c * 2 ^ n -> rne X n <= c.
Proof.
  intros Hn HX. pose proof (pow2_pos n Hn) as Hp.
  destruct (rne_cases X n Hn) as (q & t & E & B & C & L & _).
  destruct (Z.eq_dec t 0) as [->|Ht].
  - rewrite L by lia. nia.
  - assert (q < c) by nia. lia.
Qed.

Lemma rne_nonneg (X n : Z) : 0 <= n -> 0 <= X -> 0 <= rne X n.
Proof. intros Hn HX. apply rne_lower; auto. Qed.

Lemma rne_scale (X n d : Z) :
  0 <= n -> 0 <= d -> rne (X * 2 ^ d) (n + d) = rne X n.
Proof.
  intros Hn Hd. pose proof (pow2_pos n Hn) as Hp.
  pose proof (pow2_pos d Hd) as Hpd.
  unfold rne. rewrite Z.pow_add_r by lia.
  rewrite Z.div_mul_cancel_r by lia.
  rewrite Z.mul_mod_distr_r by lia.
  set (q := X / 2 ^ n). set (t := X mod 2 ^ n).
  destruct (Z.ltb_spec (2 * (t * 2 ^ d)) (2 ^ n * 2 ^ d));
    destruct (Z.ltb_spec (2 * t) (2 ^ n)); try nia; try reflexivity.
  destruct (Z.ltb_spec (2 ^ n * 2 ^ d) (2 * (t * 2 ^ d)));
    destruct (Z.ltb_spec (2 ^ n) (2 * t)); try nia; reflexivity.
Qed.

Lemma round_shift_min (U : Z) : 52 <= round_shift U.
Proof. unfold round_shift. lia. Qed.

Lemma rounded_zero : rounded 0 = 0.
Proof. reflexivity. Qed.

Lemma rounded_nonneg (U : Z) : 0 <= U -> 0 <= rounded U.
Proof.
  intros HU. unfold rounded. pose proof (round_shift_min U).
  apply Z.mul_nonneg_nonneg.
  - apply rne_nonneg; lia.
  - apply Z.pow_nonneg. lia.
Qed.

(** A larger value rounds to a larger value, also across binades: the
    power of two between them is a number of both grids. *)
Lemma rounded_mono (U1 U2 : Z) : 0 <= U1 <= U2 -> rounded U1 <= rounded U2.
Proof.
  intros [H0 HU].
  destruct (Z.eq_dec U1 0) as [->|Hne].
  { rewrite rounded_zero. apply rounded_nonneg. lia. }
  assert (Hlog : Z.log2 U1 <= Z.log2 U2) by (apply Z.log2_le_mono; exact HU).
  pose proof (round_shift_min U1) as Hn1.
  pose proof (round_shift_min U2) as Hn2.
  unfold rounded.
  destruct (Z.eq_dec (round_shift U1) (round_shift U2)) as [Heq|Hn].
  - rewrite Heq. apply Z.mul_le_mono_nonneg_r.
    + apply Z.pow_nonneg; lia.
    + apply rne_mono; lia.
  - assert (Hlt : round_shift U1 < round_shift U2)
      by (unfold round_shift in *; lia).
    assert (Hn2' : round_shift U2 = Z.log2 U2 - 52)
      by (unfold round_shift in *; lia).
    assert (Hl : Z.log2 U1 < Z.log2 U2) by (unfold round_shift in *; lia).
    assert (HU1 : 0 < U1) by lia.
    assert (HU2 : 0 < U2) by lia.
    pose proof (Z.log2_spec U1 HU1) as [_ Hs1].
    pose proof (Z.log2_spec U2 HU2) as [Hs2 _].
    pose proof (Z.log2_nonneg U1) as Hl1.
    assert (Hb : 2 ^ Z.succ (Z.log2 U1) <= 2 ^ Z.log2 U2)
      by (apply Z.pow_le_mono_r; lia).
    apply Z.le_trans with (2 ^ Z.log2 U2).
    + replace (2 ^ Z.log2 U2)
        with (2 ^ (Z.log2 U2 - round_shift U1) * 2 ^ round_shift U1)
        by (rewrite <- Z.pow_add_r by lia; f_equal; lia).
      apply Z.mul_le_mono_nonneg_r; [apply Z.pow_nonneg; lia|].
      apply rne_upper; [lia|].
      rewrite <- Z.pow_add_r by lia.
      replace (Z.log2 U2 - round_shift U1 + round_shift U1)
        with (Z.log2 U2) by lia.
      lia.
    + replace (2 ^ Z.log2 U2) with (2 ^ 52 * 2 ^ round_shift U2)
        by (rewrite <- Z.pow_add_r by lia; f_equal; lia).
      apply Z.mul_le_mono_nonneg_r; [apply Z.pow_nonneg; lia|].
      apply rne_lower; [lia|].
      rewrite <- Z.pow_add_r by lia.
      replace (52 + round_shift U2) with (Z.log2 U2) by lia. exact Hs2.
Qed.

(** *** The product of two numbers *)

Lemma first_shift (P : positive) (E : Z) :
  0 < fexp 53 1024 (Zpos (digits2_pos P) + E) - E ->
  exists mrs,
    shr_fexp 53 1024 (Zpos P) E loc_Exact
    = (mrs, fexp 53 1024 (Zpos (digits2_pos P) + E)) /\
    round_nearest_even (shr_m mrs) (loc_of_shr_record mrs)
    = rne (Zpos P) (fexp 53 1024 (Zpos (digits2_pos P) + E) - E).
Proof.
  intros Hn. unfold shr_fexp. cbn [Zdigits2 shr_record_of_loc].
  set (e' := fexp 53 1024 (Zpos (digits2_pos P) + E)) in *.
  destruct (e' - E) as [|p|p] eqn:Hp; try lia.
  unfold shr. eexists. split.
  - f_equal. lia.
  - apply shifted_round; [lia|].
    apply (shifted_iter p 0 (Zpos P)); try lia. apply shifted_start.
Qed.

Lemma second_shift (m2 e' : Z) :
  0 <= m2 <= 2 ^ 53 -> -1074 <= e' ->
  exists mrs e'',
    shr_fexp 53 1024 m2 e' loc_Exact = (mrs, e'') /\
    ((m2 < 2 ^ 53 /\ shr_m mrs = m2 /\ e'' = e') \/
     (m2 = 2 ^ 53 /\ shr_m mrs = 2 ^ 52 /\ e'' = e' + 1)).
Proof.
  intros Hm He. unfold shr_fexp. cbn [shr_record_of_loc]. rewrite fexp_eq.
  destruct (Z.eq_dec m2 (2 ^ 53)) as [->|Hne].
  - change (Zdigits2 (2 ^ 53)) with 54.
    replace (Z.max (54 + e' - 53) (-1074) - e') with 1 by lia.
    eexists. eexists. split; [reflexivity|]. right. repeat split.
  - assert (Hd : Zdigits2 m2 <= 53).
    { destruct m2 as [|p|p]; cbn [Zdigits2]; try lia.
      apply digits_le_53. lia. }
    destruct (Z.max (Zdigits2 m2 + e' - 53) (-1074) - e') as [|p|p] eqn:Hp;
      try lia; unfold shr; eexists; eexists; (split; [reflexivity|]);
      left; repeat split; lia.
Qed.

Lemma rounded_product (P : positive) (E : Z) :
  base <= E ->
  0 <= fexp 53 1024 (Zpos (digits2_pos P) + E) - E ->
  rounded (Zpos P * 2 ^ (E - base))
  = rne (Zpos P) (fexp 53 1024 (Zpos (digits2_pos P) + E) - E)
    * 2 ^ (fexp 53 1024 (Zpos (digits2_pos P) + E) - base).
Proof.
  intros Hb Hn. unfold rounded.
  assert (Hs : round_shift (Zpos P * 2 ^ (E - base))
               = fexp 53 1024 (Zpos (digits2_pos P) + E) - base).
  { unfold round_shift. rewrite Z.log2_mul_pow2 by lia.
    rewrite fexp_eq, digits_log2. unfold base. lia. }
  rewrite Hs. f_equal.
  replace (fexp 53 1024 (Zpos (digits2_pos P) + E) - base)
    with (fexp 53 1024 (Zpos (digits2_pos P) + E) - E + (E - base)) by lia.
  apply rne_scale; lia.
Qed.

(** [binary_round_aux] rounds the value [P * 2 ^ E] to nearest. *)
Lemma round_aux_spec (P : positive) (E : Z) :
  base <= E ->
  0 < fexp 53 1024 (Zpos (digits2_pos P) + E) - E ->
  rounds_to (Zpos P * 2 ^ (E - base))
    (binary_round_aux 53 1024 false (Zpos P) E loc_Exact).
Proof.
  intros Hb Hn. unfold binary_round_aux.
  destruct (first_shift P E Hn) as (mrs1 & -> & ->).
  assert (Hn0 : 0 <= fexp 53 1024 (Zpos (digits2_pos P) + E) - E) by lia.
  pose proof (rounded_product P E Hb Hn0) as HW. clear Hn0.
  pose proof (digits2_bounds P) as [Hd1 Hd2].
  revert Hn HW. rewrite fexp_eq.
  set (d := Zpos (digits2_pos P)) in *.
  set (e' := Z.max (d + E - 53) (-1074)).
  set (U := Zpos P * 2 ^ (E - base)).
  intros Hn HW.
  assert (Hm2 : 0 <= rne (Zpos P) (e' - E) <= 2 ^ 53).
  { split; [apply rne_nonneg; lia|].
    apply rne_upper; [lia|]. rewrite <- Z.pow_add_r by lia.
    assert (2 ^ d <= 2 ^ (53 + (e' - E))) by (apply pow2_le; lia). lia. }
  assert (Hnorm : -1074 < e' -> 2 ^ 52 <= rne (Zpos P) (e' - E)).
  { intros He. apply rne_lower; [lia|]. rewrite <- Z.pow_add_r by lia.
    replace (52 + (e' - E)) with (d - 1) by lia. exact Hd1. }
  set (m2 := rne (Zpos P) (e' - E)) in *.
  assert (Hx : 0 < 2 ^ (e' - base)) by (apply pow2_pos; unfold base; lia).
  assert (He' : -1074 <= e') by lia.
  destruct (second_shift m2 e' Hm2 He')
    as (mrs2 & e'' & -> & [(Hlt & -> & ->)|(Heq & -> & ->)]).
  - destruct m2 as [|m|m] eqn:Em; try lia.
    + apply rounds_zero. lia.
    + change (1024 - 53) with 971.
      destruct (Z.leb_spec e' 971) as [Hle|Hgt].
      * apply rounds_finite; [apply bounded_intro; lia|congruence|].
        rewrite HW.
        assert (2 ^ (e' - base) <= 2 ^ (971 - base))
          by (apply pow2_le; unfold base; lia).
        assert (Ho : overflow = 2 ^ 53 * 2 ^ (971 - base)) by reflexivity.
        rewrite Ho. nia.
      * apply rounds_infinity. rewrite HW.
        assert (2 ^ (972 - base) <= 2 ^ (e' - base))
          by (apply pow2_le; unfold base; lia).
        assert (Ho : overflow = 2 ^ 52 * 2 ^ (972 - base)) by reflexivity.
        rewrite Ho.
        assert (He1 : -1074 < e') by lia. specialize (Hnorm He1). nia.
  - change (2 ^ 52) with (Zpos 4503599627370496).
    change (1024 - 53) with 971.
    assert (Hs : 2 ^ (e' + 1 - base) = 2 * 2 ^ (e' - base)).
    { replace (e' + 1 - base) with (Z.succ (e' - base)) by lia.
      apply Z.pow_succ_r. unfold base. lia. }
    destruct (Z.leb_spec (e' + 1) 971) as [Hle|Hgt].
    + apply rounds_finite;
        [apply bounded_intro; [lia|reflexivity|intros _; reflexivity]| |];
        rewrite HW, Heq.
      * rewrite Hs. change (Zpos 4503599627370496) with (2 ^ 52).
        change (2 ^ 53) with (2 * 2 ^ 52). lia.
      * assert (2 ^ (e' - base) <= 2 ^ (970 - base))
          by (apply pow2_le; unfold base; lia).
        assert (Ho : overflow = 2 ^ 54 * 2 ^ (970 - base)) by reflexivity.
        rewrite Ho. nia.
    + apply rounds_infinity. rewrite HW, Heq.
      assert (2 ^ (971 - base) <= 2 ^ (e' - base))
        by (apply pow2_le; unfold base; lia).
      assert (Ho : overflow = 2 ^ 53 * 2 ^ (971 - base)) by reflexivity.
      rewrite Ho. nia.
Qed.

(** *** Integers as numbers *)

Lemma iter_xO (p d : positive) : Zpos (Pos.iter xO p d) = Zpos p * 2 ^ Zpos d.
Proof.
  induction d as [|d IH] using Pos.peano_ind.
  - simpl. lia.
  - rewrite Pos.iter_succ, Pos2Z.inj_xO, IH, Pos2Z.inj_succ,
      Z.pow_succ_r by lia. lia.
Qed.

Lemma no_shift (m : positive) (e : Z) :
  Zpos (digits2_pos m) = 53 -> -1074 <= e <= 971 ->
  binary_round_aux 53 1024 false (Zpos m) e loc_Exact = S754_finite false m e.
Proof.
  intros Hd He. unfold binary_round_aux, shr_fexp.
  cbn [Zdigits2 shr_record_of_loc]. rewrite Hd, fexp_eq.
  replace (Z.max (53 + e - 53) (-1074) - e) with 0 by lia.
  cbn [shr shr_m loc_of_shr_record round_nearest_even Zdigits2].
  rewrite Hd, fexp_eq.
  replace (Z.max (53 + e - 53) (-1074) - e) with 0 by lia.
  cbn [shr shr_m]. change (1024 - 53) with 971.
  destruct (Z.leb_spec e 971); [reflexivity|lia].
Qed.

(** A positive integer below [2 ^ 53] is a number, exactly. *)
Lemma of_int_spec (p : positive) :
  Zpos p < 2 ^ 53 ->
  exists m e,
    of_int (Zpos p) = S754_finite false m e /\
    -52 <= e <= 0 /\
    Zpos (digits2_pos m) = 53 /\
    Zpos m = Zpos p * 2 ^ (- e) /\
    e = Z.log2 (Zpos p) - 52.
Proof.
  intros Hp. unfold of_int, binary_normalize, binary_round, shl_align.
  pose proof (digits_le_53 p Hp) as Hd.
  rewrite fexp_eq.
  replace (Z.max (Zpos (digits2_pos p) + 0 - 53) (-1074) - 0)
    with (Zpos (digits2_pos p) - 53) by lia.
  pose proof (digits_log2 p) as Hlog.
  destruct (Zpos (digits2_pos p) - 53) as [|d|d] eqn:Ed; try lia.
  - exists p, 0. rewrite no_shift by lia.
    repeat split; try lia.
  - exists (Pos.iter xO p d), (Zpos (digits2_pos p) - 53).
    assert (Hv : Zpos (Pos.iter xO p d) = Zpos p * 2 ^ Zpos d)
      by apply iter_xO.
    assert (Hdig : Zpos (digits2_pos (Pos.iter xO p d)) = 53).
    { rewrite digits_log2, Hv, Z.log2_mul_pow2 by lia. lia. }
    replace (Z.max (Zpos (digits2_pos p) + 0 - 53) (-1074))
      with (Zpos (digits2_pos p) - 53) by lia.
    rewrite no_shift by lia.
    repeat split; try lia.
    rewrite Hv. f_equal. f_equal. lia.
Qed.

(** *** The floor of a rounded value *)

Lemma floor_integer (U : Z) (r : number) :
  rounds_to U r ->
  integer_of
    (if rounded U <? overflow then Some (rounded U / 2 ^ (- base)) else None)
    (Math_floor r).
Proof.
  intros [s HW|m e Hb HW Ho|Ho]; cbn [Math_floor].
  - rewrite HW. change (0 <? overflow) with true. cbv beta iota.
    rewrite Z.div_0_l by (unfold base; lia). apply integer_zero.
  - destruct (Z.ltb_spec (rounded U) overflow) as [_|]; [|lia].
    rewrite <- HW.
    destruct (bounded_elim m e Hb) as (He & Hm & _).
    destruct (Z.leb_spec 0 e) as [Hpos|Hneg].
    + apply integer_finite; [exact Hb|lia|].
      assert (Hq : Zpos m * 2 ^ (e - base) / 2 ^ (- base) = Zpos m * 2 ^ e).
      { replace (e - base) with (e + (- base)) by lia.
        rewrite Z.pow_add_r, Z.mul_assoc by (unfold base; lia).
        apply Z.div_mul. apply Z.pow_nonzero; unfold base; lia. }
      rewrite Hq, Z.pow_add_r by lia. lia.
    + cbn [cond_Zopp].
      assert (Hq : Zpos m * 2 ^ (e - base) / 2 ^ (- base)
                   = Zpos m / 2 ^ (- e)).
      { replace (- base) with (- e + (e - base)) by lia.
        rewrite (Z.pow_add_r 2 (- e)) by (unfold base; lia).
        apply Z.div_mul_cancel_r; apply Z.pow_nonzero; unfold base; lia. }
      rewrite Hq.
      assert (Hp : 0 < 2 ^ (- e)) by (apply pow2_pos; lia).
      assert (Hq0 : 0 <= Zpos m / 2 ^ (- e) <= Zpos m).
      { split; [apply Z.div_pos; lia|].
        apply Z.div_le_upper_bound; [exact Hp|]. nia. }
      destruct (Zpos m / 2 ^ (- e)) as [|q|q] eqn:Eq; try lia.
      * apply integer_zero.
      * assert (Hq53 : Zpos q < 2 ^ 53) by lia.
        destruct (of_int_spec q Hq53) as (m' & e' & -> & He' & Hd' & Hv & _).
        pose proof (digits2_bounds m') as [Hb1 Hb2]. rewrite Hd' in Hb1, Hb2.
        apply integer_finite.
        -- apply bounded_intro; [lia|exact Hb2|intros _; exact Hb1].
        -- lia.
        -- rewrite Hv, <- Z.mul_assoc.
           rewrite <- Z.pow_add_r by lia. f_equal. f_equal. lia.
  - destruct (Z.ltb_spec (rounded U) overflow) as [|_]; [lia|].
    apply integer_infinity.
Qed.

Lemma integer_of_valid (v : option Z) (r : number) :
  integer_of v r -> valid_binary 53 1024 r = true.
Proof. intros [s|m e F Hb _ _|]; auto. Qed.

Lemma integer_of_leb (v1 v2 : option Z) (r1 r2 : number) :
  integer_of v1 r1 -> integer_of v2 r2 -> opt_le v1 v2 ->
  number_leb r1 r2 = true.
Proof.
  intros [s1|m1 e1 F1 Hb1 He1 Hv1|] [s2|m2 e2 F2 Hb2 He2 Hv2|];
    cbn [number_leb cond_Zopp opt_le negb]; try tauto;
    try reflexivity.
  - intros [H0 H]. assert (0 < 2 ^ (e1 + 53)) by (apply pow2_pos; lia). nia.
  - intros [H0 H]. apply Z.leb_le.
    set (e := Z.min e1 e2).
    assert (Hs : forall a, e <= a ->
                 2 ^ (a + 53) = 2 ^ (a - e) * 2 ^ (e + 53)).
    { intros a Ha. rewrite <- Z.pow_add_r by lia. f_equal. lia. }
    rewrite (Hs e1) in Hv1 by lia. rewrite (Hs e2) in Hv2 by lia.
    assert (HB : 0 < 2 ^ (e + 53)) by (apply pow2_pos; lia).
    apply (Z.mul_le_mono_pos_r _ _ _ HB).
    rewrite <- !Z.mul_assoc, Hv1, Hv2.
    apply Z.mul_le_mono_nonneg_r; lia.
Qed.

(** *** The order of values is the order of numbers *)

(** Two valid positive numbers are ordered by exponent, then mantissa. *)
Lemma valid_order (m1 m2 : positive) (e1 e2 : Z) :
  bounded 53 1024 m1 e1 = true -> bounded 53 1024 m2 e2 = true ->
  (Zpos m1 * 2 ^ (e1 - Z.min e1 e2) <=? Zpos m2 * 2 ^ (e2 - Z.min e1 e2))
  = match e1 ?= e2 with
    | Lt => true
    | Gt => false
    | Eq => (Zpos m1 <=? Zpos m2)
    end.
Proof.
  intros B1 B2.
  destruct (bounded_elim _ _ B1) as (He1 & Hm1 & Hn1).
  destruct (bounded_elim _ _ B2) as (He2 & Hm2 & Hn2).
  destruct (Z.compare_spec e1 e2) as [->|Hlt|Hgt].
  - rewrite Z.min_id, Z.sub_diag. change (2 ^ 0) with 1. rewrite !Z.mul_1_r.
    reflexivity.
  - rewrite Z.min_l, Z.sub_diag by lia. change (2 ^ 0) with 1.
    rewrite Z.mul_1_r. apply Z.leb_le.
    assert (2 ^ 1 <= 2 ^ (e2 - e1)) by (apply pow2_le; lia).
    assert (He : -1074 < e2) by lia. specialize (Hn2 He).
    change (2 ^ 1) with 2 in *. nia.
  - rewrite Z.min_r, Z.sub_diag by lia. change (2 ^ 0) with 1.
    rewrite Z.mul_1_r. apply Z.leb_gt.
    assert (2 ^ 1 <= 2 ^ (e1 - e2)) by (apply pow2_le; lia).
    assert (He : -1074 < e1) by lia. specialize (Hn1 He).
    change (2 ^ 1) with 2 in *. nia.
Qed.

Lemma compare_cont_leb (m1 m2 : positive) :
  match Pos.compare_cont Eq m1 m2 with Gt => false | _ => true end
  = (Zpos m1 <=? Zpos m2).
Proof.
  unfold Z.leb. cbn [Z.compare]. unfold Pos.compare.
  destruct (Pos.compare_cont Eq m1 m2); reflexivity.
Qed.

(** On valid numbers [<=] of the Standard Library is the order of the
    values. *)
Lemma SFleb_number_leb (a b : number) :
  valid_binary 53 1024 a = true -> valid_binary 53 1024 b = true ->
  SFleb a b = number_leb a b.
Proof.
  destruct a as [sa|sa| |sa ma ea], b as [sb|sb| |sb mb eb];
    cbn [valid_binary]; intros Va Vb; unfold SFleb; cbn [SFcompare number_leb];
    try reflexivity;
    try (destruct sa; reflexivity); try (destruct sb; reflexivity);
    try (destruct sa, sb; reflexivity).
  destruct sa, sb; cbn [cond_Zopp].
  - pose proof (valid_order mb ma eb ea Vb Va) as H.
    rewrite (Z.min_comm ea eb).
    assert (Hopp : forall x y, (- x <=? - y) = (y <=? x)).
    { intros x y. destruct (Z.leb_spec (- x) (- y)), (Z.leb_spec y x);
        try lia; reflexivity. }
    rewrite !Z.mul_opp_l, Hopp, H, (Z.compare_antisym ea eb).
    destruct (ea ?= eb); cbn [CompOpp]; try reflexivity.
    rewrite <- compare_cont_leb.
    change (Pos.compare_cont Eq ma mb) with (Pos.compare ma mb).
    change (Pos.compare_cont Eq mb ma) with (Pos.compare mb ma).
    rewrite (Pos.compare_antisym ma mb).
    destruct (ma ?= mb)%positive; reflexivity.
  - symmetry. apply Z.leb_le.
    assert (0 < 2 ^ (ea - Z.min ea eb)) by (apply pow2_pos; lia).
    assert (0 < 2 ^ (eb - Z.min ea eb)) by (apply pow2_pos; lia). nia.
  - symmetry. apply Z.leb_gt.
    assert (0 < 2 ^ (ea - Z.min ea eb)) by (apply pow2_pos; lia).
    assert (0 < 2 ^ (eb - Z.min ea eb)) by (apply pow2_pos; lia). nia.
  - rewrite (valid_order ma mb ea eb Va Vb).
    destruct (ea ?= eb); try reflexivity; apply compare_cont_leb.
Qed.

Lemma SFltb_SFleb (a b : number) : SFltb a b = true -> SFleb a b = true.
Proof.
  unfold SFltb, SFleb. destruct (SFcompare a b) as [[| |]|]; auto.
Qed.

Lemma fraction_valid (k : number) :
  fraction k = true -> valid_binary 53 1024 k = true.
Proof. destruct k; auto. Qed.

(** *** Scaling a channel limit *)

Lemma scaled_mono (k1 k2 : number) :
  fraction k1 = true -> fraction k2 = true ->
  number_leb (S754_zero false) k1 = true -> number_leb k1 k2 = true ->
  0 <= scaled k1 <= scaled k2 /\ number_leb (S754_zero false) k2 = true.
Proof.
  destruct k1 as [s1|s1| |s1 m1 e1]; try discriminate;
    destruct k2 as [s2|s2| |s2 m2 e2]; try discriminate;
    intros F1 F2; cbn [number_leb scaled cond_Zopp negb].
  - intros _ _. split; [lia|reflexivity].
  - intros _ H. destruct s2; [discriminate|].
    destruct (bounded_elim _ _ F2) as [He _].
    assert (0 < 2 ^ (e2 + 1074)) by (apply pow2_pos; lia).
    split; [lia|reflexivity].
  - intros H1 H2. destruct s1; discriminate.
  - intros H1 H2. destruct s1; [discriminate|].
    destruct (bounded_elim _ _ F1) as [He1 _].
    destruct (bounded_elim _ _ F2) as [He2 _].
    apply Z.leb_le in H2. cbn [cond_Zopp] in H2.
    set (e := Z.min e1 e2) in *.
    assert (Hp1 : 0 < 2 ^ (e1 - e)) by (apply pow2_pos; lia).
    assert (Hp2 : 0 < 2 ^ (e2 - e)) by (apply pow2_pos; lia).
    destruct s2; cbn [cond_Zopp negb] in *; [lia|].
    split; [|reflexivity].
    assert (Hs : forall a, e <= a ->
                 2 ^ (a + 1074) = 2 ^ (a - e) * 2 ^ (e + 1074)).
    { intros a Ha. rewrite <- Z.pow_add_r by lia. f_equal. lia. }
    rewrite (Hs e1), (Hs e2) by lia.
    assert (0 < 2 ^ (e + 1074)) by (apply pow2_pos; lia).
    split; [lia|].
    rewrite !Z.mul_assoc. apply Z.mul_le_mono_nonneg_r; lia.
Qed.

(** The product of a non-negative fraction and a channel limit is their
    exact product, rounded. *)
Lemma mul_spec (k : number) (z : Z) :
  fraction k = true -> number_leb (S754_zero false) k = true ->
  0 <= z <= 255 ->
  rounds_to (scaled k * (z * 2 ^ 52)) (number_mul k (of_int z)).
Proof.
  intros Fk Hk Hz. destruct z as [|p|p]; try lia.
  - replace (scaled k * (0 * 2 ^ 52)) with 0 by lia.
    change (of_int 0) with (S754_zero false).
    destruct k as [s|s| |s m e]; try discriminate;
      apply rounds_zero, rounded_zero.
  - assert (Hp : Zpos p < 2 ^ 53) by lia.
    destruct (of_int_spec p Hp) as (my & ey & -> & Hey & Hdy & Hvy & Hlog).
    assert (Hl : Z.log2 (Zpos p) < 8) by (apply Z.log2_lt_pow2; lia).
    destruct k as [s|s| |s mk ek]; try discriminate.
    + cbn [number_mul SFmul scaled].
      replace (0 * (Zpos p * 2 ^ 52)) with 0 by lia.
      apply rounds_zero, rounded_zero.
    + cbn [number_leb] in Hk. destruct s; [discriminate|].
      destruct (bounded_elim _ _ Fk) as (Hek & Hmk & Hnk).
      unfold number_mul. cbn [SFmul xorb scaled].
      assert (HU : Zpos mk * 2 ^ (ek + 1074) * (Zpos p * 2 ^ 52)
                   = Zpos (mk * my) * 2 ^ (ek + ey - base)).
      { rewrite Pos2Z.inj_mul, Hvy.
        replace (ek + ey - base) with ((ek + 1074) + (ey + 52))
          by (unfold base; lia).
        rewrite (Z.pow_add_r 2 (ek + 1074) (ey + 52)) by lia.
        assert (H52 : 2 ^ 52 = 2 ^ (- ey) * 2 ^ (ey + 52)).
        { rewrite <- Z.pow_add_r by lia. f_equal. lia. }
        rewrite H52. ring. }
      rewrite HU. apply round_aux_spec; [unfold base; lia|].
      rewrite fexp_eq.
      assert (Hd : Zpos (digits2_pos mk) + 52 <= Zpos (digits2_pos (mk * my))).
      { rewrite !digits_log2, Pos2Z.inj_mul.
        assert (H1 : 0 < Zpos mk) by lia. assert (H2 : 0 < Zpos my) by lia.
        pose proof (Z.log2_mul_below (Zpos mk) (Zpos my) H1 H2).
        rewrite digits_log2 in Hdy. lia. }
      destruct (Z.eq_dec ek (-1074)) as [->|Hne]; [lia|].
      assert (He : -1074 < ek) by lia.
      pose proof (digits_ge_53 mk (Hnk He)). lia.
Qed.

Lemma channel_monotone (k1 k2 : number) (z : Z) :
  fraction k1 = true -> fraction k2 = true ->
  number_leb (S754_zero false) k1 = true -> number_leb k1 k2 = true ->
  0 <= z <= 255 ->
  exists v1 v2,
    integer_of v1 (Math_floor (number_mul k1 (of_int z))) /\
    integer_of v2 (Math_floor (number_mul k2 (of_int z))) /\
    opt_le v1 v2.
Proof.
  intros F1 F2 H1 H12 Hz.
  destruct (scaled_mono k1 k2 F1 F2 H1 H12) as [Hs H2].
  pose proof (floor_integer _ _ (mul_spec k1 z F1 H1 Hz)) as C1.
  pose proof (floor_integer _ _ (mul_spec k2 z F2 H2 Hz)) as C2.
  assert (HU : 0 <= scaled k1 * (z * 2 ^ 52) <= scaled k2 * (z * 2 ^ 52)).
  { split; [apply Z.mul_nonneg_nonneg; lia|].
    apply Z.mul_le_mono_nonneg_r; lia. }
  pose proof (rounded_mono _ _ HU) as HW.
  pose proof (rounded_nonneg _ (proj1 HU)) as HW0.
  eexists. eexists. split; [exact C1|]. split; [exact C2|].
  destruct (Z.ltb_spec (rounded (scaled k2 * (z * 2 ^ 52))) overflow);
    destruct (Z.ltb_spec (rounded (scaled k1 * (z * 2 ^ 52))) overflow);
    cbn [opt_le]; try lia; try exact I.
  assert (0 < 2 ^ (- base)) by (apply pow2_pos; unfold base; lia).
  split; [apply Z.div_pos; lia|apply Z.div_le_mono; lia].
Qed.

(** One channel: the value for the smaller fraction is at most the value
    for the larger one. *)
Lemma channel_value_monotone (k1 k2 : number) (c : cell) :
  fraction k1 = true -> fraction k2 = true ->
  SFleb (S754_zero false) k1 = true -> SFleb k1 k2 = true ->
  channel_limit c ->
  SFleb (Math_floor (number_mul k1 (to_number c)))
    (Math_floor (number_mul k2 (to_number c))) = true.
Proof.
  intros F1 F2 H1 H12 (z & -> & Hz).
  pose proof (fraction_valid k1 F1) as V1.
  pose proof (fraction_valid k2 F2) as V2.
  rewrite SFleb_number_leb in H1, H12 by auto.
  cbn [to_number].
  destruct (channel_monotone k1 k2 z F1 F2 H1 H12 Hz)
    as (v1 & v2 & C1 & C2 & Hle).
  rewrite SFleb_number_leb by (eapply integer_of_valid; eassumption).
  exact (integer_of_leb v1 v2 _ _ C1 C2 Hle).
Qed.

(** C8.  Colour scaling is monotonic: for a LimitSet of channel limits in
    0..255 and fractions [0 <= k1 < k2] (finite binary64 numbers), each
    channel value [Math.floor(k1 * limit)] is at most the corresponding
    value [Math.floor(k2 * limit)]. *)
Theorem scale_monotone (k1 k2 : number) (lim : list cell) :
  fraction k1 = true -> fraction k2 = true ->
  SFleb (S754_zero false) k1 = true -> SFltb k1 k2 = true ->
  Forall channel_limit lim ->
  Forall2 (fun a b => SFleb a b = true) (scale k1 lim) (scale k2 lim).
Proof.
  intros F1 F2 H1 H12 Hlim. apply SFltb_SFleb in H12.
  induction Hlim as [|c lim Hc _ IH]; cbn [scale map]; constructor.
  - apply channel_value_monotone; assumption.
  - exact IH.
Qed.

(** The same with one fraction per channel, as [colour R G B W] scales. *)
Lemma scale_each_monotone (r1 g1 b1 w1 r2 g2 b2 w2 : number)
    (rl gl bl wl : cell) :
  Forall (fun k => fraction k = true) [r1; g1; b1; w1; r2; g2; b2; w2] ->
  Forall (fun k => SFleb (S754_zero false) k = true) [r1; g1; b1; w1] ->
  Forall2 (fun k1 k2 => SFltb k1 k2 = true) [r1; g1; b1; w1] [r2; g2; b2; w2] ->
  Forall channel_limit [rl; gl; bl; wl] ->
  Forall2 (fun a b => SFleb a b = true)
    (scale_each r1 g1 b1 w1 [rl; gl; bl; wl])
    (scale_each r2 g2 b2 w2 [rl; gl; bl; wl]).
Proof.
  intros HF H0 Hlt Hl.
  repeat match goal with
         | H : Forall _ (_ :: _) |- _ => inversion H; clear H; subst
         | H : Forall2 _ (_ :: _) (_ :: _) |- _ => inversion H; clear H; subst
         end.
  unfold scale_each. cbn [map nth].
  repeat constructor;
    apply channel_value_monotone; auto using SFltb_SFleb.
Qed.

(** The scenario of the specification: half of (228, 214, 185, 184). *)
Lemma scale_half :
  scale half [Some 228; Some 214; Some 185; Some 184]
  = map of_int [114; 107; 92; 92].
Proof. vm_compute. reflexivity. Qed.

Lemma scale_monotone_witness :
  fraction half = true /\ fraction one = true /\
  SFleb (S754_zero false) half = true /\ SFltb half one = true /\
  Forall channel_limit [Some 228; Some 214; Some 185; Some 184] /\
  Forall2 (fun a b => SFleb a b = true)
    (scale half [Some 228; Some 214; Some 185; Some 184])
    (scale one [Some 228; Some 214; Some 185; Some 184]).
Proof.
  assert (H1 : fraction half = true) by reflexivity.
  assert (H2 : fraction one = true) by reflexivity.
  assert (H3 : SFleb (S754_zero false) half = true) by reflexivity.
  assert (H4 : SFltb half one = true) by reflexivity.
  assert (H5 : Forall channel_limit [Some 228; Some 214; Some 185; Some 184]).
  { repeat constructor; eexists; (split; [reflexivity|lia]). }
  repeat (split; [assumption|]).
  exact (scale_monotone half one _ H1 H2 H3 H4 H5).
Defined.

(** ** The arithmetic of the search in binary64 *)

(** A value that needs no rounding is kept. *)
Lemma rne_exact (q j : Z) : 0 <= j -> rne (q * 2 ^ j) j = q.
Proof.
  intros Hj. unfold rne.
  assert (Hp : 0 < 2 ^ j) by (apply pow2_pos; lia).
  rewrite Z.div_mul, Z.mod_mul by lia.
  destruct (Z.ltb_spec (2 * 0) (2 ^ j)); [reflexivity|lia].
Qed.

Lemma normal_bounds (m : positive) :
  Zpos (digits2_pos m) = 53 -> 2 ^ 52 <= Zpos m < 2 ^ 53.
Proof.
  intros Hd. pose proof (digits2_bounds m) as H. rewrite Hd in H.
  exact H.
Qed.

Lemma rounded_normal (m : positive) (e : Z) :
  Zpos (digits2_pos m) = 53 -> -1074 <= e ->
  rounded (Zpos m * 2 ^ (e - base)) = Zpos m * 2 ^ (e - base).
Proof.
  intros Hd He. unfold rounded, round_shift.
  rewrite digits_log2 in Hd.
  rewrite Z.log2_mul_pow2 by (unfold base; lia).
  replace (Z.max (e - base + Z.log2 (Zpos m) + 1 - 53) 52) with (e - base)
    by (unfold base; lia).
  rewrite rne_exact by (unfold base; lia). reflexivity.
Qed.

(** Two normal mantissas with the same value have the same exponent. *)
Lemma finite_unique (m1 m2 : positive) (a b : Z) :
  0 <= a -> 0 <= b ->
  Zpos (digits2_pos m1) = 53 -> Zpos (digits2_pos m2) = 53 ->
  Zpos m1 * 2 ^ a = Zpos m2 * 2 ^ b -> a = b /\ m1 = m2.
Proof.
  intros Ha Hb H1 H2 E.
  rewrite digits_log2 in H1, H2.
  assert (L : Z.log2 (Zpos m1 * 2 ^ a) = Z.log2 (Zpos m2 * 2 ^ b))
    by (rewrite E; reflexivity).
  rewrite !Z.log2_mul_pow2 in L by lia.
  assert (Hab : a = b) by lia. subst b. split; [reflexivity|].
  assert (Hp : 0 < 2 ^ a) by (apply pow2_pos; lia).
  apply Z.mul_cancel_r in E; [|lia]. congruence.
Qed.

(** What [rounds_to] says of a value that is a normal number already. *)
Lemma rounds_to_normal (m : positive) (e : Z) (r : number) :
  Zpos (digits2_pos m) = 53 -> -1074 <= e <= 971 ->
  rounds_to (Zpos m * 2 ^ (e - base)) r -> r = S754_finite false m e.
Proof.
  intros Hd He Hr.
  pose proof (normal_bounds m Hd) as Hm.
  pose proof (rounded_normal m e Hd (proj1 He)) as Hrs.
  assert (Hp : 0 < 2 ^ (e - base)) by (apply pow2_pos; unfold base; lia).
  assert (Hlt : Zpos m * 2 ^ (e - base) < overflow).
  { unfold overflow.
    apply Z.lt_le_trans with (2 ^ 53 * 2 ^ (e - base)).
    - apply Z.mul_lt_mono_pos_r; lia.
    - rewrite <- Z.pow_add_r by (unfold base; lia).
      apply pow2_le. unfold base. lia. }
  inversion Hr as [s Hz|m' e' Hb Hval _|Hinf]; subst.
  - rewrite Hrs in Hz. lia.
  - rewrite Hrs in Hval.
    destruct (bounded_elim _ _ Hb) as (He' & Hm' & Hn').
    assert (Hlow : 2 ^ 52 <= Zpos m').
    { destruct (Z.eq_dec e' (-1074)) as [->|]; [|apply Hn'; lia].
      replace (-1074 - base) with 52 in Hval by (unfold base; lia).
      assert (Hb2 : 2 ^ 52 * 2 ^ 52 <= Zpos m * 2 ^ (e - base)).
      { apply Z.mul_le_mono_nonneg; try lia.
        apply pow2_le. unfold base. lia. }
      rewrite <- Hval in Hb2.
      apply Z.mul_le_mono_pos_r in Hb2; lia. }
    assert (Hd' : Zpos (digits2_pos m') = 53).
    { pose proof (digits_ge_53 m' Hlow).
      pose proof (digits_le_53 m' Hm'). lia. }
    destruct (finite_unique m' m (e' - base) (e - base)) as [Ee Em];
      try assumption; try (unfold base; lia).
    subst m'. f_equal. unfold base in Ee. lia.
  - rewrite Hrs in Hinf. lia.
Qed.

(** Normalizing [M * 2 ^ E] gives the number of the integer it denotes. *)
Lemma normalize_exact (M : positive) (E n : Z) :
  -52 <= E <= 0 -> 0 < n < 2 ^ 53 -> Zpos M = n * 2 ^ (- E) ->
  binary_normalize 53 1024 (Zpos M) E false = of_int n.
Proof.
  intros HE Hn HM.
  destruct n as [|p|p]; try lia.
  destruct (of_int_spec p (proj2 Hn)) as (m & e & -> & He & Hd & Hv & Hlog).
  assert (Hl : 0 <= Z.log2 (Zpos p)) by apply Z.log2_nonneg.
  assert (HdM : Zpos (digits2_pos M) = Z.log2 (Zpos p) - E + 1).
  { rewrite digits_log2, HM, Z.log2_mul_pow2 by lia. lia. }
  unfold binary_normalize, binary_round, shl_align.
  rewrite fexp_eq, HdM.
  replace (Z.max (Z.log2 (Zpos p) - E + 1 + E - 53) (-1074)) with e by lia.
  destruct (e - E) as [|d|d] eqn:Ed.
  - assert (e = E) by lia. subst E.
    assert (M = m) by (apply Pos2Z.inj; lia). subst M.
    apply no_shift; lia.
  - apply rounds_to_normal; [assumption|lia|].
    replace (Zpos m * 2 ^ (e - base)) with (Zpos M * 2 ^ (E - base)).
    + apply round_aux_spec; [unfold base; lia|].
      rewrite fexp_eq, HdM. lia.
    + rewrite HM, Hv, <- !Z.mul_assoc, <- !Z.pow_add_r by (unfold base; lia).
      f_equal. f_equal. lia.
  - assert (Hsh : Zpos (Pos.iter xO M d) = Zpos m).
    { rewrite iter_xO, HM, Hv, <- Z.mul_assoc, <- Z.pow_add_r by lia.
      f_equal. f_equal. lia. }
    apply Pos2Z.inj in Hsh. rewrite Hsh.
    apply no_shift; lia.
Qed.

Lemma of_int_zero : of_int 0 = S754_zero false.
Proof. reflexivity. Qed.

(** The mantissa [shl_align] yields. *)
Lemma shl_align_value (m : positive) (e e' : Z) :
  e' <= e -> Zpos (fst (shl_align m e e')) = Zpos m * 2 ^ (e - e').
Proof.
  intros H. unfold shl_align. destruct (e' - e) as [|d|d] eqn:Ed; try lia.
  - replace (e - e') with 0 by lia. simpl. lia.
  - cbn [fst]. rewrite iter_xO. f_equal. f_equal. lia.
Qed.

(** [lo + hi] is exact while the sum is below [2 ^ 53]. *)
Lemma add_exact (a b : Z) :
  0 <= a -> 0 <= b -> a + b < 2 ^ 53 ->
  number_add (of_int a) (of_int b) = of_int (a + b).
Proof.
  intros Ha Hb Hs.
  destruct a as [|p|p]; try lia.
  { rewrite of_int_zero. cbn [Z.add].
    destruct b as [|q|q]; try lia; [reflexivity|].
    destruct (of_int_spec q ltac:(lia)) as (m & e & -> & _). reflexivity. }
  destruct b as [|q|q]; try lia.
  { rewrite of_int_zero, Z.add_0_r.
    destruct (of_int_spec p ltac:(lia)) as (m & e & -> & _). reflexivity. }
  assert (Hp : Zpos p < 2 ^ 53) by lia.
  assert (Hq : Zpos q < 2 ^ 53) by lia.
  destruct (of_int_spec p Hp) as (ma & ea & -> & Hea & Hda & Hva & _).
  destruct (of_int_spec q Hq) as (mb & eb & -> & Heb & Hdb & Hvb & _).
  unfold number_add. cbn [SFadd cond_Zopp].
  pose proof (shl_align_value ma ea (Z.min ea eb) ltac:(lia)) as H1.
  pose proof (shl_align_value mb eb (Z.min ea eb) ltac:(lia)) as H2.
  destruct (Zpos (fst (shl_align ma ea (Z.min ea eb)))
            + Zpos (fst (shl_align mb eb (Z.min ea eb)))) as [|S|S] eqn:ES;
    try lia.
  apply normalize_exact; try lia.
  rewrite H1, H2, Hva, Hvb in ES.
  rewrite <- ES, Z.mul_add_distr_r, <- !Z.mul_assoc, <- !Z.pow_add_r by lia.
  f_equal; f_equal; f_equal; lia.
Qed.

(** Dividing a normal number by two lowers its exponent. *)
Lemma div_two_exact (m : positive) (e : Z) :
  Zpos (digits2_pos m) = 53 -> -52 <= e <= 0 ->
  number_div (S754_finite false m e) two = S754_finite false m (e - 1).
Proof.
  intros Hd He. unfold number_div, two. cbn [SFdiv xorb].
  assert (Hcore : SFdiv_core_binary 53 1024 (Zpos m) e 4503599627370496 (-51)
                  = (Zpos m~0, e - 2, loc_Exact)).
  { unfold SFdiv_core_binary. cbn [Zdigits2]. rewrite Hd.
    change (Zpos (digits2_pos 4503599627370496)) with 53.
    rewrite fexp_eq.
    replace (Z.min (Z.max (53 + e - (53 + -51) - 53) (-1074)) (e - -51))
      with (e - 2) by lia.
    replace (e - -51 - (e - 2)) with 53 by lia.
    assert (Hdiv : Z.div_eucl (Z.shiftl (Zpos m) 53) 4503599627370496
                   = (Zpos m~0, 0)).
    { rewrite Z.shiftl_mul_pow2 by lia.
      assert (Hq : Zpos m * 2 ^ 53 / 4503599627370496 = Zpos m~0).
      { change 4503599627370496 with (2 ^ 52).
        replace (Zpos m * 2 ^ 53) with (Zpos m~0 * 2 ^ 52)
          by (change (2 ^ 53) with (2 * 2 ^ 52); lia).
        apply Z.div_mul. lia. }
      assert (Hr : (Zpos m * 2 ^ 53) mod 4503599627370496 = 0).
      { change 4503599627370496 with (2 ^ 52).
        replace (Zpos m * 2 ^ 53) with (Zpos m~0 * 2 ^ 52)
          by (change (2 ^ 53) with (2 * 2 ^ 52); lia).
        apply Z.mod_mul. lia. }
      unfold Z.div, Z.modulo in Hq, Hr.
      destruct (Z.div_eucl (Zpos m * 2 ^ 53) 4503599627370496) as [q r].
      simpl in Hq, Hr. subst. reflexivity. }
    rewrite Hdiv. reflexivity. }
  rewrite Hcore.
  apply rounds_to_normal; [assumption|lia|].
  replace (Zpos m * 2 ^ (e - 1 - base)) with (Zpos m~0 * 2 ^ (e - 2 - base)).
  - apply round_aux_spec; [unfold base; lia|].
    rewrite fexp_eq.
    assert (Hd2 : Zpos (digits2_pos m~0) = 54) by (simpl; lia).
    rewrite Hd2. lia.
  - replace (e - 1 - base) with (1 + (e - 2 - base)) by lia.
    rewrite Z.pow_add_r by (unfold base; lia). lia.
Qed.

(** The floor of half a positive integer. *)
Lemma floor_half (p m : positive) (e : Z) :
  -52 <= e <= 0 -> Zpos m = Zpos p * 2 ^ (- e) ->
  Math_floor (S754_finite false m (e - 1)) = of_int (Zpos p / 2).
Proof.
  intros He Hv. unfold Math_floor.
  destruct (Z.leb_spec 0 (e - 1)); [lia|].
  cbn [cond_Zopp].
  assert (Hq : Zpos m / 2 ^ (- (e - 1)) = Zpos p / 2).
  { replace (- (e - 1)) with (1 + - e) by lia.
    rewrite Hv, Z.pow_add_r by lia.
    assert (Hp : 0 < 2 ^ (- e)) by (apply pow2_pos; lia).
    change (2 ^ 1) with 2.
    apply Z.div_mul_cancel_r; lia. }
  rewrite Hq. destruct (Zpos p / 2); reflexivity.
Qed.

(** The midpoint the code computes is the integer midpoint while the bounds
    are of [0 .. 2^52]. *)
Lemma midpoint_exact (lo hi : Z) :
  0 <= lo <= 2 ^ 52 -> 0 <= hi <= 2 ^ 52 ->
  midpoint (of_int lo) (of_int hi) = of_int ((lo + hi) / 2).
Proof.
  intros Hlo Hhi. unfold midpoint.
  destruct (Z.eq_dec (lo + hi) (2 ^ 53)) as [E|E].
  { assert (lo = 2 ^ 52) by lia. assert (hi = 2 ^ 52) by lia. subst.
    vm_compute. reflexivity. }
  rewrite add_exact by lia.
  destruct (lo + hi) as [|p|p] eqn:Es; try lia.
  { vm_compute. reflexivity. }
  assert (Hp : Zpos p < 2 ^ 53) by lia.
  destruct (of_int_spec p Hp) as (m & e & -> & He & Hd & Hv & _).
  rewrite div_two_exact by assumption.
  apply floor_half; assumption.
Qed.

(** Numbers of integers are equal exactly when the integers are. *)
Lemma strict_eq_exact (a b : Z) :
  0 <= a < 2 ^ 53 -> 0 <= b < 2 ^ 53 ->
  strict_eq (of_int a) (of_int b) = (a =? b).
Proof.
  intros Ha Hb. unfold strict_eq, SFeqb.
  destruct (Z.eqb_spec a b) as [E|E].
  { subst b. destruct a as [|p|p]; try lia; [reflexivity|].
    destruct (of_int_spec p (proj2 Ha)) as (m & e & -> & _).
    cbn [SFcompare]. rewrite Z.compare_refl, Pos.compare_cont_refl.
    reflexivity. }
  destruct a as [|p|p]; try lia; destruct b as [|q|q]; try lia.
  - destruct (of_int_spec q (proj2 Hb)) as (m & e & -> & _). reflexivity.
  - destruct (of_int_spec p (proj2 Ha)) as (m & e & -> & _). reflexivity.
  - destruct (of_int_spec p (proj2 Ha)) as (ma & ea & -> & Hea & _ & Hva & _).
    destruct (of_int_spec q (proj2 Hb)) as (mb & eb & -> & Heb & _ & Hvb & _).
    cbn [SFcompare].
    destruct (Z.compare_spec ea eb) as [Ee|Ee|Ee]; try reflexivity.
    subst eb.
    destruct (Pos.compare_cont Eq ma mb) eqn:Ec; try reflexivity.
    apply Pos.compare_eq in Ec. subst mb. exfalso. apply E.
    assert (Hp : 0 < 2 ^ (- ea)) by (apply pow2_pos; lia).
    rewrite Hva in Hvb. apply Z.mul_cancel_r in Hvb; lia.
Qed.

(** *** The search on numbers *)

Lemma findLimit_binary64_step (fuel : nat) (limit : nat -> bool)
    (lo hi : number) :
  findLimit_binary64 fuel limit lo hi
  = if strict_eq (midpoint lo hi) lo then Some lo
    else
      match fuel with
      | O => None
      | S fuel' =>
          if limit O
          then findLimit_binary64 fuel' (fun k => limit (S k)) lo
                 (midpoint lo hi)
          else findLimit_binary64 fuel' (fun k => limit (S k))
                 (midpoint lo hi) hi
      end.
Proof. destruct fuel; reflexivity. Qed.

(** While the bounds are of [0 .. 2^52] the search on numbers is the search
    on integers: it returns within [k] calls when the width is at most
    [2 ^ k], whatever the limit signal reports. *)
Lemma findLimit_binary64_returns (k : nat) :
  forall (limit : nat -> bool) (lo hi : Z),
    0 <= lo <= hi -> hi <= 2 ^ 52 -> hi - lo <= 2 ^ Z.of_nat k ->
    forall fuel, (k <= fuel)%nat ->
      exists v,
        findLimit_binary64 fuel limit (of_int lo) (of_int hi)
        = Some (of_int v) /\ lo <= v <= hi.
Proof.
  induction k as [|k IH]; intros limit lo hi Hlo Hhi Hk fuel Hfuel;
    rewrite findLimit_binary64_step, midpoint_exact by lia;
    assert (Hm : 0 <= (lo + hi) / 2 <= hi)
      by (pose proof (Z.div_mod (lo + hi) 2 ltac:(lia));
          pose proof (Z.mod_pos_bound (lo + hi) 2 ltac:(lia)); lia);
    rewrite strict_eq_exact by lia.
  - rewrite (midpoint_base lo hi) by (simpl in Hk; lia).
    rewrite Z.eqb_refl. exists lo. split; [reflexivity|lia].
  - destruct (Z.eqb_spec ((lo + hi) / 2) lo) as [E|E].
    + exists lo. split; [reflexivity|lia].
    + destruct (midpoint_shrinks lo hi (proj2 Hlo) E) as [H1 H2].
      destruct (midpoint_halves k lo hi Hk) as [Hl Hh].
      destruct fuel as [|fuel]; [lia|].
      destruct (limit O).
      * destruct (IH (fun j => limit (S j)) lo ((lo + hi) / 2)
                    ltac:(lia) ltac:(lia) Hl fuel ltac:(lia))
          as (v & Hv & Hr).
        exists v. split; [exact Hv|lia].
      * destruct (IH (fun j => limit (S j)) ((lo + hi) / 2) hi
                    ltac:(lia) ltac:(lia) Hh fuel ltac:(lia))
          as (v & Hv & Hr).
        exists v. split; [exact Hv|lia].
Qed.

Section Bounds.

Context {D : Type}.
Variable device : request -> D -> option response * D.

(** C5.  For every channel index, every fixture (so every trip signal,
    monotonic or not) and every [0 <= lo <= hi <= 2^52], [findLimit]
    terminates.  The midpoint the code computes in binary64 is the integer
    midpoint, and each recursive call is on a strictly smaller range.  The
    search on numbers returns a value of the range within
    [log2_up (hi - lo)] calls whatever the limit signal reports, and with
    the fixture in the loop that budget yields one settled outcome whatever
    larger budget is given; on a fixture that answers every request the
    outcome is a value of the range. *)
Theorem findLimit_terminates (idx : nat) (lo hi : Z) (w : world D) :
  0 <= lo <= hi -> hi <= 2 ^ 52 ->
  (midpoint (of_int lo) (of_int hi) = of_int ((lo + hi) / 2) /\
   ((lo + hi) / 2 <> lo -> lo < (lo + hi) / 2 < hi)) /\
  (forall limit fuel, (Z.to_nat (Z.log2_up (hi - lo)) <= fuel)%nat ->
     exists v,
       findLimit_binary64 fuel limit (of_int lo) (of_int hi)
       = Some (of_int v) /\ lo <= v <= hi) /\
  exists o w',
    o <> Pending /\
    (forall fuel, (Z.to_nat (Z.log2_up (hi - lo)) <= fuel)%nat ->
       findLimit device fuel idx lo hi w = (o, w')) /\
    (responsive device -> exists v, o = Resolved v /\ lo <= v <= hi).
Proof.
  intros Hlo Hhi. split; [|split].
  - split; [apply midpoint_exact; lia|apply midpoint_shrinks, Hlo].
  - intros limit fuel Hfuel.
    apply (findLimit_binary64_returns (Z.to_nat (Z.log2_up (hi - lo))));
      auto using width_log2_up.
  - destruct (findLimit_enough device idx (Z.to_nat (Z.log2_up (hi - lo)))
                lo hi w (proj2 Hlo) (width_log2_up lo hi))
      as (Hfuel & Hset & Hres).
    destruct (findLimit device (Z.to_nat (Z.log2_up (hi - lo))) idx lo hi w)
      as [o w'] eqn:E.
    exists o, w'. simpl in *. auto.
Qed.

End Bounds.

(** Beyond [2^53] the sum [lo + hi] is rounded.  For the bounds [2^53 + 2]
    and [2^53 + 4] the midpoint the code computes is [hi]: the call for a
    tripped channel is on the same range again, and a search of a channel
    that reads as tripped never returns. *)
Lemma findLimit_stalls_beyond_2_53 :
  0 <= 2 ^ 53 + 2 <= 2 ^ 53 + 4 /\
  midpoint (of_int (2 ^ 53 + 2)) (of_int (2 ^ 53 + 4)) = of_int (2 ^ 53 + 4) /\
  strict_eq (of_int (2 ^ 53 + 4)) (of_int (2 ^ 53 + 2)) = false /\
  forall fuel,
    findLimit_binary64 fuel (fun _ => true)
      (of_int (2 ^ 53 + 2)) (of_int (2 ^ 53 + 4)) = None.
Proof.
  assert (Hm : midpoint (of_int (2 ^ 53 + 2)) (of_int (2 ^ 53 + 4))
               = of_int (2 ^ 53 + 4)) by (vm_compute; reflexivity).
  assert (Hn : strict_eq (of_int (2 ^ 53 + 4)) (of_int (2 ^ 53 + 2)) = false)
    by (vm_compute; reflexivity).
  split; [lia|]. split; [exact Hm|]. split; [exact Hn|].
  induction fuel as [|fuel IH];
    rewrite findLimit_binary64_step, Hm, Hn; [reflexivity|exact IH].
Qed.

(** The bound [2^52] is sharp: the range from [2^52 + 1] to [2^52 + 2]
    stalls in the same way. *)
Lemma findLimit_bound_sharp :
  midpoint (of_int (2 ^ 52 + 1)) (of_int (2 ^ 52 + 2)) = of_int (2 ^ 52 + 2) /\
  forall fuel,
    findLimit_binary64 fuel (fun _ => true)
      (of_int (2 ^ 52 + 1)) (of_int (2 ^ 52 + 2)) = None.
Proof.
  assert (Hm : midpoint (of_int (2 ^ 52 + 1)) (of_int (2 ^ 52 + 2))
               = of_int (2 ^ 52 + 2)) by (vm_compute; reflexivity).
  assert (Hn : strict_eq (of_int (2 ^ 52 + 2)) (of_int (2 ^ 52 + 1)) = false)
    by (vm_compute; reflexivity).
  split; [exact Hm|].
  induction fuel as [|fuel IH];
    rewrite findLimit_binary64_step, Hm, Hn; [reflexivity|exact IH].
Qed.

Lemma findLimit_terminates_witness :
  0 <= 0 <= 255 /\ 255 <= 2 ^ 52 /\
  (midpoint (of_int 0) (of_int 255) = of_int ((0 + 255) / 2) /\
   ((0 + 255) / 2 <> 0 -> 0 < (0 + 255) / 2 < 255)) /\
  (forall limit fuel, (Z.to_nat (Z.log2_up (255 - 0)) <= fuel)%nat ->
     exists v,
       findLimit_binary64 fuel limit (of_int 0) (of_int 255)
       = Some (of_int v) /\ 0 <= v <= 255) /\
  exists o w',
    o <> Pending /\
    (forall fuel, (Z.to_nat (Z.log2_up (255 - 0)) <= fuel)%nat ->
       findLimit (sim_device (drifting [98; 99; 100; 101; 102]) no_fault)
         fuel 0 0 255 start = (o, w')) /\
    (responsive (sim_device (drifting [98; 99; 100; 101; 102]) no_fault) ->
     exists v, o = Resolved v /\ 0 <= v <= 255).
Proof.
  assert (H1 : 0 <= 0 <= 255) by lia.
  assert (H2 : 255 <= 2 ^ 52) by lia.
  split; [exact H1|]. split; [exact H2|].
  exact (findLimit_terminates
           (sim_device (drifting [98; 99; 100; 101; 102]) no_fault)
           0 0 255 start H1 H2).
Defined.

(** * Further properties of the code *)

Section Probes.

Context {D : Type}.
Variable device : request -> D -> option response * D.

Local Abbreviation M := (M D).

(** ** What a search returns and where it probes *)

Lemma findLimit_resolved_range (fuel idx : nat) (lo hi v : Z)
    (w w' : world D) :
  lo <= hi ->
  findLimit device fuel idx lo hi w = (Resolved v, w') ->
  lo <= v /\ (lo < hi -> v < hi).
Proof.
  revert lo hi w. induction fuel as [|fuel IH]; intros lo hi w Hle; simpl;
    destruct ((lo + hi) / 2 =? lo) eqn:Hmid;
    try (intros [= <- <-]; lia); try discriminate.
  apply Z.eqb_neq in Hmid.
  destruct (midpoint_shrinks lo hi Hle Hmid) as [Hlo Hhi].
  unfold bind at 1.
  destruct (setChannels device _ w) as [[[]|r|] w1]; try discriminate.
  unfold bind.
  destruct (getLimitSignal device idx w1) as [[[|]|r|] w2]; try discriminate;
    intros H; apply IH in H; lia.
Qed.

(** X1.  Whatever the fixture answers, a search of [0 <= lo <= hi <= 2^52]
    (bounds whose midpoints the code computes exactly) that resolves
    returns a value of the range that is not [hi] (unless the range is the
    single value [lo = hi]): the upper bound itself is never reported. *)
Theorem findLimit_below_hi (fuel idx : nat) (lo hi v : Z) (w w' : world D) :
  0 <= lo <= hi -> hi <= 2 ^ 52 ->
  findLimit device fuel idx lo hi w = (Resolved v, w') ->
  lo <= v /\ (lo < hi -> v < hi).
Proof.
  intros [_ Hle] _ Hrun.
  exact (findLimit_resolved_range fuel idx lo hi v w w' Hle Hrun).
Qed.

Lemma run_ok_findLimit_within (fuel idx : nat) :
  forall lo hi lo0 hi0,
    lo0 <= lo -> lo <= hi -> hi <= hi0 ->
    run_ok (probe_within idx lo0 hi0) (findLimit device fuel idx lo hi).
Proof.
  induction fuel as [|fuel IH]; intros lo hi lo0 hi0 H0 Hle H1; simpl;
    destruct ((lo + hi) / 2 =? lo) eqn:Hmid;
    try apply run_ok_ret; try apply run_ok_pending.
  apply Z.eqb_neq in Hmid.
  destruct (midpoint_shrinks lo hi Hle Hmid) as [Hlo Hhi].
  apply run_ok_bind.
  - apply run_ok_setChannels; simpl; [reflexivity|].
    intros _. exists ((lo + hi) / 2). split; [reflexivity|lia].
  - intros _. apply run_ok_bind.
    + apply run_ok_getLimitSignal. simpl. trivial.
    + intros [|]; apply IH; lia.
Qed.

(** X2.  Every code a search of [0 <= lo <= hi <= 2^52] writes lies strictly
    between [lo] and [hi]: neither bound is ever driven, so
    [findLimit(c, 0, 255)] writes only codes 1..254, and only to channel
    [idx]. *)
Theorem findLimit_probes_inside (fuel idx : nat) (lo hi : Z) (w : world D) :
  0 <= lo <= hi -> hi <= 2 ^ 52 ->
  exists evs,
    wire (snd (findLimit device fuel idx lo hi w)) = evs ++ wire w /\
    forall arr resp,
      In (Exchange (PutCtrl arr) resp) evs ->
      exists v, arr = channelValues idx v /\ lo < v < hi.
Proof.
  intros [_ Hle] _.
  destruct (run_ok_findLimit_within fuel idx lo hi lo hi
              (Z.le_refl lo) Hle (Z.le_refl hi) w)
    as (evs & Hw & _ & HP & _).
  exists evs. split; [exact Hw|].
  intros arr resp Hin. rewrite Forall_forall in HP. exact (HP _ Hin).
Qed.

(** ** The order of writes, pauses and reads *)

Lemma paced_app (idx : nat) (a b : list event) :
  paced idx a -> paced idx b -> paced idx (a ++ b).
Proof.
  induction 1 as [|v x r earlier Hok _ IH]; intros Hb; simpl; [exact Hb|].
  constructor; auto.
Qed.

Lemma setChannels_cases (arr : list cell) (w : world D) :
  (exists x, ok x = true /\
     fst (setChannels device arr w) = Resolved tt /\
     wire (snd (setChannels device arr w))
     = [Sleep 5; Exchange (PutCtrl arr) (Some x)] ++ wire w) \/
  (exists r resp,
     fst (setChannels device arr w) = Rejected r /\
     failed (Exchange (PutCtrl arr) resp) = true /\
     wire (snd (setChannels device arr w))
     = [Exchange (PutCtrl arr) resp] ++ wire w).
Proof.
  unfold setChannels, bind, fetch, errorHandler, delay, record.
  destruct (device (PutCtrl arr) (dev w)) as [[x|] d]; simpl.
  - destruct (ok x) eqn:Hok; simpl.
    + left. exists x. auto.
    + right. exists (Reason (statusText x ++ ": " ++ url x)%string), (Some x).
      simpl. rewrite Hok. auto.
  - right. exists FetchError, None. auto.
Qed.

Lemma getLimitSignal_one (idx : nat) (w : world D) :
  exists resp,
    wire (snd (getLimitSignal device idx w))
    = [Exchange GetLimit resp] ++ wire w.
Proof.
  unfold getLimitSignal, bind, fetch, errorHandler, resp_json, record.
  destruct (device GetLimit (dev w)) as [[x|] d]; simpl.
  - exists (Some x). destruct (ok x); simpl; auto.
    destruct (body x) as [j|]; simpl; auto.
    destruct (js_get j (channelKey idx)); simpl; auto.
  - exists None. auto.
Qed.

Lemma findLimit_paced_run (fuel idx : nat) :
  forall (lo hi : Z) (w w' : world D) (o : outcome Z),
    findLimit device fuel idx lo hi w = (o, w') ->
    exists evs,
      wire w' = evs ++ wire w /\
      (paced idx evs \/
       exists v resp earlier,
         evs = Exchange (PutCtrl (channelValues idx v)) resp :: earlier /\
         failed (Exchange (PutCtrl (channelValues idx v)) resp) = true /\
         paced idx earlier) /\
      (forall v, o = Resolved v -> paced idx evs).
Proof.
  induction fuel as [|fuel IH]; intros lo hi w w' o; simpl;
    destruct ((lo + hi) / 2 =? lo) eqn:Hmid;
    try solve [unfold ret, pending; intros [= <- <-]; exists []; simpl;
               repeat split; auto using paced_nil].
  unfold bind at 1.
  pose proof (setChannels_cases (channelValues idx ((lo + hi) / 2)) w) as Hc.
  destruct (setChannels device _ w) as [o1 w1]. simpl in Hc.
  destruct Hc as [(x & Hok & -> & Hw)|(r & resp & -> & Hf & Hw)].
  2:{ intros [= <- <-].
      exists [Exchange (PutCtrl (channelValues idx ((lo + hi) / 2))) resp].
      split; [exact Hw|]. split; [|intros v Hv; discriminate].
      right. exists ((lo + hi) / 2), resp, []. auto using paced_nil. }
  unfold bind.
  destruct (getLimitSignal_one idx w1) as (r & Hw2).
  assert (Hround : paced idx [Exchange GetLimit r; Sleep 5;
                              Exchange (PutCtrl (channelValues idx
                                                   ((lo + hi) / 2))) (Some x)])
    by (constructor; auto using paced_nil).
  destruct (getLimitSignal device idx w1) as [[b|e|] w2]; simpl in Hw2;
    try solve [intros [= <- <-];
               exists [Exchange GetLimit r; Sleep 5;
                       Exchange (PutCtrl (channelValues idx ((lo + hi) / 2)))
                         (Some x)];
               rewrite Hw2, Hw;
               split; [reflexivity|];
               split; [left; exact Hround|intros; exact Hround]].
  intros Hrun.
  assert (Hrec : exists lo' hi',
             findLimit device fuel idx lo' hi' w2 = (o, w'))
    by (destruct b; eauto).
  destruct Hrec as (lo' & hi' & Hrec).
  destruct (IH lo' hi' w2 w' o Hrec) as (e3 & Hw3 & Hshape & Hres).
  exists (e3 ++ [Exchange GetLimit r; Sleep 5;
                 Exchange (PutCtrl (channelValues idx ((lo + hi) / 2)))
                   (Some x)]).
  split; [rewrite Hw3, Hw2, Hw, <- app_assoc; reflexivity|].
  split.
  - destruct Hshape as [Hp|(v & resp & earlier & -> & Hf & Hp)].
    + left. apply paced_app; assumption.
    + right. exists v, resp, (earlier ++ [Exchange GetLimit r; Sleep 5;
                 Exchange (PutCtrl (channelValues idx ((lo + hi) / 2)))
                   (Some x)]).
      repeat split; auto. apply paced_app; assumption.
  - intros v Hv. apply paced_app; [eapply Hres; exact Hv|exact Hround].
Qed.

(** X3.  The events of a search are whole rounds, each a successful write
    of channel [idx], the 5 ms pause and then one read: no read happens
    without the pause after a write that succeeded.  The only exception is
    a newest write that failed, after which nothing follows; a search that
    resolves consists of whole rounds only. *)
Theorem findLimit_paced (fuel idx : nat) (lo hi : Z) (w : world D) :
  exists evs,
    wire (snd (findLimit device fuel idx lo hi w)) = evs ++ wire w /\
    (paced idx evs \/
     exists v resp earlier,
       evs = Exchange (PutCtrl (channelValues idx v)) resp :: earlier /\
       failed (Exchange (PutCtrl (channelValues idx v)) resp) = true /\
       paced idx earlier) /\
    (forall v, fst (findLimit device fuel idx lo hi w) = Resolved v ->
               paced idx evs).
Proof.
  destruct (findLimit device fuel idx lo hi w) as [o w'] eqn:E.
  exact (findLimit_paced_run fuel idx lo hi w w' o E).
Qed.

End Probes.
Section Cost.

Context {D : Type}.
Variable device : request -> D -> option response * D.

(** ** The cost of a search *)

Lemma paced_counts (idx : nat) (evs : list event) :
  paced idx evs -> reads evs = writes evs.
Proof.
  induction 1 as [|v x r earlier _ _ IH]; [reflexivity|].
  unfold reads, writes in *. simpl. rewrite IH. reflexivity.
Qed.

Lemma findLimit_at_least (idx j : nat) :
  forall (fuel : nat) (lo hi v : Z) (w w' : world D),
    2 ^ Z.of_nat (S j) - 1 <= hi - lo ->
    findLimit device fuel idx lo hi w = (Resolved v, w') ->
    exists evs, wire w' = evs ++ wire w /\ (j <= writes evs)%nat.
Proof.
  induction j as [|j IH]; intros fuel lo hi v w w' Hw Hrun.
  - destruct (run_ok_findLimit device fuel idx lo hi w) as (evs & He & _).
    rewrite Hrun in He. exists evs. split; [exact He|lia].
  - assert (Hp : 0 < 2 ^ Z.of_nat j) by (apply Z.pow_pos_nonneg; lia).
    assert (Hp1 : 2 ^ Z.of_nat (S j) = 2 * 2 ^ Z.of_nat j)
      by (rewrite Nat2Z.inj_succ, Z.pow_succ_r by lia; reflexivity).
    assert (Hpow : 2 ^ Z.of_nat (S (S j)) = 2 * 2 ^ Z.of_nat (S j))
      by (rewrite (Nat2Z.inj_succ (S j)), Z.pow_succ_r by lia; reflexivity).
    rewrite Hpow in Hw. rewrite Hp1 in *.
    revert Hp Hw IH. generalize (2 ^ Z.of_nat j). intros p Hp Hw IH.
    assert (Hmid : (lo + hi) / 2 <> lo).
    { pose proof (Z.div_mod (lo + hi) 2 ltac:(lia)).
      pose proof (Z.mod_pos_bound (lo + hi) 2 ltac:(lia)). lia. }
    assert (Hsub : 2 * p - 1 <= (lo + hi) / 2 - lo /\
                   2 * p - 1 <= hi - (lo + hi) / 2).
    { pose proof (Z.div_mod (lo + hi) 2 ltac:(lia)).
      pose proof (Z.mod_pos_bound (lo + hi) 2 ltac:(lia)). lia. }
    apply Z.eqb_neq in Hmid.
    destruct fuel as [|fuel]; simpl in Hrun; rewrite Hmid in Hrun;
      [discriminate|].
    unfold bind at 1 in Hrun.
    destruct (setChannels_wire device (channelValues idx ((lo + hi) / 2)) w)
      as (e1 & Hw1 & Hwr1 & _).
    destruct (setChannels device _ w) as [[[]|r|] w1]; try discriminate.
    unfold bind in Hrun.
    destruct (getLimitSignal_wire device idx w1) as (e2 & Hw2 & _).
    destruct (getLimitSignal device idx w1) as [[b|r|] w2]; try discriminate.
    simpl in Hw1, Hw2.
    assert (Hrec : exists lo' hi',
               findLimit device fuel idx lo' hi' w2 = (Resolved v, w') /\
               2 * p - 1 <= hi' - lo').
    { destruct b; [exists lo, ((lo + hi) / 2)|exists ((lo + hi) / 2), hi];
        split; auto; lia. }
    destruct Hrec as (lo' & hi' & Hrec & Hw').
    destruct (IH fuel lo' hi' v w2 w' Hw' Hrec) as (e3 & Hw3 & Hn).
    exists (e3 ++ e2 ++ e1).
    rewrite Hw3, Hw2, Hw1, !app_assoc, !writes_app. split; [reflexivity|lia].
Qed.

(** X4.  A search of [0 <= lo <= hi <= 2^52] that resolves has read the limit
    signal as often as it has written the channel, and the number of these
    round trips is logarithmic in the width of the range: at least [j] when
    the width is at least [2^(j+1) - 1] and at most [k] when it is at most
    [2^k].  For the range 0..255 that is 7 or 8 round trips. *)
Theorem findLimit_cost (j k fuel idx : nat) (lo hi v : Z) (w w' : world D) :
  0 <= lo <= hi -> hi <= 2 ^ 52 ->
  2 ^ Z.of_nat (S j) - 1 <= hi - lo -> hi - lo <= 2 ^ Z.of_nat k ->
  findLimit device fuel idx lo hi w = (Resolved v, w') ->
  exists evs,
    wire w' = evs ++ wire w /\
    reads evs = writes evs /\
    (j <= writes evs <= k)%nat.
Proof.
  intros [_ Hle] _ Hj Hk Hrun.
  destruct (findLimit_at_least idx j fuel lo hi v w w' Hj Hrun)
    as (evs & Hw & Hlow).
  exists evs. split; [exact Hw|].
  destruct (findLimit_round_trips device idx k fuel lo hi w Hle Hk)
    as (evs1 & Hw1 & Hup & _).
  destruct (findLimit_paced_run device fuel idx lo hi w w' (Resolved v) Hrun)
    as (evs2 & Hw2 & _ & Hp).
  rewrite Hrun in Hw1. simpl in Hw1.
  assert (evs1 = evs) by (eapply app_inv_tail; rewrite <- Hw1; exact Hw).
  assert (evs2 = evs) by (eapply app_inv_tail; rewrite <- Hw2; exact Hw).
  subst evs1 evs2.
  split; [apply (paced_counts idx), (Hp v), eq_refl|lia].
Qed.

(** ** Reading the limit signal *)

(** X5.  [getLimitSignal] reports a channel as not tripped in exactly one
    case: the device answered with success, the body is a JSON object, and
    the field of the channel's pin is the number 0.  Any other successful
    JSON answer (another number, a string, a missing field, a body that is
    not an object) reports the channel as tripped or fails. *)
Theorem getLimitSignal_not_tripped (idx : nat) (w : world D) :
  fst (getLimitSignal device idx w) = Resolved false <->
  exists x ms,
    fst (device GetLimit (dev w)) = Some x /\ ok x = true /\
    body x = Some (JObj ms) /\
    member (channelKey idx) ms = Some (JNum 0).
Proof.
  unfold getLimitSignal, bind, fetch, errorHandler, resp_json.
  destruct (device GetLimit (dev w)) as [[x|] d]; simpl.
  2:{ split; [discriminate|]. intros (x & ms & H & _). discriminate. }
  destruct (ok x) eqn:Hok; simpl.
  2:{ split; [discriminate|]. intros (y & ms & [= <-] & H & _). congruence. }
  destruct (body x) as [j|] eqn:Hb; simpl.
  2:{ split; [discriminate|]. intros (y & ms & [= <-] & _ & H & _).
      congruence. }
  split.
  - intros H. exists x.
    destruct j as [|b|n|s|items|ms]; simpl in H; try discriminate.
    exists ms. repeat split; auto.
    destruct (member (channelKey idx) ms) as [[|b|n|s|items|ms']|];
      simpl in H; try discriminate.
    unfold ret in H. injection H as H. apply negb_false_iff, Z.eqb_eq in H.
    subst n. reflexivity.
  - intros (y & ms & [= <-] & _ & Hj & Hm). rewrite Hb in Hj.
    injection Hj as ->. simpl. rewrite Hm. reflexivity.
Qed.

End Cost.

(** ** A threshold outside the range *)

(** X6.  On a fixture whose channel [c] trips exactly above the threshold
    [T c], a search of [0 <= lo < hi <= 2^52] with enough budget resolves to
    the threshold clamped to [lo .. hi - 1]: a channel that never trips in
    the range is reported as [hi - 1], one that always trips as [lo]. *)
Theorem findLimit_clamps (T : nat -> Z) (c fuel : nat) (lo hi : Z)
    (w : world sim) :
  (c < 4)%nat -> 0 <= lo < hi -> hi <= 2 ^ 52 ->
  hi - lo <= 2 ^ Z.of_nat fuel ->
  fst (findLimit (fixture T) fuel c lo hi w) = Resolved (clamp lo hi (T c)) /\
  (hi - 1 <= T c -> clamp lo hi (T c) = hi - 1) /\
  (T c <= lo -> clamp lo hi (T c) = lo).
Proof.
  intros Hc [_ Hlt] _ Hk. split; [|unfold clamp; lia].
  exact (findLimit_fixture T c Hc fuel lo hi w Hlt Hk).
Qed.

(** ** An index outside the array *)

Lemma array_put_empty (n : nat) (v : Z) :
  array_put [] n v = repeat None n ++ [Some v].
Proof. induction n as [|n IH]; simpl; [reflexivity|]. rewrite IH. reflexivity. Qed.

(** X7.  [channelValues] with an index beyond the four channels does not
    fail.  While the index is an array index (below [2^32 - 1]) the array
    grows to [idx + 1] cells: the four channels stay 0, the cells in between
    are holes and the value is the last cell, so the request would carry
    more than four fields.  From [2^32 - 1] on the array keeps its four
    zeros and the value does not reach the request. *)
Theorem channelValues_extends (idx : nat) (v : Z) :
  (4 <= idx)%nat ->
  (Z.of_nat idx < 2 ^ 32 - 1 ->
   channelValues idx v
   = [Some 0; Some 0; Some 0; Some 0] ++ repeat None (idx - 4) ++ [Some v] /\
   List.length (channelValues idx v) = S idx) /\
  (2 ^ 32 - 1 <= Z.of_nat idx ->
   channelValues idx v = [Some 0; Some 0; Some 0; Some 0]).
Proof.
  intros Hidx. change (2 ^ 32 - 1) with 4294967295.
  unfold channelValues, array_set.
  destruct (Z.ltb_spec (Z.of_nat idx) 4294967295) as [Hlt|Hge].
  - split; [intros _|lia].
    assert (E : array_put [Some 0; Some 0; Some 0; Some 0] idx v
                = [Some 0; Some 0; Some 0; Some 0]
                  ++ repeat None (idx - 4) ++ [Some v]).
    { clear Hlt. destruct idx as [|[|[|[|n]]]]; try lia.
      cbn [array_put]. rewrite array_put_empty.
      replace (S (S (S (S n))) - 4)%nat with n by lia. reflexivity. }
    split; [exact E|].
    rewrite E, !length_app, repeat_length. simpl. lia.
  - split; [lia|reflexivity].
Qed.

(** ** The median *)

Lemma sort_insert_In (x y : Z) (l : list Z) :
  In y (sort_insert x l) <-> y = x \/ In y l.
Proof.
  induction l as [|z l IH]; simpl; [intuition|].
  destruct (sort_leb x z); simpl; rewrite ?IH; intuition.
Qed.

Lemma sort_In (y : Z) (a : list Z) : In y (sort a) <-> In y a.
Proof.
  induction a as [|x a IH]; simpl; [tauto|].
  rewrite sort_insert_In, IH. intuition.
Qed.

Lemma sort_insert_length (x : Z) (l : list Z) :
  List.length (sort_insert x l) = S (List.length l).
Proof.
  induction l as [|z l IH]; simpl; [reflexivity|].
  destruct (sort_leb x z); simpl; rewrite ?IH; reflexivity.
Qed.

Lemma sort_length (a : list Z) : List.length (sort a) = List.length a.
Proof.
  induction a as [|x a IH]; simpl; [reflexivity|].
  rewrite sort_insert_length, IH. reflexivity.
Qed.

Lemma median_In (a : list Z) :
  match median a with
  | Some x => In x a
  | None => a = []
  end.
Proof.
  unfold median.
  destruct (nth_error (sort a) (Nat.div (List.length a) 2)) as [x|] eqn:E.
  - apply sort_In. eapply nth_error_In. exact E.
  - apply nth_error_None in E. rewrite sort_length in E.
    destruct a as [|x a]; [reflexivity|]. exfalso.
    assert (Nat.div (List.length (x :: a)) 2 < List.length (x :: a))%nat
      by (apply Nat.div_lt; simpl; lia).
    lia.
Qed.

(** X8.  [median] returns one of the samples it is given, whatever their
    order as strings; it is [undefined] only for the empty array. *)
Theorem median_member (a : list Z) :
  match median a with
  | Some x => In x a
  | None => a = []
  end.
Proof. apply median_In. Qed.

Lemma median_constant (x : Z) (a : list Z) :
  a <> [] -> Forall (fun y => y = x) a -> median a = Some x.
Proof.
  intros Hne Hall. pose proof (median_In a) as H.
  destruct (median a) as [y|]; [|contradiction].
  rewrite Forall_forall in Hall. rewrite (Hall y H). reflexivity.
Qed.

(** X9.  When all the samples of a channel are equal, [median] is that
    value. *)
Theorem median_equal_samples (x : Z) (a : list Z) :
  a <> [] -> Forall (fun y => y = x) a -> median a = Some x.
Proof. apply median_constant. Qed.

Lemma agree_sort_insert (l : list Z) (x : Z) (a : list Z) :
  agree_on l = true -> In x l -> Forall (fun y => In y l) a ->
  sort_insert x a = insert_ascending x a.
Proof.
  intros Hl Hx Ha. induction Ha as [|y a Hy Ha IH]; simpl; [reflexivity|].
  unfold agree_on in Hl. rewrite forallb_forall in Hl.
  pose proof (Hl x Hx) as Hxl. rewrite forallb_forall in Hxl.
  rewrite (eqb_prop _ _ (Hxl y Hy)), IH. reflexivity.
Qed.

Lemma insert_ascending_all (P : Z -> Prop) (x : Z) (a : list Z) :
  P x -> Forall P a -> Forall P (insert_ascending x a).
Proof.
  intros Hx Ha. induction Ha as [|y a Hy Ha IH]; simpl.
  - constructor; [exact Hx|constructor].
  - destruct (x <=? y).
    + constructor; [exact Hx|]. constructor; assumption.
    + constructor; assumption.
Qed.

Lemma agree_sort (l : list Z) (a : list Z) :
  agree_on l = true -> Forall (fun y => In y l) a ->
  sort a = sort_ascending a.
Proof.
  intros Hl Ha. induction Ha as [|x a Hx Ha IH]; simpl; [reflexivity|].
  rewrite IH. apply (agree_sort_insert l); auto.
  clear IH. induction Ha as [|y a Hy Ha IH]; simpl; [constructor|].
  apply insert_ascending_all; assumption.
Qed.

Lemma codes_in (first len : nat) (x : Z) :
  Z.of_nat first <= x < Z.of_nat (first + len) -> In x (codes first len).
Proof.
  intros H. unfold codes. rewrite <- (Z2Nat.id x) by lia.
  apply in_map, in_seq. lia.
Qed.

(** X10.  When all the samples of a channel have the same number of
    digits (all in 0..9, all in 10..99 or all in 100..255), sorting them as
    strings is sorting them as numbers, and [median] is the element at index
    [floor(n/2)] of the samples in ascending numeric order. *)
Theorem median_same_digits (a : list Z) :
  Forall (fun y => 0 <= y <= 9) a \/
  Forall (fun y => 10 <= y <= 99) a \/
  Forall (fun y => 100 <= y <= 255) a ->
  median a = median_spec a.
Proof.
  intros H. unfold median, median_spec. f_equal.
  destruct H as [H|[H|H]].
  - apply (agree_sort (codes 0 10)); [vm_compute; reflexivity|].
    eapply Forall_impl; [|exact H]. intros y Hy. cbv beta in Hy. apply codes_in. simpl. lia.
  - apply (agree_sort (codes 10 90)); [vm_compute; reflexivity|].
    eapply Forall_impl; [|exact H]. intros y Hy. cbv beta in Hy. apply codes_in. simpl. lia.
  - apply (agree_sort (codes 100 156)); [vm_compute; reflexivity|].
    eapply Forall_impl; [|exact H]. intros y Hy. cbv beta in Hy. apply codes_in. simpl. lia.
Qed.

Section Calibration.

Context {D : Type}.
Variable device : request -> D -> option response * D.

(** ** A run *)

Lemma getLimits_range (fuel : nat) (w w' : world D) (r g b x : Z) :
  getLimits device fuel w = (Resolved (r, g, b, x), w') ->
  Forall (fun v => 0 <= v <= 254) [r; g; b; x].
Proof.
  unfold getLimits, bind, ret.
  destruct (findLimit device fuel 0 0 255 w) as [[r'|e|] w1] eqn:E0;
    try discriminate.
  destruct (findLimit device fuel 1 0 255 w1) as [[g'|e|] w2] eqn:E1;
    try discriminate.
  destruct (findLimit device fuel 2 0 255 w2) as [[b'|e|] w3] eqn:E2;
    try discriminate.
  destruct (findLimit device fuel 3 0 255 w3) as [[x'|e|] w4] eqn:E3;
    try discriminate.
  intros [= <- <- <- <- <-].
  assert (H : 0 <= 255) by lia.
  pose proof (findLimit_resolved_range device _ _ _ _ _ _ _ H E0).
  pose proof (findLimit_resolved_range device _ _ _ _ _ _ _ H E1).
  pose proof (findLimit_resolved_range device _ _ _ _ _ _ _ H E2).
  pose proof (findLimit_resolved_range device _ _ _ _ _ _ _ H E3).
  repeat (constructor; [lia|]). constructor.
Qed.


(** ** The samples of a calibration *)

Lemma calib_runs_samples (fuel : nat) (log : bool) (n : nat) :
  forall (s s' : samples) (w w' : world D),
    calib_runs device fuel log n s w = (Resolved s', w') ->
    samples_within n s s'.
Proof.
  induction n as [|n IH]; intros s s' w w'; simpl.
  - intros [= <- <-]. exists [], [], [], [].
    rewrite !app_nil_r. repeat split; auto.
  - unfold bind at 1.
    destruct (getLimits device fuel w) as [[[[[r g] b] x]|e|] w1] eqn:E;
      try discriminate.
    pose proof (getLimits_range fuel w w1 r g b x E) as Hr.
    assert (Hk : forall w2,
               calib_runs device fuel log n (push s (r, g, b, x)) w2
               = (Resolved s', w') ->
               samples_within (S n) s s').
    { intros w2 Hrun. apply IH in Hrun.
      destruct Hrun
        as (ar & ag & ab & ax & Hrs & Hgs & Hbs & Hws & Hlen & Hall).
      inversion Hr as [|? ? H0 Hr1]; subst.
      inversion Hr1 as [|? ? H1 Hr2]; subst.
      inversion Hr2 as [|? ? H2 Hr3]; subst.
      inversion Hr3 as [|? ? H3 _]; subst.
      exists (r :: ar), (g :: ag), (b :: ab), (x :: ax).
      simpl in Hrs, Hgs, Hbs, Hws.
      rewrite <- app_assoc in Hrs, Hgs, Hbs, Hws.
      destruct Hlen as (L1 & L2 & L3 & L4).
      destruct Hall as (A1 & A2 & A3 & A4).
      repeat split; simpl; auto. }
    unfold bind.
    destruct log; unfold console_log, ret; cbv beta iota; apply Hk.
Qed.

(** How a calibration that resolves went. *)
Lemma calib_resolved (fuel n : nat) (log : bool) (w w' : world D)
    (limits : list cell) :
  calib device fuel n log w = (Resolved limits, w') ->
  exists x y run s w1 w2,
    ok x = true /\ ok y = true /\
    wire w'
    = [Sleep 5; Exchange (PutLevel 0) (Some y)] ++ run
      ++ [Sleep 5; Exchange (PutLevel 255) (Some x)] ++ wire w /\
    Forall search run /\ clean run /\
    calib_runs device fuel log n (mkSamples [] [] [] []) w1
    = (Resolved s, w2) /\
    wire w2 = run ++ wire w1 /\
    limits = [median (rs s); median (gs s); median (bs s); median (ws s)] /\
    disk w' = mkStore (Some limits) (LEVEL (disk w)).
Proof.
  unfold calib. unfold bind at 1.
  destruct (setLevel_cases device 255 w)
    as [Hd1 [(x & Hok & Ho1 & Hw1)|(r & resp & Ho1 & Hw1)]];
    destruct (setLevel device 255 w) as [o1 w1]; simpl in *; subst o1;
    [|discriminate].
  unfold bind at 1.
  destruct (run_ok_calib_runs device fuel log n (mkSamples [] [] [] []) w1)
    as (run & Hw2 & Hd2 & HP2 & Hh2).
  destruct (calib_runs device fuel log n _ w1) as [[s|r|] w2] eqn:E;
    simpl in *; try discriminate.
  unfold bind at 1.
  destruct (setLevel_cases device 0 w2)
    as [Hd3 [(y & Hoky & Ho3 & Hw3)|(r & resp & Ho3 & Hw3)]];
    destruct (setLevel device 0 w2) as [o3 w3]; simpl in *; subst o3;
    [|discriminate].
  unfold bind, storage_setItem_limits, ret. simpl. intros [= <- <-].
  exists x, y, run, s, w1, w2. simpl.
  rewrite Hw3, Hw2, Hw1, Hd3, Hd2, Hd1. repeat split; auto.
Qed.

(** X12.  A calibration of at least one run that resolves yields four
    limits, each one a number of 0..254: never [undefined], and never 255,
    whatever the fixture answered. *)
Theorem calib_limits_range (fuel n : nat) (log : bool) (w w' : world D)
    (limits : list cell) :
  (1 <= n)%nat ->
  calib device fuel n log w = (Resolved limits, w') ->
  exists r g b x,
    limits = [Some r; Some g; Some b; Some x] /\
    Forall (fun v => 0 <= v <= 254) [r; g; b; x].
Proof.
  intros Hn Hrun.
  destruct (calib_resolved _ _ _ _ _ _ Hrun)
    as (x & y & run & s & w1 & w2 & _ & _ & _ & _ & _ & Hs & _ & -> & _).
  apply calib_runs_samples in Hs.
  destruct Hs as (ar & ag & ab & ax & Hrs & Hgs & Hbs & Hws & Hlen & Hall).
  simpl in Hrs, Hgs, Hbs, Hws. subst.
  destruct Hlen as (L1 & L2 & L3 & L4).
  destruct Hall as (A1 & A2 & A3 & A4).
  assert (Hm : forall a, List.length a = n ->
                         Forall (fun v => 0 <= v <= 254) a ->
                         exists v, median a = Some v /\ 0 <= v <= 254).
  { intros a Hl Ha. pose proof (median_In a) as H.
    destruct (median a) as [v|].
    - exists v. split; [reflexivity|]. rewrite Forall_forall in Ha. auto.
    - subst a. simpl in Hl. lia. }
  destruct (Hm _ L1 A1) as (r & Er & Hr).
  destruct (Hm _ L2 A2) as (g & Eg & Hg).
  destruct (Hm _ L3 A3) as (b & Eb & Hb).
  destruct (Hm _ L4 A4) as (v & Ev & Hv).
  exists r, g, b, v. rewrite Er, Eg, Eb, Ev.
  split; [reflexivity|]. repeat (constructor; [assumption|]). constructor.
Qed.

(** X13.  A calibration of no run at all that resolves has sent the two
    level commands and nothing else, each followed by its pause, and yields
    four [undefined] limits: the medians of empty arrays. *)
Theorem calib_no_run (fuel : nat) (log : bool) (w w' : world D)
    (limits : list cell) :
  calib device fuel 0 log w = (Resolved limits, w') ->
  limits = [None; None; None; None] /\
  exists x y,
    ok x = true /\ ok y = true /\
    wire w'
    = [Sleep 5; Exchange (PutLevel 0) (Some y);
       Sleep 5; Exchange (PutLevel 255) (Some x)] ++ wire w.
Proof.
  intros Hrun.
  destruct (calib_resolved _ _ _ _ _ _ Hrun)
    as (x & y & run & s & w1 & w2 & Hx & Hy & Hw & _ & _ & Hs & Hw2 & -> & _).
  simpl in Hs. injection Hs as <- <-.
  assert (run = []) by (apply (app_inv_tail (wire w1)); symmetry; exact Hw2).
  subst run. split; [reflexivity|].
  exists x, y. split; [exact Hx|]. split; [exact Hy|]. exact Hw.
Qed.

End Calibration.

Section Commands.

Context {D : Type}.
Variable device : request -> D -> option response * D.

(** X14.  A calibration that resolves started with the level command 255
    and its pause, then sent only searches (channel writes, pauses and limit
    reads), all answered with success, and ended with the level command 0
    and its pause: the fixture is at full level during every search and is
    switched back to level 0 after the last one. *)
Theorem calib_brackets (fuel n : nat) (log : bool) (w w' : world D)
    (limits : list cell) :
  calib device fuel n log w = (Resolved limits, w') ->
  exists x y run,
    ok x = true /\ ok y = true /\
    wire w'
    = [Sleep 5; Exchange (PutLevel 0) (Some y)] ++ run
      ++ [Sleep 5; Exchange (PutLevel 255) (Some x)] ++ wire w /\
    Forall search run /\ clean run.
Proof.
  intros Hrun.
  destruct (calib_resolved device _ _ _ _ _ _ Hrun)
    as (x & y & run & s & w1 & w2 & Hx & Hy & Hw & HP & Hc & _).
  exists x, y, run. auto.
Qed.

(** ** The commands *)

Lemma calib_level_kept (fuel n : nat) (log : bool) (w : world D) :
  LEVEL (disk (snd (calib device fuel n log w))) = LEVEL (disk w).
Proof.
  destruct (calib device fuel n log w) as [o w'] eqn:E.
  destruct (calib_cases device _ _ _ _ _ _ E) as (evs & _ & Hend).
  simpl. inversion Hend;
    match goal with H : disk w' = _ |- _ => rewrite H end; reflexivity.
Qed.

Lemma setChannels_disk (arr : list cell) (w : world D) :
  disk (snd (setChannels device arr w)) = disk w.
Proof.
  destruct (run_ok_setChannels device (fun _ => True) arr I (fun _ => I) w)
    as (evs & _ & Hd & _).
  exact Hd.
Qed.

Lemma initLevels_cases (w : world D) :
  disk (snd (initLevels device w)) = disk w /\
  ((exists x, ok x = true /\
      fst (initLevels device w) = Resolved tt /\
      wire (snd (initLevels device w))
      = [Sleep 5; Exchange (PutLevel (level_or_255 (LEVEL (disk w))))
                    (Some x)] ++ wire w) \/
   (exists r resp,
      fst (initLevels device w) = Rejected r /\
      wire (snd (initLevels device w))
      = [Exchange (PutLevel (level_or_255 (LEVEL (disk w)))) resp]
        ++ wire w)).
Proof.
  unfold initLevels, bind, storage_getItem_level.
  destruct (truthy (LEVEL (disk w))); unfold console_log, ret;
    match goal with
    | |- context [setLevel device ?l ?w0] =>
        destruct (setLevel_cases device l w0) as [Hd Hc]
    end; (split; [exact Hd|exact Hc]).
Qed.

(** X15.  The [off] command sends one request, the channel command with
    four zeros, and nothing else: no level command precedes it, and the
    store is neither read into a request nor changed. *)
Theorem off_single_request (w : world D) :
  exists evs,
    wire (snd (off device w)) = evs ++ wire w /\
    requests evs = [PutCtrl [Some 0; Some 0; Some 0; Some 0]] /\
    disk (snd (off device w)) = disk w.
Proof.
  unfold off.
  pose proof (setChannels_disk [Some 0; Some 0; Some 0; Some 0] w) as Hd.
  destruct (setChannels_cases device [Some 0; Some 0; Some 0; Some 0] w)
    as [(x & _ & _ & Hw)|(r & resp & _ & _ & Hw)];
    eexists; (split; [exact Hw|split; [reflexivity|exact Hd]]).
Qed.

(** A level command followed by a channel command. *)
Lemma setLevel_then_setChannels (L : Z) (arr : list cell) (w0 : world D) :
  let run := (setLevel device L ;; setChannels device arr) w0 in
  exists resp rest,
    wire (snd run) = rest ++ Exchange (PutLevel L) resp :: wire w0 /\
    disk (snd run) = disk w0 /\
    (failed (Exchange (PutLevel L) resp) = true ->
     rest = [] /\ exists r, fst run = Rejected r) /\
    (failed (Exchange (PutLevel L) resp) = false ->
     exists answer after,
       rest = after ++ [Exchange (PutCtrl arr) answer; Sleep 5] /\
       (after = [] /\
        failed (Exchange (PutCtrl arr) answer) = true /\
        (exists r, fst run = Rejected r) \/
        after = [Sleep 5] /\
        failed (Exchange (PutCtrl arr) answer) = false /\
        fst run = Resolved tt)).
Proof.
  unfold setLevel, setChannels, bind, fetch, errorHandler, delay, record,
    ret, reject.
  destruct (device (PutLevel L) (dev w0)) as [[x|] d]; cbn [dev wire disk].
  - destruct (ok x) eqn:Hx; cbn [dev wire disk fst snd].
    + destruct (device (PutCtrl arr) d) as [[y|] d2];
        cbn [dev wire disk fst snd].
      * destruct (ok y) eqn:Hy; cbn [dev wire disk fst snd].
        -- exists (Some x), [Sleep 5; Exchange (PutCtrl arr) (Some y); Sleep 5].
           cbn [failed]. rewrite Hx.
           split; [reflexivity|]. split; [reflexivity|].
           split; [discriminate|]. intros _.
           exists (Some y), [Sleep 5]. split; [reflexivity|].
           right. cbn [failed]. rewrite Hy. auto.
        -- exists (Some x), [Exchange (PutCtrl arr) (Some y); Sleep 5].
           cbn [failed]. rewrite Hx.
           split; [reflexivity|]. split; [reflexivity|].
           split; [discriminate|]. intros _.
           exists (Some y), []. split; [reflexivity|].
           left. cbn [failed]. rewrite Hy. eauto.
      * exists (Some x), [Exchange (PutCtrl arr) None; Sleep 5].
        cbn [failed]. rewrite Hx.
        split; [reflexivity|]. split; [reflexivity|].
        split; [discriminate|]. intros _.
        exists None, []. split; [reflexivity|].
        left. eauto.
    + exists (Some x), []. cbn [failed]. rewrite Hx.
      split; [reflexivity|]. split; [reflexivity|].
      split; [eauto|discriminate].
  - exists None, []. cbn [failed fst snd].
    split; [reflexivity|]. split; [reflexivity|].
    split; [eauto|discriminate].
Qed.

(** X16.  The [white] command first initializes the level and only then
    drives the four channels at 255.  The oldest event is the level command.
    When it failed nothing follows: the channel command is not sent and the
    command rejects.  When it succeeded its pause and the channel command
    follow, and the command resolves, after one more pause, exactly when the
    channel command succeeded.  The store is left as it was. *)
Theorem white_level_first (w : world D) :
  exists resp rest,
    wire (snd (white device w))
    = rest ++ Exchange (PutLevel (level_or_255 (LEVEL (disk w)))) resp
             :: wire w /\
    disk (snd (white device w)) = disk w /\
    (failed (Exchange (PutLevel (level_or_255 (LEVEL (disk w)))) resp) = true ->
     rest = [] /\ exists r, fst (white device w) = Rejected r) /\
    (failed (Exchange (PutLevel (level_or_255 (LEVEL (disk w)))) resp) = false ->
     exists answer after,
       rest = after
              ++ [Exchange (PutCtrl [Some 255; Some 255; Some 255; Some 255])
                    answer; Sleep 5] /\
       (after = [] /\
        failed (Exchange (PutCtrl [Some 255; Some 255; Some 255; Some 255])
                  answer) = true /\
        (exists r, fst (white device w) = Rejected r) \/
        after = [Sleep 5] /\
        failed (Exchange (PutCtrl [Some 255; Some 255; Some 255; Some 255])
                  answer) = false /\
        fst (white device w) = Resolved tt)).
Proof.
  assert (Hrun : exists w0,
            wire w0 = wire w /\ disk w0 = disk w /\
            white device w
            = (setLevel device (level_or_255 (LEVEL (disk w))) ;;
               setChannels device [Some 255; Some 255; Some 255; Some 255])
                w0).
  { unfold white, initLevels, bind, storage_getItem_level.
    destruct (truthy (LEVEL (disk w))); unfold console_log, ret;
      cbv beta iota; eexists; (split; [|split; [|reflexivity]]);
      reflexivity. }
  destruct Hrun as (w0 & Hw & Hd & ->).
  rewrite <- Hw, <- Hd.
  apply (setLevel_then_setChannels (level_or_255 (LEVEL (disk w0)))).
Qed.

(** X17.  With a LimitSet in the store, the [colour] command does not
    calibrate: before scaling it sends the level command and nothing else,
    leaves the store as it was, and uses the stored limits. *)
Theorem colour_limits_stored (fuel : nat) (w : world D) (lim : list cell) :
  LIMITS (disk w) = Some lim ->
  exists evs,
    wire (snd (colour_limits device fuel w)) = evs ++ wire w /\
    requests evs = [PutLevel (level_or_255 (LEVEL (disk w)))] /\
    disk (snd (colour_limits device fuel w)) = disk w /\
    (fst (colour_limits device fuel w) = Resolved lim \/
     exists r, fst (colour_limits device fuel w) = Rejected r).
Proof.
  intros Hlim. unfold colour_limits, bind, storage_getItem_limits.
  rewrite Hlim. unfold console_log, ret.
  match goal with
  | |- context [initLevels device ?w0] =>
      destruct (initLevels_cases w0)
        as [Hd [(x & Hok & Ho & Hw)|(r & resp & Ho & Hw)]];
      destruct (initLevels device w0) as [o1 w1]
  end; cbn [fst snd disk wire dev] in Hd, Ho, Hw; subst o1;
    cbn [fst snd];
    eexists; (split; [exact Hw|]); (split; [reflexivity|]);
    (split; [exact Hd|]); eauto.
Qed.

(** X18.  Whenever the preamble of the [colour] command resolves, the
    LimitSet it hands to the scaling is the one in the store: the stored one
    when there was one, and otherwise the one a calibration of 5 runs has
    just computed and persisted. *)
Theorem colour_limits_persisted (fuel : nat) (w w' : world D)
    (lim : list cell) :
  colour_limits device fuel w = (Resolved lim, w') ->
  LIMITS (disk w') = Some lim /\
  (LIMITS (disk w) = None ->
   exists w1, calib device fuel 5 true w = (Resolved lim, w1)).
Proof.
  unfold colour_limits. unfold bind at 1. unfold storage_getItem_limits.
  destruct (LIMITS (disk w)) as [stored|] eqn:Hs.
  - unfold bind, console_log, ret.
    match goal with
    | |- context [initLevels device ?w0] =>
        destruct (initLevels_cases w0) as [Hd _];
        destruct (initLevels device w0) as [[[]|r|] w1]
    end; try discriminate.
    intros [= <- <-]. simpl in Hd. rewrite Hd. simpl.
    split; [exact Hs|discriminate].
  - unfold bind.
    destruct (calib device fuel 5 true w) as [[l|r|] w1] eqn:Ec;
      try discriminate.
    destruct (calib_cases device _ _ _ _ _ _ Ec) as (evs & _ & Hend).
    inversion Hend as [? _ _ Hd1| | | |]; subst.
    destruct (initLevels_cases w1) as [Hd _].
    destruct (initLevels device w1) as [[[]|r|] w2]; try discriminate.
    unfold ret. intros [= <- <-]. simpl in Hd. rewrite Hd, Hd1. simpl.
    split; [reflexivity|]. intros _. exists w1. reflexivity.
Qed.

(** X19.  No command changes the persisted level: [long], [calib], the
    preamble of [colour], [white] and [off] all leave [LEVEL] in the store
    as they found it. *)
Theorem level_never_written (fuel : nat) (w : world D) :
  LEVEL (disk (snd (long device fuel w))) = LEVEL (disk w) /\
  LEVEL (disk (snd (calib_command device fuel w))) = LEVEL (disk w) /\
  LEVEL (disk (snd (colour_limits device fuel w))) = LEVEL (disk w) /\
  LEVEL (disk (snd (white device w))) = LEVEL (disk w) /\
  LEVEL (disk (snd (off device w))) = LEVEL (disk w).
Proof.
  assert (Hinit : forall w0,
             LEVEL (disk (snd (initLevels device w0))) = LEVEL (disk w0)).
  { intros w0. destruct (initLevels_cases w0) as [-> _]. reflexivity. }
  repeat split.
  - unfold long, bind. pose proof (calib_level_kept fuel 100 true w) as H.
    destruct (calib device fuel 100 true w) as [[l|r|] w1]; exact H.
  - unfold calib_command, bind, console_log.
    pose proof (calib_level_kept fuel 5 true w) as H.
    destruct (calib device fuel 5 true w) as [[l|r|] w1]; exact H.
  - unfold colour_limits. unfold bind at 1. unfold storage_getItem_limits.
    destruct (LIMITS (disk w)) as [stored|].
    + unfold bind, console_log, ret.
      match goal with
      | |- context [initLevels device ?w0] =>
          pose proof (Hinit w0) as H;
          destruct (initLevels device w0) as [[[]|r|] w1]
      end; exact H.
    + unfold bind. pose proof (calib_level_kept fuel 5 true w) as H.
      destruct (calib device fuel 5 true w) as [[l|r|] w1]; simpl in *;
        try exact H.
      pose proof (Hinit w1) as H1.
      destruct (initLevels device w1) as [[[]|r|] w2]; simpl in *; congruence.
  - unfold white, bind. pose proof (Hinit w) as H.
    destruct (initLevels device w) as [[[]|r|] w1]; simpl in *; try exact H.
    rewrite (setChannels_disk _ w1). exact H.
  - unfold off. rewrite setChannels_disk. reflexivity.
Qed.

End Commands.

(** ** Calibrating the simulated fixture *)

Section Fixture.

Variable T : nat -> Z.

Lemma setLevel_fixture (level : Z) (w : world sim) :
  exists w1,
    setLevel (fixture T) level w = (Resolved tt, w1) /\
    sim_level (dev w1) = level /\ disk w1 = disk w.
Proof.
  unfold setLevel, bind, fetch, errorHandler, delay, record, fixture,
    sim_device, no_fault. simpl. eauto.
Qed.

Lemma findLimit_fixture_run (c fuel : nat) (w : world sim) :
  (c < 4)%nat -> (8 <= fuel)%nat ->
  exists w',
    findLimit (fixture T) fuel c 0 255 w
    = (Resolved (clamp 0 255 (T c)), w') /\
    disk w' = disk w.
Proof.
  intros Hc Hfuel.
  assert (Hk : 255 - 0 <= 2 ^ Z.of_nat fuel).
  { assert (2 ^ 8 <= 2 ^ Z.of_nat fuel) by (apply Z.pow_le_mono_r; lia).
    change (2 ^ 8) with 256 in *. lia. }
  pose proof (findLimit_fixture T c Hc fuel 0 255 w ltac:(lia) Hk) as Hv.
  destruct (run_ok_findLimit (fixture T) fuel c 0 255 w) as (evs & _ & Hd & _).
  destruct (findLimit (fixture T) fuel c 0 255 w) as [o w'].
  simpl in Hv, Hd. subst o. exists w'. auto.
Qed.

Lemma getLimits_fixture (fuel : nat) (w : world sim) :
  (8 <= fuel)%nat ->
  exists w',
    getLimits (fixture T) fuel w
    = (Resolved (clamp 0 255 (T 0%nat), clamp 0 255 (T 1%nat),
                 clamp 0 255 (T 2%nat), clamp 0 255 (T 3%nat)), w') /\
    disk w' = disk w.
Proof.
  intros Hfuel. unfold getLimits, bind, ret.
  destruct (findLimit_fixture_run 0 fuel w ltac:(lia) Hfuel) as (w1 & -> & D1).
  destruct (findLimit_fixture_run 1 fuel w1 ltac:(lia) Hfuel) as (w2 & -> & D2).
  destruct (findLimit_fixture_run 2 fuel w2 ltac:(lia) Hfuel) as (w3 & -> & D3).
  destruct (findLimit_fixture_run 3 fuel w3 ltac:(lia) Hfuel) as (w4 & -> & D4).
  exists w4. split; [reflexivity|congruence].
Qed.

Lemma calib_runs_fixture (fuel : nat) (log : bool) (n : nat) :
  (8 <= fuel)%nat ->
  forall (s : samples) (w : world sim),
    exists s' w',
      calib_runs (fixture T) fuel log n s w = (Resolved s', w') /\
      disk w' = disk w /\
      rs s' = rs s ++ repeat (clamp 0 255 (T 0%nat)) n /\
      gs s' = gs s ++ repeat (clamp 0 255 (T 1%nat)) n /\
      bs s' = bs s ++ repeat (clamp 0 255 (T 2%nat)) n /\
      ws s' = ws s ++ repeat (clamp 0 255 (T 3%nat)) n.
Proof.
  intros Hfuel. induction n as [|n IH]; intros s w; simpl.
  - exists s, w. rewrite !app_nil_r. repeat split; reflexivity.
  - unfold bind at 1.
    destruct (getLimits_fixture fuel w Hfuel) as (w1 & -> & D1).
    unfold bind.
    assert (Hlog : forall w2, disk w2 = disk w ->
               exists s' w',
                 calib_runs (fixture T) fuel log n
                   (push s (clamp 0 255 (T 0%nat), clamp 0 255 (T 1%nat),
                            clamp 0 255 (T 2%nat), clamp 0 255 (T 3%nat))) w2
                 = (Resolved s', w') /\
                 disk w' = disk w /\
                 rs s' = rs s ++ clamp 0 255 (T 0%nat)
                                 :: repeat (clamp 0 255 (T 0%nat)) n /\
                 gs s' = gs s ++ clamp 0 255 (T 1%nat)
                                 :: repeat (clamp 0 255 (T 1%nat)) n /\
                 bs s' = bs s ++ clamp 0 255 (T 2%nat)
                                 :: repeat (clamp 0 255 (T 2%nat)) n /\
                 ws s' = ws s ++ clamp 0 255 (T 3%nat)
                                 :: repeat (clamp 0 255 (T 3%nat)) n).
    { intros w2 D2.
      destruct (IH (push s (clamp 0 255 (T 0%nat), clamp 0 255 (T 1%nat),
                            clamp 0 255 (T 2%nat), clamp 0 255 (T 3%nat))) w2)
        as (s' & w' & E & D' & R1 & R2 & R3 & R4).
      exists s', w'. simpl in R1, R2, R3, R4.
      rewrite <- app_assoc in R1, R2, R3, R4.
      repeat split; auto; congruence. }
    destruct log; unfold console_log, ret; cbv beta iota; apply Hlog;
      simpl; exact D1.
Qed.

(** X20.  On a fixture whose channels trip exactly above their thresholds,
    a calibration of any number of runs (at least one) resolves to the four
    thresholds clamped to 0..254 (the thresholds themselves when they lie in
    0..254), persists them and leaves the fixture at level 0. *)
Theorem calib_fixture_exact (fuel n : nat) (log : bool) (w : world sim) :
  (8 <= fuel)%nat -> (1 <= n)%nat ->
  exists w',
    calib (fixture T) fuel n log w
    = (Resolved [Some (clamp 0 255 (T 0%nat)); Some (clamp 0 255 (T 1%nat));
                 Some (clamp 0 255 (T 2%nat)); Some (clamp 0 255 (T 3%nat))],
       w') /\
    LIMITS (disk w')
    = Some [Some (clamp 0 255 (T 0%nat)); Some (clamp 0 255 (T 1%nat));
            Some (clamp 0 255 (T 2%nat)); Some (clamp 0 255 (T 3%nat))] /\
    sim_level (dev w') = 0 /\
    forall c, 0 <= T c <= 254 -> clamp 0 255 (T c) = T c.
Proof.
  intros Hfuel Hn. unfold calib. unfold bind at 1.
  destruct (setLevel_fixture 255 w) as (w1 & -> & _ & D1).
  unfold bind at 1.
  destruct (calib_runs_fixture fuel log n Hfuel (mkSamples [] [] [] []) w1)
    as (s & w2 & -> & D2 & R1 & R2 & R3 & R4).
  unfold bind at 1.
  destruct (setLevel_fixture 0 w2) as (w3 & -> & L3 & D3).
  unfold bind, storage_setItem_limits, ret. simpl in R1, R2, R3, R4.
  assert (Hm : forall t, median (repeat t n) = Some t).
  { intros t. apply median_constant.
    - destruct n; [lia|discriminate].
    - apply Forall_forall. intros y Hy. exact (repeat_spec _ _ _ Hy). }
  rewrite R1, R2, R3, R4, !Hm.
  eexists. split; [reflexivity|]. simpl.
  repeat split; auto. intros c Hc. unfold clamp. lia.
Qed.

End Fixture.

(** ** Scaling within the limits *)

Lemma number_eqb_eq (a b : number) : number_eqb a b = true -> a = b.
Proof.
  destruct a as [s|s| |s m e], b as [s'|s'| |s' m' e']; simpl;
    try discriminate; try reflexivity.
  - intros H. apply eqb_prop in H. congruence.
  - intros H. apply eqb_prop in H. congruence.
  - intros H. apply andb_prop in H. destruct H as [H He].
    apply andb_prop in H. destruct H as [Hs Hm].
    apply eqb_prop in Hs. apply Pos.eqb_eq in Hm. apply Z.eqb_eq in He.
    congruence.
Qed.

(** Once a limit is the limit, and zero times a limit is zero. *)
Lemma scale_ends (z : Z) :
  0 <= z <= 255 ->
  Math_floor (number_mul one (of_int z)) = of_int z /\
  Math_floor (number_mul (S754_zero false) (of_int z)) = S754_zero false.
Proof.
  intros Hz.
  assert (H : forallb (fun x =>
                number_eqb (Math_floor (number_mul one (of_int x))) (of_int x)
                && number_eqb
                     (Math_floor (number_mul (S754_zero false) (of_int x)))
                     (S754_zero false))
                (codes 0 256) = true)
    by (vm_compute; reflexivity).
  rewrite forallb_forall in H.
  assert (Hin : In z (codes 0 256)) by (apply codes_in; simpl; lia).
  specialize (H z Hin). apply andb_prop in H. destruct H as [H1 H0].
  split; apply number_eqb_eq; assumption.
Qed.

(** X21.  A fraction between 0 and 1 never drives a channel beyond its
    calibrated limit: for limits in 0..255 every value
    [Math.floor(k * limit)] is at least 0 and at most the limit. *)
Theorem scale_within_limits (k : number) (lim : list cell) :
  fraction k = true ->
  SFleb (S754_zero false) k = true -> SFleb k one = true ->
  Forall channel_limit lim ->
  Forall2 (fun v c => SFleb (S754_zero false) v = true /\
                      SFleb v (to_number c) = true)
    (scale k lim) lim.
Proof.
  intros Fk H0 H1 Hlim.
  induction Hlim as [|c lim Hc _ IH]; cbn [scale map]; constructor;
    [|exact IH].
  pose proof (channel_value_monotone (S754_zero false) k c
                eq_refl Fk eq_refl H0 Hc) as Hlow.
  pose proof (channel_value_monotone k one c Fk eq_refl H0 H1 Hc) as Hup.
  destruct Hc as (z & -> & Hz). cbn [to_number] in *.
  destruct (scale_ends z Hz) as [E1 E0].
  rewrite E0 in Hlow. rewrite E1 in Hup. split; assumption.
Qed.

(** X22.  The fraction 1 drives every channel at exactly its limit, and
    the fraction 0 at zero, for limits in 0..255: no rounding error moves
    the end points. *)
Theorem scale_end_points (lim : list cell) :
  Forall channel_limit lim ->
  scale one lim = map to_number lim /\
  scale (S754_zero false) lim = map (fun _ => S754_zero false) lim.
Proof.
  intros Hlim.
  induction Hlim as [|c lim (z & -> & Hz) _ [IH1 IH0]]; cbn [scale map];
    [split; reflexivity|].
  cbn [to_number]. destruct (scale_ends z Hz) as [E1 E0].
  fold (scale one lim). fold (scale (S754_zero false) lim).
  rewrite E1, E0, IH1, IH0. split; reflexivity.
Qed.

(** ** A range given upside down *)

(** X23.  The search does not terminate on every input: with [lo = hi + 1]
    (bounds of [0 .. 2^52]) and a channel that reads as tripped at [hi],
    each call probes [hi] and calls itself with the same arguments, so the
    promise stays pending whatever the budget, on integers and on the
    numbers of the code alike.  The order [lo <= hi] is a real
    precondition. *)
Theorem findLimit_inverted_pending (T : nat -> Z) (c fuel : nat) (hi : Z)
    (w : world sim) :
  (c < 4)%nat -> 0 <= hi < 2 ^ 52 -> T c < hi ->
  fst (findLimit (fixture T) fuel c (hi + 1) hi w) = Pending /\
  findLimit_binary64 fuel (fun _ => true) (of_int (hi + 1)) (of_int hi)
  = None.
Proof.
  intros Hc Hhi HT.
  assert (Hmid : (hi + 1 + hi) / 2 = hi).
  { pose proof (Z.div_mod (hi + 1 + hi) 2 ltac:(lia)).
    pose proof (Z.mod_pos_bound (hi + 1 + hi) 2 ltac:(lia)). lia. }
  assert (Hne : (hi =? hi + 1) = false) by (apply Z.eqb_neq; lia).
  split.
  - revert w.
    induction fuel as [|fuel IH]; intros w; simpl; rewrite Hmid, Hne;
      [reflexivity|].
    unfold bind at 1.
    destruct (setChannels_fixture T (channelValues c hi) w)
      as (w1 & -> & Hch).
    unfold bind.
    destruct (getLimitSignal_fixture T c hi w1 Hc) as (w2 & ->).
    { rewrite Hch. apply channelValues_own, Hc. }
    assert (Htrip : (T c <? hi) = true) by (apply Z.ltb_lt; exact HT).
    rewrite Htrip. apply IH.
  - induction fuel as [|fuel IH];
      rewrite findLimit_binary64_step, midpoint_exact, Hmid,
        strict_eq_exact, Hne by lia; [reflexivity|exact IH].
Qed.

(** ** What a calibration prints *)

Section Console.

Context {D : Type}.
Variable device : request -> D -> option response * D.








End Console.

(** ** Instances *)

(** The further statements that have preconditions, at sessions on the
    fixture with thresholds 100, 150, 200, 50. *)

Lemma findLimit_below_hi_witness :
  0 <= 0 <= 255 /\ 255 <= 2 ^ 52 /\
  findLimit (fixture (table [100; 150; 200; 50])) 8 0 0 255 start
  = (Resolved 100, snd one_search) /\
  0 <= 100 /\ (0 < 255 -> 100 < 255).
Proof.
  assert (H0 : 0 <= 0 <= 255) by lia.
  assert (H1 : 255 <= 2 ^ 52) by lia.
  assert (H2 : findLimit (fixture (table [100; 150; 200; 50])) 8 0 0 255 start
               = (Resolved 100, snd one_search))
    by (vm_compute; reflexivity).
  split; [exact H0|]. split; [exact H1|]. split; [exact H2|].
  exact (findLimit_below_hi (fixture (table [100; 150; 200; 50])) 8 0 0 255
           100 start (snd one_search) H0 H1 H2).
Defined.

Lemma findLimit_probes_inside_witness :
  0 <= 0 <= 255 /\ 255 <= 2 ^ 52 /\
  exists evs,
    wire (snd (findLimit (fixture (table [100; 150; 200; 50])) 8 0 0 255
                 start)) = evs ++ wire start /\
    forall arr resp,
      In (Exchange (PutCtrl arr) resp) evs ->
      exists v, arr = channelValues 0 v /\ 0 < v < 255.
Proof.
  assert (H0 : 0 <= 0 <= 255) by lia.
  assert (H1 : 255 <= 2 ^ 52) by lia.
  split; [exact H0|]. split; [exact H1|].
  exact (findLimit_probes_inside (fixture (table [100; 150; 200; 50])) 8 0
           0 255 start H0 H1).
Defined.

Lemma findLimit_cost_witness :
  0 <= 0 <= 255 /\ 255 <= 2 ^ 52 /\
  2 ^ Z.of_nat 8 - 1 <= 255 - 0 /\ 255 - 0 <= 2 ^ Z.of_nat 8 /\
  exists evs,
    wire (snd one_search) = evs ++ wire start /\
    reads evs = writes evs /\
    (7 <= writes evs <= 8)%nat.
Proof.
  assert (H0 : 0 <= 0 <= 255) by lia.
  assert (H1 : 255 <= 2 ^ 52) by lia.
  assert (H2 : 2 ^ Z.of_nat 8 - 1 <= 255 - 0) by (simpl; lia).
  assert (H3 : 255 - 0 <= 2 ^ Z.of_nat 8) by (simpl; lia).
  assert (H4 : findLimit (fixture (table [100; 150; 200; 50])) 8 0 0 255 start
               = (Resolved 100, snd one_search))
    by (vm_compute; reflexivity).
  split; [exact H0|]. split; [exact H1|]. split; [exact H2|].
  split; [exact H3|].
  exact (findLimit_cost (fixture (table [100; 150; 200; 50])) 7 8 8 0 0 255
           100 start (snd one_search) H0 H1 H2 H3 H4).
Defined.

Lemma findLimit_clamps_witness :
  (3 < 4)%nat /\ 0 <= 0 < 40 /\ 40 <= 2 ^ 52 /\ 40 - 0 <= 2 ^ Z.of_nat 6 /\
  fst (findLimit (fixture (table [100; 150; 200; 50])) 6 3 0 40 start)
  = Resolved (clamp 0 40 (table [100; 150; 200; 50] 3)) /\
  (40 - 1 <= table [100; 150; 200; 50] 3 ->
   clamp 0 40 (table [100; 150; 200; 50] 3) = 40 - 1) /\
  (table [100; 150; 200; 50] 3 <= 0 ->
   clamp 0 40 (table [100; 150; 200; 50] 3) = 0).
Proof.
  assert (H1 : (3 < 4)%nat) by lia.
  assert (H2 : 0 <= 0 < 40) by lia.
  assert (H3 : 40 <= 2 ^ 52) by lia.
  assert (H4 : 40 - 0 <= 2 ^ Z.of_nat 6) by (simpl; lia).
  split; [exact H1|]. split; [exact H2|]. split; [exact H3|].
  split; [exact H4|].
  exact (findLimit_clamps (table [100; 150; 200; 50]) 3 6 0 40 start
           H1 H2 H3 H4).
Defined.

Lemma channelValues_extends_witness :
  (4 <= 6)%nat /\
  (Z.of_nat 6 < 2 ^ 32 - 1 ->
   channelValues 6 77
   = [Some 0; Some 0; Some 0; Some 0] ++ repeat None (6 - 4) ++ [Some 77] /\
   List.length (channelValues 6 77) = 7%nat) /\
  (2 ^ 32 - 1 <= Z.of_nat 6 ->
   channelValues 6 77 = [Some 0; Some 0; Some 0; Some 0]).
Proof.
  assert (H : (4 <= 6)%nat) by lia.
  split; [exact H|].
  exact (channelValues_extends 6 77 H).
Defined.

Lemma median_equal_samples_witness :
  [100; 100; 100; 100; 100] <> [] /\
  Forall (fun y => y = 100) [100; 100; 100; 100; 100] /\
  median [100; 100; 100; 100; 100] = Some 100.
Proof.
  assert (H1 : [100; 100; 100; 100; 100] <> ([] : list Z)) by discriminate.
  assert (H2 : Forall (fun y => y = 100) [100; 100; 100; 100; 100])
    by (repeat constructor).
  split; [exact H1|]. split; [exact H2|].
  exact (median_equal_samples 100 _ H1 H2).
Defined.

Lemma median_same_digits_witness :
  (Forall (fun y => 0 <= y <= 9) [57; 12; 99; 30; 41] \/
   Forall (fun y => 10 <= y <= 99) [57; 12; 99; 30; 41] \/
   Forall (fun y => 100 <= y <= 255) [57; 12; 99; 30; 41]) /\
  median [57; 12; 99; 30; 41] = median_spec [57; 12; 99; 30; 41].
Proof.
  assert (H : Forall (fun y => 0 <= y <= 9) [57; 12; 99; 30; 41] \/
              Forall (fun y => 10 <= y <= 99) [57; 12; 99; 30; 41] \/
              Forall (fun y => 100 <= y <= 255) [57; 12; 99; 30; 41])
    by (right; left; repeat constructor; lia).
  split; [exact H|].
  exact (median_same_digits _ H).
Defined.

Lemma calib_limits_range_witness :
  (1 <= 1)%nat /\
  calib (fixture (table [100; 150; 200; 50])) 8 1 false start
  = (Resolved [Some 100; Some 150; Some 200; Some 50], snd one_run) /\
  exists r g b x,
    [Some 100; Some 150; Some 200; Some 50]
    = [Some r; Some g; Some b; Some x] /\
    Forall (fun v => 0 <= v <= 254) [r; g; b; x].
Proof.
  assert (H1 : (1 <= 1)%nat) by lia.
  assert (H2 : calib (fixture (table [100; 150; 200; 50])) 8 1 false start
               = (Resolved [Some 100; Some 150; Some 200; Some 50],
                  snd one_run))
    by (vm_compute; reflexivity).
  split; [exact H1|]. split; [exact H2|].
  exact (calib_limits_range (fixture (table [100; 150; 200; 50])) 8 1 false
           start (snd one_run) _ H1 H2).
Defined.

Lemma calib_no_run_witness :
  calib (fixture (table [100; 150; 200; 50])) 8 0 false start
  = (Resolved [None; None; None; None], snd no_run) /\
  [None; None; None; None] = [None; None; None; None] :> list cell /\
  exists x y,
    ok x = true /\ ok y = true /\
    wire (snd no_run)
    = [Sleep 5; Exchange (PutLevel 0) (Some y);
       Sleep 5; Exchange (PutLevel 255) (Some x)] ++ wire start.
Proof.
  assert (H : calib (fixture (table [100; 150; 200; 50])) 8 0 false start
              = (Resolved [None; None; None; None], snd no_run))
    by (vm_compute; reflexivity).
  split; [exact H|].
  exact (calib_no_run (fixture (table [100; 150; 200; 50])) 8 false start
           (snd no_run) _ H).
Defined.

Lemma calib_brackets_witness :
  calib (fixture (table [100; 150; 200; 50])) 8 1 false start
  = (Resolved [Some 100; Some 150; Some 200; Some 50], snd one_run) /\
  exists x y run,
    ok x = true /\ ok y = true /\
    wire (snd one_run)
    = [Sleep 5; Exchange (PutLevel 0) (Some y)] ++ run
      ++ [Sleep 5; Exchange (PutLevel 255) (Some x)] ++ wire start /\
    Forall search run /\ clean run.
Proof.
  assert (H : calib (fixture (table [100; 150; 200; 50])) 8 1 false start
              = (Resolved [Some 100; Some 150; Some 200; Some 50],
                 snd one_run))
    by (vm_compute; reflexivity).
  split; [exact H|].
  exact (calib_brackets (fixture (table [100; 150; 200; 50])) 8 1 false
           start (snd one_run) _ H).
Defined.

Lemma colour_limits_stored_witness :
  LIMITS (disk calibrated) = Some [Some 228; Some 214; Some 185; Some 184] /\
  exists evs,
    wire (snd (colour_limits (fixture (table [100; 150; 200; 50])) 8
                 calibrated)) = evs ++ wire calibrated /\
    requests evs = [PutLevel (level_or_255 (LEVEL (disk calibrated)))] /\
    disk (snd (colour_limits (fixture (table [100; 150; 200; 50])) 8
                 calibrated)) = disk calibrated /\
    (fst (colour_limits (fixture (table [100; 150; 200; 50])) 8 calibrated)
     = Resolved [Some 228; Some 214; Some 185; Some 184] \/
     exists r,
       fst (colour_limits (fixture (table [100; 150; 200; 50])) 8 calibrated)
       = Rejected r).
Proof.
  assert (H : LIMITS (disk calibrated)
              = Some [Some 228; Some 214; Some 185; Some 184])
    by reflexivity.
  split; [exact H|].
  exact (colour_limits_stored (fixture (table [100; 150; 200; 50])) 8
           calibrated _ H).
Defined.

Lemma colour_limits_persisted_witness :
  colour_limits (fixture (table [100; 150; 200; 50])) 8 start
  = (Resolved [Some 100; Some 150; Some 200; Some 50],
     snd (colour_limits (fixture (table [100; 150; 200; 50])) 8 start)) /\
  LIMITS (disk (snd (colour_limits (fixture (table [100; 150; 200; 50])) 8
                       start)))
  = Some [Some 100; Some 150; Some 200; Some 50] /\
  (LIMITS (disk start) = None ->
   exists w1,
     calib (fixture (table [100; 150; 200; 50])) 8 5 true start
     = (Resolved [Some 100; Some 150; Some 200; Some 50], w1)).
Proof.
  assert (H : colour_limits (fixture (table [100; 150; 200; 50])) 8 start
              = (Resolved [Some 100; Some 150; Some 200; Some 50],
                 snd (colour_limits (fixture (table [100; 150; 200; 50])) 8
                        start)))
    by (vm_compute; reflexivity).
  split; [exact H|].
  exact (colour_limits_persisted (fixture (table [100; 150; 200; 50])) 8
           start _ _ H).
Defined.

Lemma calib_fixture_exact_witness :
  (8 <= 8)%nat /\ (1 <= 3)%nat /\
  exists w',
    calib (fixture (table [100; 150; 200; 50])) 8 3 true start
    = (Resolved [Some (clamp 0 255 (table [100; 150; 200; 50] 0));
                 Some (clamp 0 255 (table [100; 150; 200; 50] 1));
                 Some (clamp 0 255 (table [100; 150; 200; 50] 2));
                 Some (clamp 0 255 (table [100; 150; 200; 50] 3))], w') /\
    LIMITS (disk w')
    = Some [Some (clamp 0 255 (table [100; 150; 200; 50] 0));
            Some (clamp 0 255 (table [100; 150; 200; 50] 1));
            Some (clamp 0 255 (table [100; 150; 200; 50] 2));
            Some (clamp 0 255 (table [100; 150; 200; 50] 3))] /\
    sim_level (dev w') = 0 /\
    forall c, 0 <= table [100; 150; 200; 50] c <= 254 ->
              clamp 0 255 (table [100; 150; 200; 50] c)
              = table [100; 150; 200; 50] c.
Proof.
  assert (H1 : (8 <= 8)%nat) by lia.
  assert (H2 : (1 <= 3)%nat) by lia.
  split; [exact H1|]. split; [exact H2|].
  exact (calib_fixture_exact (table [100; 150; 200; 50]) 8 3 true start
           H1 H2).
Defined.

Lemma scale_within_limits_witness :
  fraction half = true /\
  SFleb (S754_zero false) half = true /\ SFleb half one = true /\
  Forall channel_limit [Some 228; Some 214; Some 185; Some 184] /\
  Forall2 (fun v c => SFleb (S754_zero false) v = true /\
                      SFleb v (to_number c) = true)
    (scale half [Some 228; Some 214; Some 185; Some 184])
    [Some 228; Some 214; Some 185; Some 184].
Proof.
  assert (H1 : fraction half = true) by reflexivity.
  assert (H2 : SFleb (S754_zero false) half = true) by reflexivity.
  assert (H3 : SFleb half one = true) by reflexivity.
  assert (H4 : Forall channel_limit [Some 228; Some 214; Some 185; Some 184]).
  { repeat constructor; eexists; (split; [reflexivity|lia]). }
  repeat (split; [assumption|]).
  exact (scale_within_limits half _ H1 H2 H3 H4).
Defined.

Lemma scale_end_points_witness :
  Forall channel_limit [Some 228; Some 214; Some 185; Some 184] /\
  scale one [Some 228; Some 214; Some 185; Some 184]
  = map to_number [Some 228; Some 214; Some 185; Some 184] /\
  scale (S754_zero false) [Some 228; Some 214; Some 185; Some 184]
  = map (fun _ => S754_zero false) [Some 228; Some 214; Some 185; Some 184].
Proof.
  assert (H : Forall channel_limit [Some 228; Some 214; Some 185; Some 184]).
  { repeat constructor; eexists; (split; [reflexivity|lia]). }
  split; [exact H|].
  exact (scale_end_points _ H).
Defined.

Lemma findLimit_inverted_pending_witness :
  (0 < 4)%nat /\ 0 <= 255 < 2 ^ 52 /\ table [100; 150; 200; 50] 0 < 255 /\
  fst (findLimit (fixture (table [100; 150; 200; 50])) 1000 0 (255 + 1) 255
         start) = Pending /\
  findLimit_binary64 1000 (fun _ => true) (of_int (255 + 1)) (of_int 255)
  = None.
Proof.
  assert (H1 : (0 < 4)%nat) by lia.
  assert (H2 : 0 <= 255 < 2 ^ 52) by lia.
  assert (H3 : table [100; 150; 200; 50] 0 < 255)
    by (unfold table; simpl; lia).
  split; [exact H1|]. split; [exact H2|]. split; [exact H3|].
  exact (findLimit_inverted_pending (table [100; 150; 200; 50]) 0 1000 255
           start H1 H2 H3).
Defined.
